(** * Outlook automation: a shallow embedding of [main.py]

    The script drives a desktop mail client through COM.  Its own logic is
    small: an address check built on [email.utils.parseaddr], a liveness
    probe, a sender, and a mailbox scanner that saves attachments.  The
    embedding follows the script function by function.

    - Python [str] is [string]; a character is an [ascii], read as a code
      point below 256.
    - The functions of the Python standard library that decide what the
      script computes on strings ([ntpath.join], [ntpath.splitext],
      [ntpath.basename], [email.utils.parseaddr]) are embedded from CPython
      3.11 (the script needs Windows, so [os.path] is [ntpath]).
    - The operating system and the mail client are a world: a file system,
      a log, an outbox, and an environment that fixes what every external
      call answers, including the exception it raises, if any. *)

From Stdlib Require Import String Ascii List Arith Lia Bool.
From stdpp Require Import base option list strings gmap pretty.

Local Open Scope string_scope.
Local Open Scope list_scope.
Local Open Scope nat_scope.

(** ** Python strings *)

Module Py.

(** The double quote character, code 34. *)
Definition dquote : ascii := "034"%char.
Definition TAB : ascii := "009"%char.
Definition LF : ascii := "010"%char.
Definition CR : ascii := "013"%char.
Definition backslash : ascii := "\"%char.

Definition eqc (a b : ascii) : bool := Ascii.eqb a b.

(** [c in s] for a one-character [c]. *)
Fixpoint char_in (c : ascii) (s : string) : bool :=
  match s with
  | EmptyString => false
  | String d s' => eqc c d || char_in c s'
  end.

(** [s[-1]]: the last character, if any. *)
Fixpoint last_char (s : string) : option ascii :=
  match s with
  | EmptyString => None
  | String c EmptyString => Some c
  | String _ s' => last_char s'
  end.

(** [s[a:b]] for [0 <= a] and [0 <= b]. *)
Definition slice (a b : nat) (s : string) : string := substring a (b - a) s.
(** [s[a:]] *)
Fixpoint drop (a : nat) (s : string) : string :=
  match a, s with
  | 0, _ => s
  | S a', String _ s' => drop a' s'
  | S _, EmptyString => EmptyString
  end.
(** [s[:b]] *)
Fixpoint take (b : nat) (s : string) : string :=
  match b, s with
  | S b', String c s' => String c (take b' s')
  | _, _ => EmptyString
  end.

(** [''.join(l)] *)
Definition join_empty (l : list string) : string := fold_right append "" l.

(** [sep.join(l)] *)
Fixpoint join_with (sep : string) (l : list string) : string :=
  match l with
  | [] => ""
  | [x] => x
  | x :: l' => x +:+ sep +:+ join_with sep l'
  end.

(** [s.replace(a, b)] for a one-character [a]. *)
Fixpoint replace_char (a : ascii) (b : string) (s : string) : string :=
  match s with
  | EmptyString => EmptyString
  | String c s' => (if eqc c a then b else String c "") +:+ replace_char a b s'
  end.

(** [s.find(c, start)] for a one-character [c]: the least index at or
    after [start] that holds [c]; [None] stands for -1. *)
Fixpoint find_from (c : ascii) (start : nat) (s : string) : option nat :=
  match s with
  | EmptyString => None
  | String d s' =>
      match start with
      | 0 => if eqc d c then Some 0 else S <$> find_from c 0 s'
      | S start' => S <$> find_from c start' s'
      end
  end.

(** [s.rfind(c)] for a one-character [c]; [None] stands for -1. *)
Fixpoint rfind (c : ascii) (s : string) : option nat :=
  match s with
  | EmptyString => None
  | String d s' =>
      match rfind c s' with
      | Some i => Some (S i)
      | None => if eqc d c then Some 0 else None
      end
  end.

(** [str.isspace] on code points below 256: TAB, LF, VT, FF, CR, the four
    separators 28 to 31, the space, NEL (133) and the no-break space. *)
Definition isspace (c : ascii) : bool :=
  let n := nat_of_ascii c in
  ((9 <=? n) && (n <=? 13)) || ((28 <=? n) && (n <=? 32))
  || (n =? 133) || (n =? 160).

(** [not s.strip()]: the string holds white space only. *)
Fixpoint strip_is_empty (s : string) : bool :=
  match s with
  | EmptyString => true
  | String c s' => isspace c && strip_is_empty s'
  end.

(** [c.upper()] and [c.lower()] where they stay below 256 and keep the
    length: the ASCII letters, and for [lower] the Latin-1 capitals. *)
Definition upper_char (c : ascii) : ascii :=
  let n := nat_of_ascii c in
  if (97 <=? n) && (n <=? 122) then ascii_of_nat (n - 32) else c.
Definition lower_char (c : ascii) : ascii :=
  let n := nat_of_ascii c in
  if ((65 <=? n) && (n <=? 90))
     || ((192 <=? n) && (n <=? 222) && negb (n =? 215))
  then ascii_of_nat (n + 32) else c.
Fixpoint map_chars (f : ascii -> ascii) (s : string) : string :=
  match s with
  | EmptyString => EmptyString
  | String c s' => String (f c) (map_chars f s')
  end.
Definition upper := map_chars upper_char.
Definition lower := map_chars lower_char.

(** Truth value of a string and of a list. *)
Definition truthy (s : string) : bool :=
  match s with EmptyString => false | _ => true end.
Definition nonempty {A} (l : list A) : bool :=
  match l with [] => false | _ => true end.

End Py.

(** ** [ntpath]: path names on Windows *)

Module ntpath.
Import Py.

Definition sep : ascii := backslash.
Definition altsep : ascii := "/"%char.
Definition colon : ascii := ":"%char.
Definition seps : string := "\/".
Definition unc_prefix : string := "\\?\UNC\".

(** [splitdrive(p)]: the drive or UNC share, and the rest. *)
Definition splitdrive (p : string) : string * string :=
  if 2 <=? String.length p then
    let normp := replace_char altsep (String sep "") p in
    if String.eqb (slice 0 2 normp) (String sep (String sep "")) then
      let start :=
        if String.eqb (upper (take 8 normp)) unc_prefix then 8 else 2 in
      match find_from sep start normp with
      | None => (p, "")
      | Some index =>
          match find_from sep (index + 1) normp with
          | None => (p, "")
          | Some index2 => (take index2 p, drop index2 p)
          end
      end
    else if String.eqb (slice 1 2 normp) (String colon "") then
      (take 2 p, drop 2 p)
    else ("", p)
  else ("", p).

(** One turn of the loop of [join] over the later components: the running
    drive and path, and the next component [p]. *)
Definition join_step (acc : string * string) (p : string)
  : string * string :=
  let '(result_drive, result_path) := acc in
  let '(p_drive, p_path) := splitdrive p in
  let relative (result_drive : string) :=
    let result_path :=
      match last_char result_path with
      | Some c =>
          if negb (char_in c seps) then result_path +:+ String sep ""
          else result_path
      | None => result_path
      end in
    (result_drive, result_path +:+ p_path) in
  let absolute :=
    match p_path with
    | String c _ => char_in c seps
    | EmptyString => false
    end in
  if absolute then
    (if truthy p_drive || negb (truthy result_drive)
     then p_drive else result_drive, p_path)
  else if truthy p_drive && negb (String.eqb p_drive result_drive) then
    if negb (String.eqb (lower p_drive) (lower result_drive)) then
      (* another drive: the path so far is dropped *)
      (p_drive, p_path)
    else
      (* the same drive in another case *)
      relative p_drive
  else relative result_drive.

(** [join(path, *paths)] *)
Definition join (path : string) (paths : list string) : string :=
  let '(result_drive, result_path) :=
    fold_left join_step paths (splitdrive path) in
  match result_path, last_char result_drive with
  | String c _, Some d =>
      if negb (char_in c seps) && negb (eqc d colon)
      then result_drive +:+ String sep "" +:+ result_path
      else result_drive +:+ result_path
  | _, _ => result_drive +:+ result_path
  end.

(** [split(p)]: head and tail, the tail being what follows the last
    separator. *)
Fixpoint last_sep_end (p : string) : nat :=
  match p with
  | EmptyString => 0
  | String c p' =>
      match last_sep_end p' with
      | 0 => if char_in c seps then 1 else 0
      | S i => S (S i)
      end
  end.

(** [head.rstrip(seps)] *)
Fixpoint rstrip_seps (s : string) : string :=
  match s with
  | EmptyString => EmptyString
  | String c s' =>
      match rstrip_seps s' with
      | EmptyString => if char_in c seps then EmptyString else String c ""
      | t => String c t
      end
  end.

Definition split (p : string) : string * string :=
  let '(d, p) := splitdrive p in
  let i := last_sep_end p in
  let head := take i p in
  let tail := drop i p in
  let head := if truthy (rstrip_seps head) then rstrip_seps head else head in
  (d +:+ head, tail).

Definition basename (p : string) : string := snd (split p).

(** [genericpath._splitext(p, sep, altsep, extsep)] with the separators of
    [ntpath]: the extension starts at the last dot of the last component,
    leading dots of that component set aside. *)
Definition extsep : ascii := "."%char.

(** The loop that skips the leading dots: is there, from [filenameIndex]
    up to [dotIndex], a character that is not a dot? *)
Fixpoint has_non_dot (p : string) (filenameIndex dotIndex : nat) : bool :=
  match p with
  | EmptyString => false
  | String c p' =>
      match dotIndex with
      | 0 => false
      | S dotIndex' =>
          match filenameIndex with
          | 0 => negb (eqc c extsep) || has_non_dot p' 0 dotIndex'
          | S f' => has_non_dot p' f' dotIndex'
          end
      end
  end.

Definition splitext (p : string) : string * string :=
  (* indices shifted by one, so that 0 stands for -1 *)
  let idx (o : option nat) := match o with Some i => S i | None => 0 end in
  let sepIndex := Nat.max (idx (rfind sep p)) (idx (rfind altsep p)) in
  let dotIndex := idx (rfind extsep p) in
  if (sepIndex <? dotIndex) && has_non_dot p sepIndex (dotIndex - 1)
  then (take (dotIndex - 1) p, drop (dotIndex - 1) p)
  else (p, "").

End ntpath.

(** ** [email._parseaddr]: the address parser behind [parseaddr]

    [AddrlistClass] keeps the header in [self.field], a cursor [self.pos] and
    the comments met so far.  The embedding keeps the unread part
    [field[pos:]] in place of the pair, which is all the parser ever looks
    at: [pos < len(field)] says the unread part is not empty,
    [field[pos]] is its first character, [pos += 1] drops it.  A cursor
    moved past the end ([pos > len(field)], which [getrouteaddr] can do)
    reads like one at the end.

    The loops are recursive functions on a fuel; [email_utils.parse_enough] shows
    that the fuel [parseaddr] hands out is never used up, and that neither
    of the other two abnormal outcomes is ever met. *)

Module email_utils.
Import Py.

Record AddrlistClass := mkSelf {
  rest : string;               (* field[pos:] *)
  commentlist : list string;
}.

Definition set_rest (self : AddrlistClass) (r : string) : AddrlistClass :=
  mkSelf r (commentlist self).
Definition append_comment (self : AddrlistClass) (c : string)
  : AddrlistClass :=
  mkSelf (rest self) (commentlist self ++ [c]).

Inductive outcome (A : Type) : Type :=
| Done (a : A) (self : AddrlistClass)
| IndexError            (* field[pos] read at the end of the field *)
| ReturnedNone          (* the bare [return] of [getrouteaddr] *)
| OutOfFuel.
Arguments Done {A} a self.
Arguments IndexError {A}.
Arguments ReturnedNone {A}.
Arguments OutOfFuel {A}.

Definition bind {A B} (m : outcome A)
  (k : A -> AddrlistClass -> outcome B) : outcome B :=
  match m with
  | Done a self => k a self
  | IndexError => IndexError
  | ReturnedNone => ReturnedNone
  | OutOfFuel => OutOfFuel
  end.

Notation "'let*' ( x , s ) := m 'in' k" :=
  (bind m (fun x s => k))
  (at level 10, x name, s name, m at level 100, k at level 200).

Definition specials : string := "()<>@,:;." +:+ String dquote "[]".
Definition LWS : string := String " " (String TAB "").
Definition CRLF : string := String CR (String LF "").
Definition LFCR : string := String LF (String CR "").
Definition FWS : string := LWS +:+ CRLF.
Definition atomends : string := specials +:+ LWS +:+ CRLF.
Definition phraseends : string := replace_char "." "" atomends.

(** [quote(str)]: backslash and double quote become quoted pairs. *)
Definition quote (s : string) : string :=
  replace_char dquote (String backslash (String dquote ""))
    (replace_char backslash (String backslash (String backslash "")) s).

(** [getatom(atomends)]: the characters up to the first one in [ends]. *)
Fixpoint getatom_loop (ends : string) (atomlist : string) (r : string)
  : string * string :=
  match r with
  | EmptyString => (atomlist, r)
  | String c r' =>
      if char_in c ends then (atomlist, r)
      else getatom_loop ends (atomlist +:+ String c "") r'
  end.

Definition getatom (ends : string) (self : AddrlistClass)
  : outcome string :=
  let '(a, r) := getatom_loop ends "" (rest self) in
  Done a (set_rest self r).

(** [getdelimited(beginchar, endchars, allowcomments)] and its loop; a
    comment inside a comment re-enters [getdelimited] through
    [getcomment]. *)
Fixpoint getdelimited (fuel : nat) (beginchar : ascii) (endchars : string)
  (allowcomments : bool) (self : AddrlistClass) {struct fuel}
  : outcome string :=
  match fuel with
  | 0 => OutOfFuel
  | S fuel' =>
      match rest self with
      | EmptyString => IndexError
      | String c r =>
          if negb (eqc c beginchar) then Done "" self
          else
            getdelimited_loop fuel' endchars allowcomments false ""
              (set_rest self r)
      end
  end
with getdelimited_loop (fuel : nat) (endchars : string)
  (allowcomments quote : bool) (slist : string) (self : AddrlistClass)
  {struct fuel} : outcome string :=
  match fuel with
  | 0 => OutOfFuel
  | S fuel' =>
      match rest self with
      | EmptyString => Done slist self
      | String c r =>
          if quote then
            getdelimited_loop fuel' endchars allowcomments false
              (slist +:+ String c "") (set_rest self r)
          else if char_in c endchars then Done slist (set_rest self r)
          else if allowcomments && eqc c "(" then
            let* (cm, self) :=
              getdelimited fuel' "(" (String ")" (String CR "")) true self in
            getdelimited_loop fuel' endchars allowcomments false
              (slist +:+ cm) self
          else if eqc c backslash then
            getdelimited_loop fuel' endchars allowcomments true slist
              (set_rest self r)
          else
            getdelimited_loop fuel' endchars allowcomments false
              (slist +:+ String c "") (set_rest self r)
      end
  end.

Definition getquote (fuel : nat) (self : AddrlistClass) : outcome string :=
  getdelimited fuel dquote (String dquote (String CR "")) false self.

Definition getcomment (fuel : nat) (self : AddrlistClass) : outcome string :=
  getdelimited fuel "(" (String ")" (String CR "")) true self.

Definition getdomainliteral (fuel : nat) (self : AddrlistClass)
  : outcome string :=
  let* (s, self) :=
    getdelimited fuel "[" (String "]" (String CR "")) false self in
  Done ("[" +:+ s +:+ "]") self.

(** [gotonext()]: skip white space, keep the comments; the blanks and tabs
    skipped are returned. *)
Fixpoint gotonext_loop (fuel : nat) (wslist : string) (self : AddrlistClass)
  : outcome string :=
  match fuel with
  | 0 => OutOfFuel
  | S fuel' =>
      match rest self with
      | EmptyString => Done wslist self
      | String c r =>
          if char_in c (LWS +:+ LFCR) then
            gotonext_loop fuel'
              (if negb (char_in c LFCR) then wslist +:+ String c ""
               else wslist)
              (set_rest self r)
          else if eqc c "(" then
            let* (cm, self) := getcomment fuel' self in
            gotonext_loop fuel' wslist (append_comment self cm)
          else Done wslist self
      end
  end.

Definition gotonext (fuel : nat) (self : AddrlistClass) : outcome string :=
  gotonext_loop fuel "" self.

(** [getphraselist()] *)
Fixpoint getphraselist_loop (fuel : nat) (plist : list string)
  (self : AddrlistClass) : outcome (list string) :=
  match fuel with
  | 0 => OutOfFuel
  | S fuel' =>
      match rest self with
      | EmptyString => Done plist self
      | String c r =>
          if char_in c FWS then
            getphraselist_loop fuel' plist (set_rest self r)
          else if eqc c dquote then
            let* (q, self) := getquote fuel' self in
            getphraselist_loop fuel' (plist ++ [q]) self
          else if eqc c "(" then
            let* (cm, self) := getcomment fuel' self in
            getphraselist_loop fuel' plist (append_comment self cm)
          else if char_in c phraseends then Done plist self
          else
            let* (a, self) := getatom phraseends self in
            getphraselist_loop fuel' (plist ++ [a]) self
      end
  end.

Definition getphraselist (fuel : nat) (self : AddrlistClass)
  : outcome (list string) :=
  getphraselist_loop fuel [] self.

(** [getdomain()] *)
Fixpoint getdomain_loop (fuel : nat) (sdlist : string)
  (self : AddrlistClass) : outcome string :=
  match fuel with
  | 0 => OutOfFuel
  | S fuel' =>
      match rest self with
      | EmptyString => Done sdlist self
      | String c r =>
          if char_in c LWS then getdomain_loop fuel' sdlist (set_rest self r)
          else if eqc c "(" then
            let* (cm, self) := getcomment fuel' self in
            getdomain_loop fuel' sdlist (append_comment self cm)
          else if eqc c "[" then
            let* (d, self) := getdomainliteral fuel' self in
            getdomain_loop fuel' (sdlist +:+ d) self
          else if eqc c "." then
            getdomain_loop fuel' (sdlist +:+ ".") (set_rest self r)
          else if eqc c "@" then
            (* a second [@]: no domain at all *)
            Done "" self
          else if char_in c atomends then Done sdlist self
          else
            let* (a, self) := getatom atomends self in
            getdomain_loop fuel' (sdlist +:+ a) self
      end
  end.

Definition getdomain (fuel : nat) (self : AddrlistClass) : outcome string :=
  getdomain_loop fuel "" self.

(** [getaddrspec()].  [pop_blank] is
    [if aslist and not aslist[-1].strip(): aslist.pop()]. *)
Definition pop_blank (aslist : list string) : list string :=
  match last aslist with
  | Some x => if strip_is_empty x then removelast aslist else aslist
  | None => aslist
  end.

(** The end of a turn of the loop: [ws = self.gotonext()], kept when
    [preserve_ws and ws]. *)
Definition keep_ws (fuel : nat) (preserve_ws : bool) (aslist : list string)
  (self : AddrlistClass) : outcome (list string) :=
  let* (ws, self) := gotonext fuel self in
  Done (if preserve_ws && truthy ws then aslist ++ [ws] else aslist) self.

Fixpoint getaddrspec_loop (fuel : nat) (aslist : list string)
  (self : AddrlistClass) : outcome (list string) :=
  match fuel with
  | 0 => OutOfFuel
  | S fuel' =>
      match rest self with
      | EmptyString => Done aslist self
      | String c r =>
          if eqc c "." then
            let* (aslist, self) :=
              keep_ws fuel' false (pop_blank aslist ++ ["."])
                (set_rest self r) in
            getaddrspec_loop fuel' aslist self
          else if eqc c dquote then
            let* (q, self) := getquote fuel' self in
            let* (aslist, self) :=
              keep_ws fuel' true
                (aslist ++ [String dquote (quote q) +:+ String dquote ""])
                self in
            getaddrspec_loop fuel' aslist self
          else if char_in c atomends then Done (pop_blank aslist) self
          else
            let* (a, self) := getatom atomends self in
            let* (aslist, self) := keep_ws fuel' true (aslist ++ [a]) self in
            getaddrspec_loop fuel' aslist self
      end
  end.

Definition getaddrspec (fuel : nat) (self : AddrlistClass)
  : outcome string :=
  let* (_, self) := gotonext fuel self in
  let* (aslist, self) := getaddrspec_loop fuel [] self in
  match rest self with
  | String c r =>
      if negb (eqc c "@") then Done (join_empty aslist) self
      else
        let aslist := aslist ++ ["@"] in
        let* (_, self) := gotonext fuel (set_rest self r) in
        let* (domain, self) := getdomain fuel self in
        if negb (truthy domain) then Done "" self
        else Done (join_empty aslist +:+ domain) self
  | EmptyString => Done (join_empty aslist) self
  end.

(** [getrouteaddr()]: the route is skipped, the addr-spec returned. *)
Fixpoint getrouteaddr_loop (fuel : nat) (expectroute : bool)
  (adlist : string) (self : AddrlistClass) : outcome string :=
  match fuel with
  | 0 => OutOfFuel
  | S fuel' =>
      match rest self with
      | EmptyString => Done adlist self
      | String c r =>
          if expectroute then
            let* (_, self) := getdomain fuel' self in
            let* (_, self) := gotonext fuel' self in
            getrouteaddr_loop fuel' false adlist self
          else if eqc c ">" then Done adlist (set_rest self r)
          else if eqc c "@" then
            let* (_, self) := gotonext fuel' (set_rest self r) in
            getrouteaddr_loop fuel' true adlist self
          else if eqc c ":" then
            let* (_, self) := gotonext fuel' (set_rest self r) in
            getrouteaddr_loop fuel' false adlist self
          else
            let* (adlist, self) := getaddrspec fuel' self in
            Done adlist (set_rest self (drop 1 (rest self)))
      end
  end.

Definition getrouteaddr (fuel : nat) (self : AddrlistClass)
  : outcome string :=
  match rest self with
  | EmptyString => IndexError
  | String c r =>
      if negb (eqc c "<") then ReturnedNone
      else
        let* (_, self) := gotonext fuel (set_rest self r) in
        getrouteaddr_loop fuel false "" self
  end.

Definition SPACE : string := " ".

(** [getaddress()] and the loop over the members of a group.

    [oldcl = self.commentlist] names the very list that the calls in
    between extend in place, so [self.commentlist = oldcl] restores
    nothing: only the cursor goes back. *)
Fixpoint getaddress (fuel : nat) (self : AddrlistClass) {struct fuel}
  : outcome (list (string * string)) :=
  match fuel with
  | 0 => OutOfFuel
  | S fuel' =>
      let self := mkSelf (rest self) [] in
      let* (_, self) := gotonext fuel' self in
      let oldpos := rest self in
      let* (plist, self) := getphraselist fuel' self in
      let* (_, self) := gotonext fuel' self in
      let* (returnlist, self) :=
        match rest self with
        | EmptyString =>
            (* no domain *)
            Done (match plist with
                  | p :: _ => [(join_with SPACE (commentlist self), p)]
                  | [] => []
                  end) self
        | String c r =>
            if char_in c ".@" then
              (* the address is just an addr-spec: start over *)
              let* (addrspec, self) :=
                getaddrspec fuel' (set_rest self oldpos) in
              Done [(join_with SPACE (commentlist self), addrspec)] self
            else if eqc c ":" then
              (* the address is a group *)
              getaddress_group fuel' [] (set_rest self r)
            else if eqc c "<" then
              (* a phrase, then a route address *)
              let* (routeaddr, self) := getrouteaddr fuel' self in
              if nonempty (commentlist self) then
                Done [(join_with SPACE plist +:+ " ("
                         +:+ join_with " " (commentlist self) +:+ ")",
                       routeaddr)] self
              else Done [(join_with SPACE plist, routeaddr)] self
            else
              match plist with
              | p :: _ =>
                  Done [(join_with SPACE (commentlist self), p)] self
              | [] =>
                  if char_in c specials then Done [] (set_rest self r)
                  else Done [] self
              end
        end in
      let* (_, self) := gotonext fuel' self in
      match rest self with
      | String c r =>
          if eqc c "," then Done returnlist (set_rest self r)
          else Done returnlist self
      | EmptyString => Done returnlist self
      end
  end
with getaddress_group (fuel : nat) (returnlist : list (string * string))
  (self : AddrlistClass) {struct fuel} : outcome (list (string * string)) :=
  match fuel with
  | 0 => OutOfFuel
  | S fuel' =>
      match rest self with
      | EmptyString => Done returnlist self
      | String _ _ =>
          let* (_, self) := gotonext fuel' self in
          let member :=
            let* (ad, self) := getaddress fuel' self in
            getaddress_group fuel' (returnlist ++ ad) self in
          match rest self with
          | String c r =>
              if eqc c ";" then Done returnlist (set_rest self r)
              else member
          | EmptyString => member
          end
      end
  end.

(** [getaddrlist()] *)
Fixpoint getaddrlist_loop (fuel : nat) (result : list (string * string))
  (self : AddrlistClass) : outcome (list (string * string)) :=
  match fuel with
  | 0 => OutOfFuel
  | S fuel' =>
      match rest self with
      | EmptyString => Done result self
      | String _ _ =>
          let* (ad, self) := getaddress fuel' self in
          getaddrlist_loop fuel'
            (if nonempty ad then result ++ ad else result ++ [("", "")])
            self
      end
  end.

(** [AddressList(field).addresslist], run on [fuel]. *)
Definition AddressList_on (fuel : nat) (field : string)
  : outcome (list (string * string)) :=
  if truthy field then getaddrlist_loop fuel [] (mkSelf field [])
  else Done [] (mkSelf field []).

(** *** [email.utils]: the strict wrapper of [parseaddr] *)

(** [_iter_escaped_chars(addr)]: positions and characters, a backslash
    glued to the character it escapes. *)
Fixpoint iter_escaped_chars_from (pos : nat) (escape : bool) (addr : string)
  : list (nat * string) :=
  match addr with
  | EmptyString =>
      if escape then [(pos - 1, String backslash "")] else []
  | String ch addr' =>
      if escape then
        (pos, String backslash (String ch ""))
          :: iter_escaped_chars_from (S pos) false addr'
      else if eqc ch backslash then
        iter_escaped_chars_from (S pos) true addr'
      else (pos, String ch "") :: iter_escaped_chars_from (S pos) false addr'
  end.

Definition _iter_escaped_chars (addr : string) : list (nat * string) :=
  iter_escaped_chars_from 0 false addr.

(** [_strip_quoted_realnames(addr)]; the loop carries [start], [open_pos]
    and [result]. *)
Definition strip_step (addr : string)
  (st : nat * option nat * list string) (x : nat * string)
  : nat * option nat * list string :=
  let '(start, open_pos, result) := st in
  let '(pos, ch) := x in
  if String.eqb ch (String dquote "") then
    match open_pos with
    | None => (start, Some pos, result)
    | Some o =>
        (pos + 1, None,
         if negb (start =? o) then result ++ [slice start o addr]
         else result)
    end
  else st.

Definition _strip_quoted_realnames (addr : string) : string :=
  if negb (char_in dquote addr) then addr
  else
    let '(start, _, result) :=
      fold_left (strip_step addr) (_iter_escaped_chars addr) (0, None, []) in
    join_empty
      (if start <? String.length addr then result ++ [drop start addr]
       else result).

(** [_check_parenthesis(addr)] *)
Fixpoint check_parenthesis_loop (opens : nat) (l : list (nat * string))
  : bool :=
  match l with
  | [] => opens =? 0
  | (_, ch) :: l' =>
      if String.eqb ch "(" then check_parenthesis_loop (S opens) l'
      else if String.eqb ch ")" then
        match opens with
        | 0 => false
        | S opens' => check_parenthesis_loop opens' l'
        end
      else check_parenthesis_loop opens l'
  end.

Definition _check_parenthesis (addr : string) : bool :=
  check_parenthesis_loop 0
    (_iter_escaped_chars (_strip_quoted_realnames addr)).

(** [_pre_parse_validation([addr])[0]] *)
Definition _pre_parse_validation (v : string) : string :=
  if negb (_check_parenthesis v) then "('', '')" else v.

(** [_post_parse_validation(addrs)] *)
Definition _post_parse_validation (l : list (string * string))
  : list (string * string) :=
  map (fun v => if char_in "[" (snd v) then ("", "") else v) l.

(** The fuel that [parseaddr] hands to the parser. *)
Definition fuel_for (field : string) : nat := 2 * String.length field + 4.

(** [parseaddr(addr)], strict as by default, run on [fuel]. *)
Definition parseaddr_on (fuel : nat) (addr : string)
  : outcome (string * string) :=
  let addr := _pre_parse_validation addr in
  let* (addrs, self) := AddressList_on fuel addr in
  match _post_parse_validation addrs with
  | [a] => Done a self
  | _ => Done ("", "") self
  end.

(** [parseaddr(addr)]: realname and address, or [('', '')]. *)
Definition parseaddr (addr : string) : string * string :=
  match parseaddr_on (fuel_for (_pre_parse_validation addr)) addr with
  | Done a _ => a
  | _ => ("", "")
  end.

End email_utils.

(** ** The world of the script: file system, mail client, log *)

Module World.

(** Exceptions.  Every class below derives from [Exception]; [exn_text] is
    [str(e)], the text that [f"{e}"] prints. *)
Inductive exn_class :=
| com_error | TypeError | KeyError | AttributeError | OSError | OtherError.

Record exn := mkExn { exn_cls : exn_class; exn_text : string }.

Inductive res (A : Type) : Type :=
| Ok (a : A)
| Raise (e : exn).
Arguments Ok {A} a.
Arguments Raise {A} e.

(** The file system: the directories and the files, by path as spelled. *)
Record FS := mkFS {
  dirs : gset string;
  files : gmap string string;
}.

Definition isdir (fs : FS) (p : string) : bool := bool_decide (p ∈ dirs fs).
Definition exists_ (fs : FS) (p : string) : bool :=
  bool_decide (p ∈ dirs fs) || bool_decide (is_Some (files fs !! p)).
Definition write_file (p content : string) (fs : FS) : FS :=
  mkFS (dirs fs) (<[p := content]> (files fs)).
Definition add_dir (p : string) (fs : FS) : FS :=
  mkFS ({[p]} ∪ dirs fs) (files fs).

(** The mail client's objects.  Reading a property or calling a method
    either answers or raises; what it does is fixed per object. *)
Record Attachment := mkAttachment {
  FileName : res string;
  att_content : string;
  (** [SaveAsFile(path)] raises this, if anything, and writes nothing *)
  SaveAsFile_error : string -> option exn;
}.

Record Message := mkMessage {
  Subject : res string;
  ConversationID : res string;
  (** [msg.Sender.GetExchangeUser().PrimarySmtpAddress] *)
  Sender_PrimarySmtpAddress : res string;
  Sender_Name : res string;
  Body : res string;
  UnRead : res bool;
  Attachments : res (list Attachment);
}.

(** A collection of items: [Restrict] answers a new collection, [Sort]
    reorders this one (given here as the collection after the call), and
    iterating lists the messages. *)
#[warnings="-register-all"]
Inductive Items :=
| mkItems (restrict : string -> res Items)
          (sort : string -> bool -> res Items)
          (elements : res (list Message)).

Definition Restrict (i : Items) := let '(mkItems r _ _) := i in r.
Definition Sort (i : Items) := let '(mkItems _ s _) := i in s.
Definition elements (i : Items) := let '(mkItems _ _ e) := i in e.

Record Folder := mkFolder {
  Name : res string;
  Folder_Items : res Items;
}.

(** An outgoing message under composition. *)
Record Attached := mkAttached {
  source : string;
  (** the value set at property tag 0x3712001E, for an inline image *)
  content_id : option string;
}.

Record MailItem := mkMail {
  To : string;
  mail_Subject : string;
  CC : list string;
  BCC : list string;
  mail_Body : string;
  HTMLBody : string;
  mail_Attachments : list Attached;
}.

Definition new_mail : MailItem := mkMail "" "" [] [] "" "" [].

(** The calls made on the item under composition. *)
Inductive mail_call :=
| Set_To (v : string)
| Set_Subject (v : string)
| Set_CC (v : list string)
| Set_BCC (v : list string)
| Set_HTMLBody (v : string)
| Set_Body (v : string)
| Attachments_Add (path : string)
| SetProperty (path tag value : string)
| Send.

(** What the script built from the mailbox. *)
Record attachment_detail := mkDetail {
  path : string;
  name : string;
  id : string;
}.

Record email_detail := mkEmail {
  e_name : string;
  e_subject : string;
  e_conversation_id : string;
  e_from : string;
  e_sender : string;
  e_body : string;
  e_files : list attachment_detail;
  e_status : string;
}.

(** The environment: what the operating system and the mail client answer.
    It does not change during a run. *)
Record Env := mkEnv {
  (** [os.environ.get('LOCALAPPDATA')] *)
  LOCALAPPDATA : option string;
  (** [shutil.rmtree(path, ignore_errors=True)]: never raises *)
  rmtree : string -> FS -> FS;
  (** [os.makedirs(path, exist_ok=True)] raises this, if anything *)
  makedirs_error : string -> FS -> option exn;
  (** [os.path.abspath] *)
  abspath : string -> string;
  (** the n-th value of [str(uuid.uuid4())] *)
  uuid4 : nat -> string;
  (** [win32.gencache.EnsureDispatch('Outlook.Application')] *)
  EnsureDispatch : res unit;
  (** [win32.Dispatch("WScript.Shell")] *)
  Dispatch_WScript_Shell : res unit;
  (** [shell.SpecialFolders("MyDocuments")] *)
  SpecialFolders_MyDocuments : res string;
  (** [win32.Dispatch('Outlook.Application')] *)
  Dispatch_Outlook : res unit;
  (** [outlook.GetNamespace("MAPI")] *)
  GetNamespace_MAPI : res unit;
  (** [mapi.GetDefaultFolder(6).Folders], listed *)
  Inbox_Folders : res (list Folder);
  (** [outlook.CreateItem(0)] *)
  CreateItem : res unit;
  (** a call on the item under composition raises this, if anything *)
  mail_error : mail_call -> option exn;
}.

Inductive level := INFO | WARNING | ERROR.

(** The calls the properties below speak about, in the order made. *)
Inductive event :=
| makedirs_call (p : string)
| process_email_call (msg : Message)
| SaveAsFile_call (p : string) (before : FS).

(** The state of a run.  [emails] is the list object that [get_emails]
    creates and [process_email] appends to: it is changed in place, so
    what was appended stays when an exception unwinds. *)
Record State := mkState {
  fs : FS;
  log : list (level * string);
  outbox : list MailItem;
  uuids : nat;
  emails : list email_detail;
  trace : list event;
}.

(** Computations: a result or an exception, and the state after. *)
Definition M (A : Type) : Type := State -> res A * State.

Definition ret {A} (a : A) : M A := fun s => (Ok a, s).
Definition raise {A} (e : exn) : M A := fun s => (Raise e, s).
Definition bind {A B} (m : M A) (k : A -> M B) : M B :=
  fun s =>
    match m s with
    | (Ok a, s') => k a s'
    | (Raise e, s') => (Raise e, s')
    end.
(** [try: m except Exception as e: h e] *)
Definition try_except {A} (m : M A) (h : exn -> M A) : M A :=
  fun s =>
    match m s with
    | (Ok a, s') => (Ok a, s')
    | (Raise e, s') => h e s'
    end.
Definition lift {A} (r : res A) : M A := fun s => (r, s).
Definition get : M State := fun s => (Ok s, s).
Definition modify (f : State -> State) : M unit := fun s => (Ok tt, f s).

Declare Scope M_scope.
Delimit Scope M_scope with M.
Notation "'let!' x := m 'in' k" := (bind m (fun x => k))
  (at level 10, x name, m at level 100, k at level 200) : M_scope.
Local Open Scope M_scope.

Definition set_fs (f : FS -> FS) (s : State) : State :=
  mkState (f (fs s)) (log s) (outbox s) (uuids s) (emails s) (trace s).
Definition logging (l : level) (msg : string) : M unit :=
  modify (fun s =>
    mkState (fs s) (log s ++ [(l, msg)]) (outbox s) (uuids s) (emails s)
      (trace s)).
Definition emit (ev : event) : M unit :=
  modify (fun s =>
    mkState (fs s) (log s) (outbox s) (uuids s) (emails s)
      (trace s ++ [ev])).
Definition submit (mail : MailItem) : M unit :=
  modify (fun s =>
    mkState (fs s) (log s) (outbox s ++ [mail]) (uuids s) (emails s)
      (trace s)).
Definition set_emails (l : list email_detail) : M unit :=
  modify (fun s =>
    mkState (fs s) (log s) (outbox s) (uuids s) l (trace s)).

(** [str(uuid.uuid4())] *)
Definition fresh_uuid (env : Env) : M string :=
  fun s =>
    (Ok (uuid4 env (uuids s)),
     mkState (fs s) (log s) (outbox s) (S (uuids s)) (emails s) (trace s)).

(** [os.makedirs(path, exist_ok=True)]: on return the directory is there. *)
Definition makedirs (env : Env) (p : string) : M unit :=
  let! _ := emit (makedirs_call p) in
  let! s := get in
  match makedirs_error env p (fs s) with
  | Some e => raise e
  | None => modify (set_fs (add_dir p))
  end.

(** [attachment.SaveAsFile(path)] *)
Definition SaveAsFile (att : Attachment) (p : string) : M unit :=
  let! s := get in
  let! _ := emit (SaveAsFile_call p (fs s)) in
  match SaveAsFile_error att p with
  | Some e => raise e
  | None => modify (set_fs (write_file p (att_content att)))
  end.

End World.

(** ** The script *)

Module main.
Import Py World.
Local Open Scope M_scope.

(** [create_folder(output_dir)]: the path, with a closing separator, that
    [output_dir] names from the user's documents folder. *)
Definition create_folder (env : Env) (output_dir : string) : M string :=
  let! _ := lift (Dispatch_WScript_Shell env) in
  let! documentPath := lift (SpecialFolders_MyDocuments env) in
  let folderPath := ntpath.join documentPath [output_dir] in
  ret (ntpath.join folderPath [""]).

(** [is_valid_email(email)]: ['@' in parseaddr(email)[1]] *)
Definition is_valid_email (email : string) : bool :=
  char_in "@" (snd (email_utils.parseaddr email)).

(** [is_outlook_installed()].  Dropping the cached [win32com.gen_py]
    modules from [sys.modules] touches the interpreter only; the directory
    of the cache is removed from the file system. *)
Definition is_outlook_installed (env : Env) : M bool :=
  let! _ :=
    match LOCALAPPDATA env with
    | None =>
        (* os.path.join(None, 'Temp', 'gen_py') *)
        raise (mkExn TypeError
          "expected str, bytes or os.PathLike object, not NoneType")
    | Some d =>
        modify (set_fs (rmtree env (ntpath.join d ["Temp"; "gen_py"])))
    end in
  try_except
    (let! _ := lift (EnsureDispatch env) in ret true)
    (fun e =>
       let! _ :=
         logging ERROR
           ((match exn_cls e with
             | com_error => "COM error when accessing Outlook: "
             | _ => "Unexpected error: "
             end) +:+ exn_text e) in
       ret false).

(** A call on the item under composition. *)
Definition perform (env : Env) (c : mail_call) : M unit :=
  match mail_error env c with
  | Some e => raise e
  | None => ret tt
  end.

Definition attach (mail : MailItem) (a : Attached) : MailItem :=
  mkMail (To mail) (mail_Subject mail) (CC mail) (BCC mail) (mail_Body mail)
    (HTMLBody mail) (mail_Attachments mail ++ [a]).

Definition PR_ATTACH_CONTENT_ID : string :=
  "http://schemas.microsoft.com/mapi/proptag/0x3712001E".

(** [for image_path in embedded_images: ...] *)
Fixpoint embed_images (env : Env) (images : list string) (mail : MailItem)
  : M MailItem :=
  match images with
  | [] => ret mail
  | image_path :: images' =>
      let! _ := perform env (Attachments_Add image_path) in
      let cid := ntpath.basename image_path in
      let! _ :=
        perform env (SetProperty image_path PR_ATTACH_CONTENT_ID cid) in
      embed_images env images' (attach mail (mkAttached image_path (Some cid)))
  end.

(** [for attachment in attachments: ...]; an attachment is a dictionary
    read at the key ["path"]. *)
Fixpoint attach_files (env : Env) (attachments : list (gmap string string))
  (mail : MailItem) : M MailItem :=
  match attachments with
  | [] => ret mail
  | attachment :: attachments' =>
      let! p :=
        match attachment !! "path" with
        | Some p => ret p
        | None => raise (mkExn KeyError "'path'")
        end in
      let attch_path := abspath env p in
      let! s := get in
      if exists_ (fs s) attch_path then
        let! _ := perform env (Attachments_Add attch_path) in
        attach_files env attachments'
          (attach mail (mkAttached attch_path None))
      else
        let! _ :=
          logging WARNING ("Attachment not found: " +:+ attch_path) in
        attach_files env attachments' mail
  end.

Definition if_list {A} (l : option (list A)) (f : list A -> M unit)
  : M unit :=
  match l with
  | Some (x :: l') => f (x :: l')
  | _ => ret tt
  end.

(** [send_email_via_outlook(to, subject, body, attachments, html_body, cc,
    bcc, embedded_images)] *)
Definition send_email_via_outlook (env : Env) (to subject body : string)
  (attachments : option (list (gmap string string))) (html_body : bool)
  (cc bcc : option (list string)) (embedded_images : option (list string))
  : M string :=
  let! installed := is_outlook_installed env in
  if negb installed then ret "Outlook is not installed or accessible."
  else if negb (is_valid_email to) then
    ret ("Invalid email addresses provided: " +:+ to)
  else
    try_except
      (let! _ := lift (Dispatch_Outlook env) in
       let! _ := lift (CreateItem env) in
       let! _ := perform env (Set_To to) in
       let! _ := perform env (Set_Subject subject) in
       let! _ := if_list cc (fun l => perform env (Set_CC l)) in
       let! _ := if_list bcc (fun l => perform env (Set_BCC l)) in
       let! _ :=
         if html_body then perform env (Set_HTMLBody body)
         else perform env (Set_Body body) in
       let mail :=
         mkMail to subject
           (match cc with Some l => l | None => [] end)
           (match bcc with Some l => l | None => [] end)
           (if html_body then "" else body)
           (if html_body then body else "") [] in
       let! mail :=
         match embedded_images with
         | Some (x :: l) => embed_images env (x :: l) mail
         | _ => ret mail
         end in
       let! mail :=
         match attachments with
         | Some (x :: l) => attach_files env (x :: l) mail
         | _ => ret mail
         end in
       let! _ := perform env Send in
       let! _ := submit mail in
       let! _ := logging INFO "Email sent successfully." in
       ret "Email sent successfully.")
      (fun e =>
         let! _ := logging ERROR ("Error sending email: " +:+ exn_text e) in
         ret ("Error sending email: " +:+ exn_text e)).

(** [download_attachment(attachment, output_dir, allowed_file_types)].
    [attachment.FileName] is read several times; the reads agree. *)
Definition download_attachment (env : Env) (attachment : Attachment)
  (output_dir : string) (allowed_file_types : list string)
  : M (option attachment_detail) :=
  let! FileName := lift (FileName attachment) in
  let file_extension := snd (ntpath.splitext FileName) in
  if negb (nonempty allowed_file_types)
     || existsb (String.eqb file_extension) allowed_file_types
  then
    try_except
      (let attachment_path := ntpath.join output_dir [FileName] in
       let! _ := SaveAsFile attachment attachment_path in
       let! _ := logging INFO ("Attachment " +:+ FileName +:+ " saved") in
       let! u := fresh_uuid env in
       ret (Some (mkDetail attachment_path FileName u)))
      (fun e =>
         let! _ :=
           logging ERROR
             ("Error saving attachment " +:+ FileName +:+ ": "
                +:+ exn_text e) in
         ret None)
  else ret None.

(** [executor.submit(download_attachment, att, ...)] for each attachment.
    The pool runs the calls side by side; here they run one after the
    other, in the order submitted.  A future holds what its call returned
    or raised. *)
Fixpoint submit_all (env : Env) (atts : list Attachment) (output_dir : string)
  (allowed_file_types : list string)
  : M (list (res (option attachment_detail))) :=
  match atts with
  | [] => ret []
  | att :: atts' =>
      let! future :=
        (fun s =>
           let '(r, s') :=
             download_attachment env att output_dir allowed_file_types s in
           (Ok r, s')) in
      let! futures := submit_all env atts' output_dir allowed_file_types in
      ret (future :: futures)
  end.

(** [for future in futures: ...]: the results, in the order submitted. *)
Fixpoint collect (futures : list (res (option attachment_detail)))
  (attachment_details : list attachment_detail)
  : M (list attachment_detail) :=
  match futures with
  | [] => ret attachment_details
  | future :: futures' =>
      let! attachment_details :=
        try_except
          (let! attachment_detail := lift future in
           match attachment_detail with
           | Some d => ret (attachment_details ++ [d])
           | None => ret attachment_details
           end)
          (fun e =>
             let! _ :=
               logging ERROR ("Error saving attachment: " +:+ exn_text e) in
             ret attachment_details) in
      collect futures' attachment_details
  end.

(** [process_email(msg, emails_list, output_dir, allowed_file_types)];
    [emails_list] is the list of the state. *)
Definition process_email (env : Env) (msg : Message) (output_dir : string)
  (allowed_file_types : option (list string)) : M unit :=
  let! _ := emit (process_email_call msg) in
  try_except
    (let allowed_file_types :=
       match allowed_file_types with Some l => l | None => [] end in
     let! atts := lift (Attachments msg) in
     let! futures := submit_all env atts output_dir allowed_file_types in
     let! attachment_details := collect futures [] in
     let! name := lift (Subject msg) in
     let! subject := lift (Subject msg) in
     let! conversation_id := lift (ConversationID msg) in
     let! from := lift (Sender_PrimarySmtpAddress msg) in
     let! sender := lift (Sender_Name msg) in
     let! body := lift (Body msg) in
     let email_detail :=
       mkEmail name subject conversation_id from sender body
         attachment_details "pending" in
     let! s := get in
     set_emails (emails s ++ [email_detail]))
    (fun e => logging ERROR ("Error processing email: " +:+ exn_text e)).

(** [next((folder for folder in ... if folder.Name == folder_name), None)] *)
Fixpoint find_folder (folders : list Folder) (folder_name : string)
  : M (option Folder) :=
  match folders with
  | [] => ret None
  | folder :: folders' =>
      let! n := lift (Name folder) in
      if String.eqb n folder_name then ret (Some folder)
      else find_folder folders' folder_name
  end.

(** [not include_read and msg.UnRead or include_read] *)
Definition wanted (include_read : bool) (msg : Message) : M bool :=
  if negb include_read then
    let! unread := lift (UnRead msg) in
    ret (unread || include_read)
  else ret include_read.

(** [for msg in messages: ...] *)
Fixpoint for_messages (env : Env) (include_read : bool) (folderPath : string)
  (allowed_file_types : option (list string)) (messages : list Message)
  : M unit :=
  match messages with
  | [] => ret tt
  | msg :: messages' =>
      let! w := wanted include_read msg in
      let! _ :=
        if w then
          try_except
            (process_email env msg folderPath allowed_file_types)
            (fun e =>
               logging ERROR
                 ("Error processing individual email: " +:+ exn_text e))
        else ret tt in
      for_messages env include_read folderPath allowed_file_types messages'
  end.

(** A [datetime], by its rendering under ['%Y-%m-%d %H:%M:%S']. *)
Record datetime := mkDatetime { strftime : string }.

Definition return_emails : M (list email_detail) :=
  let! s := get in ret (emails s).

(** [get_emails(email, subject, folder_name, output_dir,
    allowed_file_types, include_read, since)] *)
Definition get_emails (env : Env) (email subject folder_name : string)
  (output_dir : string) (allowed_file_types : option (list string))
  (include_read : bool) (since : option datetime)
  : M (list email_detail) :=
  let! _ := set_emails [] in
  let! folderPath := create_folder env output_dir in
  let! s := get in
  let! _ :=
    if negb (isdir (fs s) folderPath) then
      let! _ := makedirs env folderPath in
      logging INFO ("Created directory: " +:+ folderPath)
    else ret tt in
  if negb (is_valid_email email) then
    let! _ :=
      logging ERROR ("Invalid email addresses provided: " +:+ email) in
    return_emails
  else
    let! returned :=
      try_except
        (let! _ := lift (Dispatch_Outlook env) in
         let! _ := lift (GetNamespace_MAPI env) in
         let! folders := lift (Inbox_Folders env) in
         let! found_folder := find_folder folders folder_name in
         match found_folder with
         | None =>
             let! _ :=
               logging ERROR ("Folder '" +:+ folder_name +:+ "' not found.") in
             ret true
         | Some found_folder =>
             let! items := lift (Folder_Items found_folder) in
             let! messages :=
               lift (Restrict items
                 ("@SQL=(urn:schemas:httpmail:subject LIKE '%" +:+ subject
                    +:+ "%')")) in
             let! messages :=
               match since with
               | Some since =>
                   let date_filter := strftime since in
                   lift (Restrict messages
                     ("[ReceivedTime] >= '" +:+ date_filter +:+ "'"))
               | None => ret messages
               end in
             let! messages := lift (Sort messages "[ReceivedTime]" true) in
             let! msgs := lift (elements messages) in
             let! _ :=
               for_messages env include_read folderPath allowed_file_types
                 msgs in
             ret false
         end)
        (fun e =>
           let! _ :=
             logging ERROR
               ("Error when processing email messages: " +:+ exn_text e) in
           ret false) in
    if returned : bool then return_emails
    else
      let! s := get in
      let! _ :=
        logging INFO
          ("Processed " +:+ pretty (length (emails s)) +:+ " emails.") in
      return_emails.

End main.

(** * Properties of the script *)

(** ** Notions used to state the properties of the address parser *)

Module parser_inv.
Import Py email_utils.

(** [r'] is what is left of [r] after the cursor moved on. *)
Definition Suffix (r' r : string) : Prop := exists p, r = p +:+ r'.

(** The string holds no [@]. *)
Definition NoAt (s : string) : Prop := char_in "@" s = false.

(** The characters that [gotonext] skips. *)
Definition is_ws (c : ascii) : bool := char_in c (LWS +:+ LFCR).

(** The characters at which [getphraselist] and [getdomain] stop, beside
    blanks, quotes and comments. *)
Definition stop9 : string := ")<>@,:;[]".

Definition stop8 : string := ")<>,:;[]".

(** Facts about the character classes, checked on every character. *)
Definition class_facts (c : ascii) : bool :=
  Bool.eqb (char_in c FWS) (is_ws c)
  && Bool.eqb (char_in c stop9)
       (negb (is_ws c) && negb (eqc c "(") && negb (eqc c dquote)
        && char_in c phraseends)
  && Bool.eqb (char_in c atomends) (char_in c phraseends || eqc c ".")
  && Bool.eqb (char_in c stop8) (char_in c stop9 && negb (eqc c "@"))
  && implb (char_in c stop9) (char_in c specials)
  && Bool.eqb (char_in c ".@") (eqc c "." || eqc c "@")
  && implb (eqc c ".") (negb (char_in c phraseends))
  && implb (char_in c LWS) (is_ws c)
  && implb (eqc c "[") (char_in c stop9)
  && implb (eqc c "@") (char_in c stop9)
  && implb (eqc c ":") (char_in c stop9)
  && implb (eqc c "<") (char_in c stop9)
  && implb (eqc c ">") (char_in c stop9)
  && implb (eqc c ",") (char_in c stop9)
  && implb (eqc c ";") (char_in c stop9).

(** A parsed pair whose address holds no [@]. *)
Definition NoAtAddr (a : string * string) : Prop := NoAt (snd a).

(** The end of [getaddress]: blanks are skipped, then one comma. *)
Definition finish (fuel : nat) (returnlist : list (string * string))
  (self : AddrlistClass) : outcome (list (string * string)) :=
  email_utils.bind (gotonext fuel self) (fun _ self =>
  match rest self with
  | String c r =>
      if eqc c "," then Done returnlist (set_rest self r)
      else Done returnlist self
  | EmptyString => Done returnlist self
  end).

(** The branches of [getaddress] after the leading phrase was read from
    [oldpos]. *)
Definition shape (fuel : nat) (oldpos : string) (plist : list string)
  (self : AddrlistClass) : outcome (list (string * string)) :=
  match rest self with
  | EmptyString =>
      Done (match plist with
            | p :: _ => [(join_with SPACE (commentlist self), p)]
            | [] => []
            end) self
  | String c r =>
      if char_in c ".@" then
        email_utils.bind (getaddrspec fuel (set_rest self oldpos))
          (fun addrspec self =>
             Done [(join_with SPACE (commentlist self), addrspec)] self)
      else if eqc c ":" then getaddress_group fuel [] (set_rest self r)
      else if eqc c "<" then
        email_utils.bind (getrouteaddr fuel self) (fun routeaddr self =>
          if nonempty (commentlist self) then
            Done [(join_with SPACE plist +:+ " ("
                     +:+ join_with " " (commentlist self) +:+ ")",
                   routeaddr)] self
          else Done [(join_with SPACE plist, routeaddr)] self)
      else
        match plist with
        | p :: _ => Done [(join_with SPACE (commentlist self), p)] self
        | [] =>
            if char_in c specials then Done [] (set_rest self r)
            else Done [] self
        end
  end.

End parser_inv.

(** ** Notions used to state the properties of the scanner and the sender *)

Module scan_inv.
Import Py World main.

(** The extension of a declared file name passes the allow-list. *)
Definition allowed (allowed_file_types : list string) (FileName : string)
  : bool :=
  negb (nonempty allowed_file_types)
  || existsb (String.eqb (snd (ntpath.splitext FileName))) allowed_file_types.

Definition state_after_save_call (att : Attachment) (p : string) (s : State)
  : State :=
  mkState (fs s) (log s) (outbox s) (uuids s) (emails s)
    (trace s ++ [SaveAsFile_call p (fs s)]).

(** *** What a run may do to the state *)
Definition is_save (ev : event) : bool :=
  match ev with SaveAsFile_call _ _ => true | _ => false end.

(** A save into [folderPath], met with [folderPath] in place. *)
Definition good_event (folderPath : string) (ev : event) : Prop :=
  match ev with
  | SaveAsFile_call p before =>
      isdir before folderPath = true
      /\ exists n, p = ntpath.join folderPath [n]
  | process_email_call _ => True
  | makedirs_call _ => False
  end.

Definition grows (f f' : FS) : Prop :=
  dirs f' = dirs f
  /\ forall p, is_Some (files f !! p) -> is_Some (files f' !! p).

(** [s'] comes from [s] by saves into [folderPath], log lines and
    identifiers drawn. *)
Definition inner (folderPath : string) (s s' : State) : Prop :=
  grows (fs s) (fs s')
  /\ outbox s' = outbox s /\ emails s' = emails s
  /\ exists evs, trace s' = trace s ++ evs
       /\ forallb is_save evs = true
       /\ (isdir (fs s) folderPath = true ->
           Forall (good_event folderPath) evs).

(** The results that came back with a record. *)
Definition successes (futures : list (res (option attachment_detail)))
  : list attachment_detail :=
  omap (fun r => match r with Ok (Some d) => Some d | _ => None end) futures.

(** A record of a file that is there, under its name in [folderPath]. *)
Definition detail_ok (folderPath : string) (f : FS) (d : attachment_detail)
  : Prop :=
  path d = ntpath.join folderPath [name d] /\ is_Some (files f !! path d).

(** *** The attachments of one message *)
Definition declared_name (att : Attachment) : string :=
  match FileName att with Ok n => n | Raise _ => "" end.

(** The attachment passes the allow-list and its save raises nothing. *)
Definition fetch_ok (output_dir : string) (allowed_file_types : list string)
  (att : Attachment) : bool :=
  match FileName att with
  | Ok n =>
      allowed allowed_file_types n
      && match SaveAsFile_error att (ntpath.join output_dir [n]) with
         | None => true
         | Some _ => false
         end
  | Raise _ => false
  end.

Definition fetched (output_dir : string) (allowed_file_types : list string)
  (atts : list Attachment) : list Attachment :=
  filter (fun a => fetch_ok output_dir allowed_file_types a = true) atts.

(** *** One message *)
Definition or_empty (allowed_file_types : option (list string))
  : list string :=
  match allowed_file_types with Some l => l | None => [] end.

(** The fields of the record, when each can be read. *)
Definition read_headers (msg : Message) (files : list attachment_detail)
  : res email_detail :=
  match Subject msg, ConversationID msg, Sender_PrimarySmtpAddress msg,
        Sender_Name msg, Body msg with
  | Ok subject, Ok conversation_id, Ok from, Ok sender, Ok body =>
      Ok (mkEmail subject subject conversation_id from sender body files
            "pending")
  | Raise e, _, _, _, _ => Raise e
  | _, Raise e, _, _, _ => Raise e
  | _, _, Raise e, _, _ => Raise e
  | _, _, _, Raise e, _ => Raise e
  | _, _, _, _, Raise e => Raise e
  end.

Definition append_email (rec : email_detail) (s : State) : State :=
  mkState (fs s) (log s) (outbox s) (uuids s) (emails s ++ [rec]) (trace s).

Definition handled (e : exn) (s : State) : res unit * State :=
  logging ERROR ("Error processing email: " +:+ exn_text e) s.

(** *** The scan *)
Definition is_unread (msg : Message) : bool :=
  match UnRead msg with Ok b => b | Raise _ => false end.

(** "includeRead is true, or the message is unread" *)
Definition passes (include_read : bool) (msg : Message) : bool :=
  include_read || is_unread msg.

(** The messages the loop gets to: all of them, unless a read flag cannot
    be read, which ends the loop there. *)
Fixpoint reached (include_read : bool) (messages : list Message)
  : list Message :=
  match messages with
  | [] => []
  | msg :: messages' =>
      msg :: (if include_read then reached include_read messages'
              else match UnRead msg with
                   | Ok _ => reached include_read messages'
                   | Raise _ => []
                   end)
  end.

(** The messages handed to [process_email], in order. *)
Definition handed_on (evs : list event) : list Message :=
  omap (fun ev =>
          match ev with process_email_call m => Some m | _ => None end) evs.

Definition records_ok (folderPath : string) (s : State) : Prop :=
  Forall (fun rec => Forall (detail_ok folderPath (fs s)) (e_files rec))
    (emails s).

(** What a scan may do to the state. *)
Definition outer (folderPath : string) (s s' : State) (evs : list event)
  : Prop :=
  grows (fs s) (fs s')
  /\ outbox s' = outbox s
  /\ trace s' = trace s ++ evs
  /\ (isdir (fs s) folderPath = true -> Forall (good_event folderPath) evs)
  /\ (records_ok folderPath s -> records_ok folderPath s').

(** *** [get_emails], step by step *)

(** The destination that [create_folder] resolves. *)
Definition resolve (env : Env) (output_dir : string) : res string :=
  match Dispatch_WScript_Shell env with
  | Raise e => Raise e
  | Ok _ =>
      match SpecialFolders_MyDocuments env with
      | Raise e => Raise e
      | Ok documentPath =>
          Ok (ntpath.join (ntpath.join documentPath [output_dir]) [""])
      end
  end.

Definition clear_emails (s : State) : State :=
  mkState (fs s) (log s) (outbox s) (uuids s) [] (trace s).

(** [if not os.path.isdir(folderPath): os.makedirs(...); logging.info(...)] *)
Definition ensure (env : Env) (folderPath : string) : M unit :=
  fun s =>
    World.bind get (fun s =>
      if negb (isdir (fs s) folderPath) then
        World.bind (makedirs env folderPath) (fun _ =>
          logging INFO ("Created directory: " +:+ folderPath))
      else ret tt) s.

(** The body of the [try] of [get_emails]; [true] stands for the
    [return emails] of the folder that is not found. *)
Definition scan_body (env : Env) (subject folder_name folderPath : string)
  (allowed_file_types : option (list string)) (include_read : bool)
  (since : option datetime) : M bool :=
  World.bind (lift (Dispatch_Outlook env)) (fun _ =>
  World.bind (lift (GetNamespace_MAPI env)) (fun _ =>
  World.bind (lift (Inbox_Folders env)) (fun folders =>
  World.bind (find_folder folders folder_name) (fun found_folder =>
  match found_folder with
  | None =>
      World.bind
        (logging ERROR ("Folder '" +:+ folder_name +:+ "' not found."))
        (fun _ => ret true)
  | Some found_folder =>
      World.bind (lift (Folder_Items found_folder)) (fun items =>
      World.bind
        (lift (Restrict items
           ("@SQL=(urn:schemas:httpmail:subject LIKE '%" +:+ subject
              +:+ "%')"))) (fun messages =>
      World.bind
        (match since with
         | Some since =>
             lift (Restrict messages
               ("[ReceivedTime] >= '" +:+ strftime since +:+ "'"))
         | None => ret messages
         end) (fun messages =>
      World.bind (lift (Sort messages "[ReceivedTime]" true)) (fun messages =>
      World.bind (lift (elements messages)) (fun msgs =>
      World.bind
        (for_messages env include_read folderPath allowed_file_types msgs)
        (fun _ => ret false))))))
  end)))).

Definition scan (env : Env) (subject folder_name folderPath : string)
  (allowed_file_types : option (list string)) (include_read : bool)
  (since : option datetime) : M (list email_detail) :=
  World.bind
    (try_except
       (scan_body env subject folder_name folderPath allowed_file_types
          include_read since)
       (fun e =>
          World.bind
            (logging ERROR
               ("Error when processing email messages: " +:+ exn_text e))
            (fun _ => ret false)))
    (fun returned : bool =>
       if returned then return_emails
       else
         World.bind get (fun s =>
         World.bind
           (logging INFO
              ("Processed " +:+ pretty (length (emails s)) +:+ " emails."))
           (fun _ => return_emails))).

(** [folder_name] names a folder right under the inbox. *)
Definition names_child (env : Env) (folder_name : string) : Prop :=
  exists folders f,
    Inbox_Folders env = Ok folders /\ In f folders
    /\ Name f = Ok folder_name.

(** *** Sample worlds *)

(** A machine where every external call answers. *)
Definition env0 : Env := {|
  LOCALAPPDATA := Some "C:\Users\u\AppData\Local";
  rmtree := fun _ f => f;
  makedirs_error := fun _ _ => None;
  abspath := fun p => p;
  uuid4 := fun n => "uuid-" +:+ pretty n;
  EnsureDispatch := Ok tt;
  Dispatch_WScript_Shell := Ok tt;
  SpecialFolders_MyDocuments := Ok "C:\Users\u\Documents";
  Dispatch_Outlook := Ok tt;
  GetNamespace_MAPI := Ok tt;
  Inbox_Folders := Ok [];
  CreateItem := Ok tt;
  mail_error := fun _ => None;
|}.

(** Nothing on the disk, nothing logged, nothing sent. *)
Definition s0 : State := mkState (mkFS ∅ ∅) [] [] 0 [] [].

Definition att_pdf : Attachment :=
  mkAttachment (Ok "x.pdf") "%PDF" (fun _ => None).

Definition att_docx : Attachment :=
  mkAttachment (Ok "x.docx") "PK" (fun _ => None).

Definition att_pdf_unsavable : Attachment :=
  mkAttachment (Ok "x.pdf") "%PDF"
    (fun _ => Some (mkExn com_error "Cannot save the attachment.")).

(** *** Sending *)

(** The body of the [try] of [send_email_via_outlook]. *)
Definition compose (env : Env) (to subject body : string)
  (attachments : option (list (gmap string string))) (html_body : bool)
  (cc bcc : option (list string)) (embedded_images : option (list string))
  : M string :=
  World.bind (lift (Dispatch_Outlook env)) (fun _ =>
  World.bind (lift (CreateItem env)) (fun _ =>
  World.bind (perform env (Set_To to)) (fun _ =>
  World.bind (perform env (Set_Subject subject)) (fun _ =>
  World.bind (if_list cc (fun l => perform env (Set_CC l))) (fun _ =>
  World.bind (if_list bcc (fun l => perform env (Set_BCC l))) (fun _ =>
  World.bind
    (if html_body then perform env (Set_HTMLBody body)
     else perform env (Set_Body body)) (fun _ =>
  let mail :=
    mkMail to subject
      (match cc with Some l => l | None => [] end)
      (match bcc with Some l => l | None => [] end)
      (if html_body then "" else body)
      (if html_body then body else "") [] in
  World.bind
    (match embedded_images with
     | Some (x :: l) => embed_images env (x :: l) mail
     | _ => ret mail
     end) (fun mail =>
  World.bind
    (match attachments with
     | Some (x :: l) => attach_files env (x :: l) mail
     | _ => ret mail
     end) (fun mail =>
  World.bind (perform env Send) (fun _ =>
  World.bind (submit mail) (fun _ =>
  World.bind (logging INFO "Email sent successfully.") (fun _ =>
  ret "Email sent successfully.")))))))))))).

Definition cache_cleared (env : Env) (d : string) (s : State) : State :=
  set_fs (rmtree env (ntpath.join d ["Temp"; "gen_py"])) s.

(** The status strings. *)
Definition not_installed : string := "Outlook is not installed or accessible.".

Definition invalid_address (to : string) : string :=
  "Invalid email addresses provided: " +:+ to.

Definition sending_failed (e : exn) : string :=
  "Error sending email: " +:+ exn_text e.

Definition sent : string := "Email sent successfully.".

(** What [attach_files] does with one entry, on the file system [f]. *)
Definition attached_of (env : Env) (f : FS) (a : gmap string string)
  : option Attached :=
  match a !! "path" with
  | Some p =>
      if exists_ f (abspath env p) then Some (mkAttached (abspath env p) None)
      else None
  | None => None
  end.

Definition warning_of (env : Env) (f : FS) (a : gmap string string)
  : option (level * string) :=
  match a !! "path" with
  | Some p =>
      if exists_ f (abspath env p) then None
      else Some (WARNING, "Attachment not found: " +:+ abspath env p)
  | None => None
  end.

Definition add_attachments (mail : MailItem) (l : list Attached) : MailItem :=
  mkMail (To mail) (mail_Subject mail) (CC mail) (BCC mail) (mail_Body mail)
    (HTMLBody mail) (mail_Attachments mail ++ l).

Definition add_log (l : list (level * string)) (s : State) : State :=
  mkState (fs s) (log s ++ l) (outbox s) (uuids s) (emails s) (trace s).

Definition inline_image (image_path : string) : Attached :=
  mkAttached image_path (Some (ntpath.basename image_path)).

Definition or_nil {A} (l : option (list A)) : list A :=
  match l with Some l => l | None => [] end.

(** The message that [send_email_via_outlook] submits. *)
Definition composed (env : Env) (f : FS) (to subject body : string)
  (attachments : option (list (gmap string string))) (html_body : bool)
  (cc bcc : option (list string)) (embedded_images : option (list string))
  : MailItem :=
  mkMail to subject (or_nil cc) (or_nil bcc)
    (if html_body then "" else body) (if html_body then body else "")
    (map inline_image (or_nil embedded_images)
     ++ omap (attached_of env f) (or_nil attachments)).

(** *** Sample messages and environments *)

(** A message from a sender outside the directory: [GetExchangeUser()]
    answers [None]. *)
Definition msg_no_exchange_user : Message := {|
  Subject := Ok "Report A";
  ConversationID := Ok "0001";
  Sender_PrimarySmtpAddress :=
    Raise (mkExn AttributeError
             "'NoneType' object has no attribute 'PrimarySmtpAddress'");
  Sender_Name := Ok "Ann";
  Body := Ok "See attached.";
  UnRead := Ok true;
  Attachments := Ok [att_pdf];
|}.

(** A message with three attachments: one whose save fails, one outside
    the allow-list [.pdf], one that is saved. *)
Definition msg_three : Message := {|
  Subject := Ok "Report B";
  ConversationID := Ok "0002";
  Sender_PrimarySmtpAddress := Ok "bob@example.com";
  Sender_Name := Ok "Bob";
  Body := Ok "Three files.";
  UnRead := Ok true;
  Attachments := Ok [att_pdf_unsavable; att_docx; att_pdf];
|}.

(** The destination cannot be created. *)
Definition env_no_makedirs : Env := {|
  LOCALAPPDATA := LOCALAPPDATA env0;
  rmtree := rmtree env0;
  makedirs_error := fun _ _ =>
    Some (mkExn OSError "[WinError 5] Access is denied");
  abspath := abspath env0;
  uuid4 := uuid4 env0;
  EnsureDispatch := EnsureDispatch env0;
  Dispatch_WScript_Shell := Dispatch_WScript_Shell env0;
  SpecialFolders_MyDocuments := SpecialFolders_MyDocuments env0;
  Dispatch_Outlook := Dispatch_Outlook env0;
  GetNamespace_MAPI := GetNamespace_MAPI env0;
  Inbox_Folders := Inbox_Folders env0;
  CreateItem := CreateItem env0;
  mail_error := mail_error env0;
|}.

(** The mail client refuses [Send]. *)
Definition env_send_fails : Env := {|
  LOCALAPPDATA := LOCALAPPDATA env0;
  rmtree := rmtree env0;
  makedirs_error := makedirs_error env0;
  abspath := abspath env0;
  uuid4 := uuid4 env0;
  EnsureDispatch := EnsureDispatch env0;
  Dispatch_WScript_Shell := Dispatch_WScript_Shell env0;
  SpecialFolders_MyDocuments := SpecialFolders_MyDocuments env0;
  Dispatch_Outlook := Dispatch_Outlook env0;
  GetNamespace_MAPI := GetNamespace_MAPI env0;
  Inbox_Folders := Inbox_Folders env0;
  CreateItem := CreateItem env0;
  mail_error := fun c =>
    match c with
    | Send => Some (mkExn com_error "The operation failed.")
    | _ => None
    end;
|}.

(** An entry of [attachments] whose path is not on the disk of [s0]. *)
Definition missing_attachment : gmap string string :=
  {["path" := "C:\missing.txt"]}.

(** A process environment without [LOCALAPPDATA]. *)
Definition env_no_LOCALAPPDATA : Env := {|
  LOCALAPPDATA := None;
  rmtree := rmtree env0;
  makedirs_error := makedirs_error env0;
  abspath := abspath env0;
  uuid4 := uuid4 env0;
  EnsureDispatch := EnsureDispatch env0;
  Dispatch_WScript_Shell := Dispatch_WScript_Shell env0;
  SpecialFolders_MyDocuments := SpecialFolders_MyDocuments env0;
  Dispatch_Outlook := Dispatch_Outlook env0;
  GetNamespace_MAPI := GetNamespace_MAPI env0;
  Inbox_Folders := Inbox_Folders env0;
  CreateItem := CreateItem env0;
  mail_error := mail_error env0;
|}.

(** *** The address check, in the words of the specification *)

(** The domain of [local-part@domain]: what follows the last [@]. *)
Definition domain_of (address : string) : option string :=
  match rfind "@" address with
  | Some i => Some (drop (S i) address)
  | None => None
  end.

(** A domain is there and is not empty. *)
Definition has_domain (address : string) : bool :=
  match domain_of address with
  | Some domain => truthy domain
  | None => false
  end.

(** The string is parsed as a mail address, and a non-empty domain is
    present in the address found. *)
Definition spec_isValid (address : string) : bool :=
  has_domain (snd (email_utils.parseaddr address)).

(** The three characters ["@"]: an [@] between double quotes. *)
Definition quoted_at : string := String dquote (String "@" (String dquote "")).

End scan_inv.

(** ** Notions used to state further properties of the address parser *)

Module plain_inv.
Import Py email_utils parser_inv.

(** A character of a word: none of the characters that end an atom, and
    no white space of any kind. *)
Definition word_char (c : ascii) : bool :=
  negb (char_in c atomends) && negb (isspace c).

(** A character of a plain local part or domain: a word character or a
    dot. *)
Definition addr_char (c : ascii) : bool := eqc c "." || word_char c.

Fixpoint all_of (P : ascii -> bool) (s : string) : bool :=
  match s with
  | EmptyString => true
  | String c s' => P c && all_of P s'
  end.

(** A plain local part or domain. *)
Definition plain (s : string) : Prop := all_of addr_char s = true.

(** The word at the head of a string, and what follows it. *)
Fixpoint split_word (s : string) : string * string :=
  match s with
  | EmptyString => ("", "")
  | String c s' =>
      if word_char c then
        let '(w, r) := split_word s' in (String c w, r)
      else ("", s)
  end.

(** What may follow an address: nothing, a comma, a semicolon or a closing
    angle bracket. *)
Definition closed (t : string) : Prop :=
  match t with
  | EmptyString => True
  | String c _ => char_in c ",;>" = true
  end.

(** Nothing to skip for [gotonext]. *)
Definition settled (t : string) : Prop :=
  match t with
  | EmptyString => True
  | String c _ => is_ws c = false /\ eqc c "(" = false
  end.

(** The list of the parts read so far does not end with a blank part. *)
Definition firm (aslist : list string) : Prop := pop_blank aslist = aslist.

(** Blanks only. *)
Definition blanks (sp : string) : Prop :=
  all_of (fun c => eqc c " ") sp = true.

(** The comma, if any, after the address. *)
Definition past_comma (t : string) : string :=
  match t with
  | String c r => if eqc c "," then r else t
  | EmptyString => t
  end.

(** *** The strict wrapper lets plain strings through *)

(** No double quote and no parenthesis. *)
Definition unquoted (s : string) : Prop :=
  char_in dquote s = false /\ char_in "(" s = false /\ char_in ")" s = false.

(** *** An address with a display name *)

(** The words of a display name, each followed by a blank. *)
Fixpoint spaced (names : list string) : string :=
  match names with
  | [] => ""
  | w :: names' => w +:+ String " " (spaced names')
  end.

(** Plain words, none of them empty. *)
Definition words (names : list string) : Prop :=
  Forall (fun w => plain w /\ truthy w = true) names.

End plain_inv.

(** ** Notions used to state further properties of the scanner and the
    sender *)

Module more_inv.
Import Py World main scan_inv.

(** The part of the state that composing a message leaves alone. *)
Definition same_but_log_outbox (s s' : State) : Prop :=
  fs s' = fs s /\ uuids s' = uuids s /\ emails s' = emails s
  /\ trace s' = trace s.

(** The recipient, the subject and the bodies of a message. *)
Definition same_head (m m' : MailItem) : Prop :=
  To m' = To m /\ mail_Subject m' = mail_Subject m /\ CC m' = CC m
  /\ BCC m' = BCC m /\ mail_Body m' = mail_Body m /\ HTMLBody m' = HTMLBody m.

(** *** The scanner *)

(** [next((folder for folder in ... if folder.Name == folder_name), None)],
    as a value. *)
Fixpoint first_named (folders : list Folder) (folder_name : string)
  : res (option Folder) :=
  match folders with
  | [] => Ok None
  | folder :: folders' =>
      match Name folder with
      | Raise e => Raise e
      | Ok n =>
          if String.eqb n folder_name then Ok (Some folder)
          else first_named folders' folder_name
      end
  end.

(** What the mail client lists for [get_emails]: the messages of the folder,
    restricted by subject and date and sorted; [None] when no folder has the
    name. *)
Definition listing (env : Env) (subject folder_name : string)
  (since : option datetime) : res (option (list Message)) :=
  match Dispatch_Outlook env with Raise e => Raise e | Ok _ =>
  match GetNamespace_MAPI env with Raise e => Raise e | Ok _ =>
  match Inbox_Folders env with Raise e => Raise e | Ok folders =>
  match first_named folders folder_name with
  | Raise e => Raise e
  | Ok None => Ok None
  | Ok (Some found_folder) =>
      match Folder_Items found_folder with Raise e => Raise e | Ok items =>
      match Restrict items
              ("@SQL=(urn:schemas:httpmail:subject LIKE '%" +:+ subject
                 +:+ "%')") with
      | Raise e => Raise e
      | Ok messages =>
          match
            match since with
            | Some since =>
                Restrict messages
                  ("[ReceivedTime] >= '" +:+ strftime since +:+ "'")
            | None => Ok messages
            end
          with
          | Raise e => Raise e
          | Ok messages =>
              match Sort messages "[ReceivedTime]" true with
              | Raise e => Raise e
              | Ok messages =>
                  match elements messages with
                  | Raise e => Raise e
                  | Ok msgs => Ok (Some msgs)
                  end
              end
          end
      end end
  end end end end.

(** A record without its files. *)
Definition headers (rec : email_detail) : email_detail :=
  mkEmail (e_name rec) (e_subject rec) (e_conversation_id rec) (e_from rec)
    (e_sender rec) (e_body rec) [] (e_status rec).

(** The record that a message gives, without its files; none when the
    attachments cannot be listed or a field cannot be read. *)
Definition record_of (msg : Message) : option email_detail :=
  match Attachments msg, read_headers msg [] with
  | Ok _, Ok rec => Some rec
  | _, _ => None
  end.

(** *** A mailbox with a folder of reports *)
Definition msg_read : Message := {|
  Subject := Ok "Report C";
  ConversationID := Ok "0003";
  Sender_PrimarySmtpAddress := Ok "cam@example.com";
  Sender_Name := Ok "Cam";
  Body := Ok "Read already.";
  UnRead := Ok false;
  Attachments := Ok [];
|}.

Definition not_supported : exn := mkExn com_error "Not supported.".

(** The items after [Sort]: they can only be listed. *)
Definition reports_sorted : Items :=
  mkItems (fun _ => Raise not_supported) (fun _ _ => Raise not_supported)
    (Ok [msg_three; msg_no_exchange_user; msg_read]).

Definition reports_restricted : Items :=
  mkItems (fun _ => Raise not_supported) (fun _ _ => Ok reports_sorted)
    (Ok [msg_read; msg_three; msg_no_exchange_user]).

Definition reports_items : Items :=
  mkItems (fun _ => Ok reports_restricted) (fun _ _ => Raise not_supported)
    (Ok [msg_read; msg_three; msg_no_exchange_user]).

Definition env_reports : Env := {|
  LOCALAPPDATA := LOCALAPPDATA env0;
  rmtree := rmtree env0;
  makedirs_error := makedirs_error env0;
  abspath := abspath env0;
  uuid4 := uuid4 env0;
  EnsureDispatch := EnsureDispatch env0;
  Dispatch_WScript_Shell := Dispatch_WScript_Shell env0;
  SpecialFolders_MyDocuments := SpecialFolders_MyDocuments env0;
  Dispatch_Outlook := Dispatch_Outlook env0;
  GetNamespace_MAPI := GetNamespace_MAPI env0;
  Inbox_Folders :=
    Ok [mkFolder (Ok "Drafts") (Raise not_supported);
        mkFolder (Ok "Reports") (Ok reports_items)];
  CreateItem := CreateItem env0;
  mail_error := mail_error env0;
|}.

Definition att_rooted : Attachment :=
  mkAttachment (Ok "C:\Windows\x.pdf") "%PDF" (fun _ => None).

Definition att_readme : Attachment :=
  mkAttachment (Ok "README") "text" (fun _ => None).

(** *** The identifiers of the files *)

(** The identifiers of [ids] were drawn, each once, at draws from [lo] up
    to [hi]. *)
Definition drawn (env : Env) (lo hi : nat) (ids : list string) : Prop :=
  exists ks,
    ids = map (uuid4 env) ks /\ NoDup ks
    /\ Forall (fun k => lo <= k < hi) ks.

(** The identifiers of all the files of the records. *)
Definition ids_of (l : list email_detail) : list string :=
  concat (map (fun rec => map id (e_files rec)) l).

(** The event is no call of [os.makedirs]. *)
Definition no_makedirs (ev : event) : Prop :=
  match ev with makedirs_call _ => False | _ => True end.

(** The content identifier is a file name: the end of the path, with no
    separator in it. *)
Definition file_name_of (image_path : string) (a : Attached) : Prop :=
  source a = image_path
  /\ exists cid h,
       content_id a = Some cid /\ image_path = h +:+ cid
       /\ char_in ntpath.sep cid = false /\ char_in ntpath.altsep cid = false.

End more_inv.

(** ** The address parser runs to its end *)

Module parser_facts.
Import Py email_utils parser_inv.

Lemma str_app_cons c a b : String c a +:+ b = String c (a +:+ b).
Proof. reflexivity. Qed.

Lemma str_app_nil b : "" +:+ b = b.
Proof. reflexivity. Qed.

Lemma str_app_assoc a b c : a +:+ b +:+ c = (a +:+ b) +:+ c.
Proof. induction a as [|x a IH]; [reflexivity|]. rewrite !str_app_cons. by f_equal. Qed.

Lemma Suffix_refl r : Suffix r r.
Proof. by exists "". Qed.

Lemma Suffix_trans a b c : Suffix a b -> Suffix b c -> Suffix a c.
Proof.
  intros [p ->] [q ->]. exists (q +:+ p). apply str_app_assoc.
Qed.

Lemma Suffix_cons c r : Suffix r (String c r).
Proof. by exists (String c ""). Qed.

Lemma Suffix_cons_l c r' r : Suffix r' r -> Suffix r' (String c r).
Proof. intros H. eapply Suffix_trans; [exact H | apply Suffix_cons]. Qed.

Lemma str_length_app a b : String.length (a +:+ b) = String.length a + String.length b.
Proof. induction a; [done|]. rewrite str_app_cons. simpl. congruence. Qed.

Lemma Suffix_length r' r : Suffix r' r -> String.length r' <= String.length r.
Proof. intros [p ->]. rewrite str_length_app. lia. Qed.

Lemma char_in_app c a b : char_in c (a +:+ b) = char_in c a || char_in c b.
Proof.
  induction a as [|x a IH]; [done|]. rewrite str_app_cons. simpl.
  by rewrite IH, orb_assoc.
Qed.

Lemma NoAt_app a b : NoAt (a +:+ b) <-> NoAt a /\ NoAt b.
Proof. unfold NoAt. rewrite char_in_app. apply orb_false_iff. Qed.

Lemma Suffix_NoAt r' r : Suffix r' r -> NoAt r -> NoAt r'.
Proof. intros [p ->] H. by apply NoAt_app in H as [_ H]. Qed.

Lemma NoAt_cons c r : NoAt (String c r) <-> eqc "@" c = false /\ NoAt r.
Proof. unfold NoAt; simpl. apply orb_false_iff. Qed.

Lemma eqc_sym a b : eqc a b = eqc b a.
Proof. apply Ascii.eqb_sym. Qed.

Lemma eqc_eq a b : eqc a b = true <-> a = b.
Proof. apply Ascii.eqb_eq. Qed.

(** getatom *)
Lemma getatom_loop_spec ends r : forall acc,
  exists a r', getatom_loop ends acc r = (a, r')
    /\ Suffix r' r
    /\ (NoAt acc -> NoAt r -> NoAt a)
    /\ (forall c r0, r = String c r0 -> char_in c ends = false ->
        String.length r' < String.length r).
Proof.
  induction r as [|c r IH]; intros acc; simpl.
  - exists acc, "". repeat split; auto using Suffix_refl. intros; discriminate.
  - destruct (char_in c ends) eqn:E.
    + exists acc, (String c r). repeat split; auto using Suffix_refl.
      intros c0 r0 [= -> ->]. congruence.
    + destruct (IH (acc +:+ String c "")) as (a & r' & -> & Hs & Hn & _).
      exists a, r'. repeat split.
      * by apply Suffix_cons_l.
      * intros Ha Hr. apply NoAt_cons in Hr as [Hc Hr]. apply Hn; [|done].
        apply NoAt_app. split; [done|]. by apply NoAt_cons.
      * intros _ _ _ _. apply Suffix_length in Hs. simpl. lia.
Qed.

Lemma NoAt_nil : NoAt "".
Proof. reflexivity. Qed.

Lemma NoAt_snoc a c : NoAt a -> eqc "@" c = false -> NoAt (a +:+ String c "").
Proof. intros Ha Hc. apply NoAt_app. split; [done|]. by apply NoAt_cons. Qed.

Create HintDb parser.

#[local] Hint Resolve Suffix_refl Suffix_cons Suffix_cons_l NoAt_nil : parser.

(** getdelimited *)
Lemma getdelimited_spec fuel :
  (forall b e ac self c r,
     rest self = String c r -> 2 * String.length (rest self) <= fuel ->
     exists v self', getdelimited fuel b e ac self = Done v self'
       /\ Suffix (rest self') (rest self)
       /\ (c = b -> String.length (rest self') < String.length (rest self))
       /\ (NoAt (rest self) -> NoAt v))
  /\ (forall e ac q slist self,
     2 * String.length (rest self) + 1 <= fuel ->
     exists v self', getdelimited_loop fuel e ac q slist self = Done v self'
       /\ Suffix (rest self') (rest self)
       /\ (NoAt slist -> NoAt (rest self) -> NoAt v)).
Proof.
  induction fuel as [|fuel [IH1 IH2]].
  - split; [intros b e ac self c r Hr Hf | intros e ac q slist self Hf].
    + rewrite Hr in Hf. simpl in Hf. lia.
    + lia.
  - split.
    + intros b e ac self c r Hr Hf. simpl. rewrite Hr.
      destruct (eqc c b) eqn:Ecb; simpl.
      * destruct (IH2 e ac false "" (set_rest self r)) as (v & self' & -> & Hs & Hn).
        { rewrite Hr in Hf. simpl in *. lia. }
        exists v, self'. simpl in Hs. split; [done|]. split; [|split].
        -- by apply Suffix_cons_l.
        -- intros _. apply Suffix_length in Hs. simpl. lia.
        -- intros Hn'. apply NoAt_cons in Hn' as [_ Hn']. by apply Hn.
      * exists "", self. rewrite Hr. repeat split; auto with parser.
        intros ->. unfold eqc in Ecb. rewrite Ascii.eqb_refl in Ecb. done.
    + intros e ac q slist self Hf. simpl.
      destruct (rest self) as [|c r] eqn:Hr.
      { exists slist, self. rewrite Hr. repeat split; auto with parser. }
      simpl in Hf.
      assert (Hnext : forall q' slist', (NoAt slist -> NoAt (String c r) -> NoAt slist') ->
        exists v self', getdelimited_loop fuel e ac q' slist' (set_rest self r) = Done v self'
          /\ Suffix (rest self') (String c r)
          /\ (NoAt slist -> NoAt (String c r) -> NoAt v)).
      { intros q' slist' Hsl.
        destruct (IH2 e ac q' slist' (set_rest self r)) as (v & self' & -> & Hs & Hn).
        { simpl. lia. }
        exists v, self'. simpl in *. split; [done|]. split; [by apply Suffix_cons_l|].
        intros H1 H2. apply Hn; [by apply Hsl|]. by apply NoAt_cons in H2 as [_ H2]. }
      assert (Hput : NoAt slist -> NoAt (String c r) -> NoAt (slist +:+ String c "")).
      { intros H1 H2. apply NoAt_cons in H2 as [H2 _]. by apply NoAt_snoc. }
      destruct q.
      { apply Hnext, Hput. }
      destruct (char_in c e).
      { exists slist, (set_rest self r). simpl. repeat split; auto with parser. }
      destruct (ac && eqc c "(") eqn:Eac.
      { destruct (IH1 "("%char (String ")" (String CR "")) true self c r Hr)
          as (cm & self1 & -> & Hs1 & Hlt1 & Hn1).
        { rewrite Hr. simpl. lia. }
        apply andb_true_iff in Eac as [_ Ec]. apply eqc_eq in Ec.
        specialize (Hlt1 Ec). rewrite Hr in *. simpl in Hlt1. simpl.
        destruct (IH2 e ac false (slist +:+ cm) self1) as (v & self' & -> & Hs & Hn).
        { lia. }
        exists v, self'. split; [done|]. split; [by eapply Suffix_trans|].
        intros H1 H2. apply Hn; [|by eapply Suffix_NoAt].
        apply NoAt_app. split; [done | by apply Hn1]. }
      destruct (eqc c backslash).
      { apply Hnext. done. }
      apply Hnext, Hput.
Qed.

Lemma class_facts_hold c : class_facts c = true.
Proof. destruct c as [[] [] [] [] [] [] [] []]; vm_compute; reflexivity. Qed.

Ltac class_facts c :=
  let H := fresh "Hcf" in
  pose proof (class_facts_hold c) as H;
  unfold class_facts in H;
  repeat (apply andb_true_iff in H;
          let H' := fresh "Hcf" in destruct H as [H H']);
  repeat match goal with
         | H : Bool.eqb _ _ = true |- _ => apply Bool.eqb_prop in H
         end.

Lemma getquote_spec fuel self r :
  rest self = String dquote r -> 2 * String.length (rest self) <= fuel ->
  exists v self', getquote fuel self = Done v self'
    /\ Suffix (rest self') (rest self)
    /\ String.length (rest self') < String.length (rest self)
    /\ (NoAt (rest self) -> NoAt v).
Proof.
  intros Hr Hf. unfold getquote.
  destruct (proj1 (getdelimited_spec fuel) dquote
    (String dquote (String CR "")) false self _ _ Hr Hf)
    as (v & self' & -> & Hs & Hlt & Hn).
  exists v, self'. auto.
Qed.

Lemma getcomment_spec fuel self r :
  rest self = String "(" r -> 2 * String.length (rest self) <= fuel ->
  exists v self', getcomment fuel self = Done v self'
    /\ Suffix (rest self') (rest self)
    /\ String.length (rest self') < String.length (rest self)
    /\ (NoAt (rest self) -> NoAt v).
Proof.
  intros Hr Hf. unfold getcomment.
  destruct (proj1 (getdelimited_spec fuel) "("%char
    (String ")" (String CR "")) true self _ _ Hr Hf)
    as (v & self' & -> & Hs & Hlt & Hn).
  exists v, self'. auto.
Qed.

Lemma getdomainliteral_spec fuel self r :
  rest self = String "[" r -> 2 * String.length (rest self) <= fuel ->
  exists v self', getdomainliteral fuel self = Done v self'
    /\ Suffix (rest self') (rest self)
    /\ String.length (rest self') < String.length (rest self)
    /\ (NoAt (rest self) -> NoAt v).
Proof.
  intros Hr Hf. unfold getdomainliteral.
  destruct (proj1 (getdelimited_spec fuel) "["%char
    (String "]" (String CR "")) false self _ _ Hr Hf)
    as (v & self' & -> & Hs & Hlt & Hn).
  exists ("[" +:+ v +:+ "]"), self'. simpl. repeat split; auto.
  intros H. apply NoAt_app. split; [done|]. apply NoAt_app. split; [auto|done].
Qed.

Lemma getatom_spec ends self :
  exists v self', getatom ends self = Done v self'
    /\ Suffix (rest self') (rest self)
    /\ (NoAt (rest self) -> NoAt v)
    /\ (forall c r, rest self = String c r -> char_in c ends = false ->
        String.length (rest self') < String.length (rest self)).
Proof.
  unfold getatom.
  destruct (getatom_loop_spec ends (rest self) "") as (a & r' & -> & Hs & Hn & Hlt).
  exists a, (set_rest self r'). simpl. repeat split; auto with parser.
Qed.

Lemma head_NoAt c r : NoAt (String c r) -> eqc c "@" = false.
Proof. intros H. apply NoAt_cons in H as [H _]. by rewrite eqc_sym. Qed.

Lemma tail_NoAt c r : NoAt (String c r) -> NoAt r.
Proof. intros H. by apply NoAt_cons in H as [_ H]. Qed.

#[local] Hint Resolve head_NoAt tail_NoAt : parser.

(** gotonext *)
Lemma gotonext_loop_eq fuel ws self :
  gotonext_loop (S fuel) ws self =
  match rest self with
  | EmptyString => Done ws self
  | String c r =>
      if is_ws c then
        gotonext_loop fuel
          (if negb (char_in c LFCR) then ws +:+ String c "" else ws)
          (set_rest self r)
      else if eqc c "(" then
        email_utils.bind (getcomment fuel self)
          (fun cm self => gotonext_loop fuel ws (append_comment self cm))
      else Done ws self
  end.
Proof. reflexivity. Qed.

Lemma gotonext_loop_spec fuel : forall ws self,
  2 * String.length (rest self) + 1 <= fuel ->
  exists v self', gotonext_loop fuel ws self = Done v self'
    /\ Suffix (rest self') (rest self)
    /\ (NoAt ws -> NoAt (rest self) -> NoAt v)
    /\ (forall c r, rest self = String c r -> is_ws c || eqc c "(" = true ->
        String.length (rest self') < String.length (rest self))
    /\ (forall c r, rest self = String c r -> is_ws c || eqc c "(" = false ->
        self' = self /\ v = ws).
Proof.
  induction fuel as [|fuel IH]; intros ws self Hf; [lia|].
  rewrite gotonext_loop_eq. destruct (rest self) as [|c r] eqn:Hr.
  { exists ws, self. rewrite Hr. repeat split; auto with parser; discriminate. }
  simpl in Hf.
  destruct (is_ws c) eqn:Ews.
  - destruct (IH (if negb (char_in c LFCR) then ws +:+ String c "" else ws)
      (set_rest self r)) as (v & self' & -> & Hs & Hn & _).
    { simpl. lia. }
    simpl in *. exists v, self'. split; [done|]. split; [auto with parser|].
    split; [|split].
    + intros H1 H2. apply Hn; [|eauto with parser].
      destruct (negb _); [|done].
      apply NoAt_snoc; [done|]. rewrite eqc_sym. eauto with parser.
    + intros _ _ _ _. apply Suffix_length in Hs. lia.
    + intros c0 r0 [= -> ->]. rewrite Ews. discriminate.
  - destruct (eqc c "(") eqn:Ep.
    + apply eqc_eq in Ep. subst c.
      destruct (getcomment_spec fuel self r Hr) as (cm & self1 & -> & Hs1 & Hlt1 & Hn1).
      { rewrite Hr. simpl. lia. }
      rewrite Hr in *. simpl in Hlt1. simpl.
      destruct (IH ws (append_comment self1 cm)) as (v & self' & -> & Hs & Hn & _).
      { simpl. lia. }
      simpl in *. exists v, self'. split; [done|]. split; [by eapply Suffix_trans|].
      split; [|split].
      * intros H1 H2. apply Hn; [done|]. by eapply Suffix_NoAt.
      * intros _ _ _ _. apply Suffix_length in Hs. lia.
      * intros c0 r0 [= <- <-] Hx. vm_compute in Hx. discriminate.
    + exists ws, self. rewrite Hr. repeat split; auto with parser.
      intros c0 r0 [= -> ->]. rewrite Ews, Ep. discriminate.
Qed.

Lemma gotonext_spec fuel self :
  2 * String.length (rest self) + 1 <= fuel ->
  exists v self', gotonext fuel self = Done v self'
    /\ Suffix (rest self') (rest self)
    /\ (NoAt (rest self) -> NoAt v)
    /\ (forall c r, rest self = String c r -> is_ws c || eqc c "(" = true ->
        String.length (rest self') < String.length (rest self))
    /\ (forall c r, rest self = String c r -> is_ws c || eqc c "(" = false ->
        self' = self).
Proof.
  intros Hf. unfold gotonext.
  destruct (gotonext_loop_spec fuel "" self Hf) as (v & self' & -> & Hs & Hn & Hlt & Hid).
  exists v, self'. repeat split; auto with parser.
  intros c r H1 H2. by destruct (Hid c r H1 H2).
Qed.

(** getphraselist *)
Lemma getphraselist_loop_eq fuel plist self :
  getphraselist_loop (S fuel) plist self =
  match rest self with
  | EmptyString => Done plist self
  | String c r =>
      if char_in c FWS then getphraselist_loop fuel plist (set_rest self r)
      else if eqc c dquote then
        email_utils.bind (getquote fuel self)
          (fun q self => getphraselist_loop fuel (plist ++ [q]) self)
      else if eqc c "(" then
        email_utils.bind (getcomment fuel self)
          (fun cm self => getphraselist_loop fuel plist (append_comment self cm))
      else if char_in c phraseends then Done plist self
      else
        email_utils.bind (getatom phraseends self)
          (fun a self => getphraselist_loop fuel (plist ++ [a]) self)
  end.
Proof. reflexivity. Qed.

Lemma getphraselist_loop_spec fuel : forall plist self,
  2 * String.length (rest self) + 1 <= fuel ->
  exists v self', getphraselist_loop fuel plist self = Done v self'
    /\ Suffix (rest self') (rest self)
    /\ (Forall NoAt plist -> NoAt (rest self) -> Forall NoAt v)
    /\ (forall c r, rest self = String c r -> char_in c stop9 = false ->
        String.length (rest self') < String.length (rest self))
    /\ (forall c r, rest self = String c r -> char_in c stop9 = true ->
        self' = self /\ v = plist).
Proof.
  induction fuel as [|fuel IH]; intros plist self Hf; [lia|].
  rewrite getphraselist_loop_eq. destruct (rest self) as [|c r] eqn:Hr.
  { exists plist, self. rewrite Hr. repeat split; auto with parser; discriminate. }
  cbn [String.length] in Hf. class_facts c.
  destruct (char_in c FWS) eqn:Efws.
  { destruct (IH plist (set_rest self r)) as (v & self' & -> & Hs & Hn & _).
    { cbn [rest set_rest]. lia. }
    cbn [rest set_rest] in *. exists v, self'. split; [done|].
    split; [auto with parser|]. split; [|split].
    - intros H1 H2. apply Hn; eauto with parser.
    - intros _ _ _ _. apply Suffix_length in Hs. cbn [String.length]. lia.
    - intros c0 r0 [= <- <-] Hx. destruct (is_ws c); [|done].
      rewrite Hx in *. done. }
  destruct (eqc c dquote) eqn:Edq.
  { apply eqc_eq in Edq. subst c.
    destruct (getquote_spec fuel self r Hr) as (q & self1 & -> & Hs1 & Hlt1 & Hn1).
    { rewrite Hr. cbn [String.length]. lia. }
    rewrite Hr in *. cbn [String.length] in Hlt1. cbn [email_utils.bind].
    destruct (IH (plist ++ [q]) self1) as (v & self' & -> & Hs & Hn & _).
    { lia. }
    exists v, self'. split; [done|]. split; [by eapply Suffix_trans|].
    split; [|split].
    - intros H1 H2. apply Hn; [|by eapply Suffix_NoAt].
      apply Forall_app. split; [done|]. constructor; auto.
    - intros _ _ _ _. apply Suffix_length in Hs. cbn [String.length]. lia.
    - intros c0 r0 [= <- <-] Hx. vm_compute in Hx. discriminate. }
  destruct (eqc c "(") eqn:Ep.
  { apply eqc_eq in Ep. subst c.
    destruct (getcomment_spec fuel self r Hr) as (cm & self1 & -> & Hs1 & Hlt1 & Hn1).
    { rewrite Hr. cbn [String.length]. lia. }
    rewrite Hr in *. cbn [String.length] in Hlt1. cbn [email_utils.bind].
    destruct (IH plist (append_comment self1 cm)) as (v & self' & -> & Hs & Hn & _).
    { cbn [rest append_comment]. lia. }
    cbn [rest append_comment] in *.
    exists v, self'. split; [done|]. split; [by eapply Suffix_trans|].
    split; [|split].
    - intros H1 H2. apply Hn; [done|by eapply Suffix_NoAt].
    - intros _ _ _ _. apply Suffix_length in Hs. cbn [String.length]. lia.
    - intros c0 r0 [= <- <-] Hx. vm_compute in Hx. discriminate. }
  destruct (char_in c phraseends) eqn:Epe.
  { exists plist, self. rewrite Hr. repeat split; auto with parser.
    intros c0 r0 [= <- <-] Hx.
    destruct (is_ws c); [done|]. rewrite Hx in *. done. }
  destruct (getatom_spec phraseends self) as (a & self1 & -> & Hs1 & Hn1 & Hlt1).
  specialize (Hlt1 c r Hr Epe). rewrite Hr in *. cbn [String.length] in Hlt1.
  cbn [email_utils.bind].
  destruct (IH (plist ++ [a]) self1) as (v & self' & -> & Hs & Hn & _).
  { lia. }
  exists v, self'. split; [done|]. split; [by eapply Suffix_trans|].
  split; [|split].
  - intros H1 H2. apply Hn; [|by eapply Suffix_NoAt].
    apply Forall_app. split; [done|]. constructor; auto.
  - intros _ _ _ _. apply Suffix_length in Hs. cbn [String.length]. lia.
  - intros c0 r0 [= <- <-] Hx. destruct (is_ws c); [done|].
    rewrite Hx in *. done.
Qed.

(** getdomain *)
Lemma getdomain_loop_eq fuel sdlist self :
  getdomain_loop (S fuel) sdlist self =
  match rest self with
  | EmptyString => Done sdlist self
  | String c r =>
      if char_in c LWS then getdomain_loop fuel sdlist (set_rest self r)
      else if eqc c "(" then
        email_utils.bind (getcomment fuel self)
          (fun cm self => getdomain_loop fuel sdlist (append_comment self cm))
      else if eqc c "[" then
        email_utils.bind (getdomainliteral fuel self)
          (fun d self => getdomain_loop fuel (sdlist +:+ d) self)
      else if eqc c "." then
        getdomain_loop fuel (sdlist +:+ ".") (set_rest self r)
      else if eqc c "@" then Done "" self
      else if char_in c atomends then Done sdlist self
      else
        email_utils.bind (getatom atomends self)
          (fun a self => getdomain_loop fuel (sdlist +:+ a) self)
  end.
Proof. reflexivity. Qed.

Lemma getdomain_loop_spec fuel : forall sdlist self,
  2 * String.length (rest self) + 1 <= fuel ->
  exists v self', getdomain_loop fuel sdlist self = Done v self'
    /\ Suffix (rest self') (rest self)
    /\ (NoAt sdlist -> NoAt (rest self) -> NoAt v).
Proof.
  induction fuel as [|fuel IH]; intros sdlist self Hf; [lia|].
  rewrite getdomain_loop_eq. destruct (rest self) as [|c r] eqn:Hr.
  { exists sdlist, self. rewrite Hr. repeat split; auto with parser. }
  cbn [String.length] in Hf.
  destruct (char_in c LWS).
  { destruct (IH sdlist (set_rest self r)) as (v & self' & -> & Hs & Hn).
    { cbn [rest set_rest]. lia. }
    cbn [rest set_rest] in *. exists v, self'. split; [done|].
    split; [auto with parser|]. intros H1 H2. apply Hn; eauto with parser. }
  destruct (eqc c "(") eqn:Ep.
  { apply eqc_eq in Ep. subst c.
    destruct (getcomment_spec fuel self r Hr) as (cm & self1 & -> & Hs1 & Hlt1 & Hn1).
    { rewrite Hr. cbn [String.length]. lia. }
    rewrite Hr in *. cbn [String.length] in Hlt1. cbn [email_utils.bind].
    destruct (IH sdlist (append_comment self1 cm)) as (v & self' & -> & Hs & Hn).
    { cbn [rest append_comment]. lia. }
    cbn [rest append_comment] in *.
    exists v, self'. split; [done|]. split; [by eapply Suffix_trans|].
    intros H1 H2. apply Hn; [done|by eapply Suffix_NoAt]. }
  destruct (eqc c "[") eqn:Eb.
  { apply eqc_eq in Eb. subst c.
    destruct (getdomainliteral_spec fuel self r Hr) as (d & self1 & -> & Hs1 & Hlt1 & Hn1).
    { rewrite Hr. cbn [String.length]. lia. }
    rewrite Hr in *. cbn [String.length] in Hlt1. cbn [email_utils.bind].
    destruct (IH (sdlist +:+ d) self1) as (v & self' & -> & Hs & Hn).
    { lia. }
    exists v, self'. split; [done|]. split; [by eapply Suffix_trans|].
    intros H1 H2. apply Hn; [|by eapply Suffix_NoAt].
    apply NoAt_app. auto. }
  destruct (eqc c ".") eqn:Ed.
  { destruct (IH (sdlist +:+ ".") (set_rest self r)) as (v & self' & -> & Hs & Hn).
    { cbn [rest set_rest]. lia. }
    cbn [rest set_rest] in *. exists v, self'. split; [done|].
    split; [auto with parser|]. intros H1 H2. apply Hn; eauto with parser.
    apply NoAt_app. split; [done|reflexivity]. }
  destruct (eqc c "@").
  { exists "", self. rewrite Hr. repeat split; auto with parser. }
  destruct (char_in c atomends) eqn:Eae.
  { exists sdlist, self. rewrite Hr. repeat split; auto with parser. }
  destruct (getatom_spec atomends self) as (a & self1 & -> & Hs1 & Hn1 & Hlt1).
  specialize (Hlt1 c r Hr Eae). rewrite Hr in *. cbn [String.length] in Hlt1.
  cbn [email_utils.bind].
  destruct (IH (sdlist +:+ a) self1) as (v & self' & -> & Hs & Hn).
  { lia. }
  exists v, self'. split; [done|]. split; [by eapply Suffix_trans|].
  intros H1 H2. apply Hn; [|by eapply Suffix_NoAt]. apply NoAt_app. auto.
Qed.

(** getaddrspec *)
Lemma Forall_removelast {A} (P : A -> Prop) l :
  Forall P l -> Forall P (removelast l).
Proof.
  induction 1 as [|x l Hx Hl IH]; [constructor|].
  destruct l; [constructor|]. cbn [removelast]. constructor; auto.
Qed.

Lemma NoAt_pop_blank l : Forall NoAt l -> Forall NoAt (pop_blank l).
Proof.
  intros H. unfold pop_blank. destruct (last l); [|done].
  destruct (strip_is_empty _); [by apply Forall_removelast | done].
Qed.

Lemma NoAt_replace_char a b s :
  NoAt b -> NoAt s -> NoAt (replace_char a b s).
Proof.
  intros Hb. induction s as [|c s IH]; [done|]. intros Hs.
  cbn [replace_char]. apply NoAt_app. split; [|eauto with parser].
  destruct (eqc c a); [done|]. apply NoAt_cons. split; [|done].
  rewrite eqc_sym. eauto with parser.
Qed.

Lemma NoAt_quote s : NoAt s -> NoAt (quote s).
Proof. intros H. unfold quote. by repeat apply NoAt_replace_char. Qed.

Lemma NoAt_join_empty l : Forall NoAt l -> NoAt (join_empty l).
Proof.
  induction 1 as [|x l Hx Hl IH]; [done|]. unfold join_empty. cbn [fold_right].
  apply NoAt_app. auto.
Qed.

Lemma keep_ws_spec fuel p aslist self :
  2 * String.length (rest self) + 1 <= fuel ->
  exists v self', keep_ws fuel p aslist self = Done v self'
    /\ Suffix (rest self') (rest self)
    /\ (Forall NoAt aslist -> NoAt (rest self) -> Forall NoAt v).
Proof.
  intros Hf. unfold keep_ws.
  destruct (gotonext_spec fuel self Hf) as (ws & self' & -> & Hs & Hn & _).
  cbn [email_utils.bind]. eexists _, self'. split; [done|]. split; [done|].
  intros H1 H2. destruct (p && truthy ws); [|done].
  apply Forall_app. split; [done|]. constructor; auto.
Qed.

Lemma getaddrspec_loop_eq fuel aslist self :
  getaddrspec_loop (S fuel) aslist self =
  match rest self with
  | EmptyString => Done aslist self
  | String c r =>
      if eqc c "." then
        email_utils.bind
          (keep_ws fuel false (pop_blank aslist ++ ["."]) (set_rest self r))
          (fun aslist self => getaddrspec_loop fuel aslist self)
      else if eqc c dquote then
        email_utils.bind (getquote fuel self) (fun q self =>
        email_utils.bind
          (keep_ws fuel true
             (aslist ++ [String dquote (quote q) +:+ String dquote ""]) self)
          (fun aslist self => getaddrspec_loop fuel aslist self))
      else if char_in c atomends then Done (pop_blank aslist) self
      else
        email_utils.bind (getatom atomends self) (fun a self =>
        email_utils.bind (keep_ws fuel true (aslist ++ [a]) self)
          (fun aslist self => getaddrspec_loop fuel aslist self))
  end.
Proof. reflexivity. Qed.

Lemma getaddrspec_loop_spec fuel : forall aslist self,
  2 * String.length (rest self) + 1 <= fuel ->
  exists v self', getaddrspec_loop fuel aslist self = Done v self'
    /\ Suffix (rest self') (rest self)
    /\ (Forall NoAt aslist -> NoAt (rest self) -> Forall NoAt v)
    /\ (forall c r, rest self = String c r ->
        eqc c "." || eqc c dquote || negb (char_in c atomends) = true ->
        String.length (rest self') < String.length (rest self))
    /\ (forall c r, rest self = String c r ->
        eqc c "." || eqc c dquote || negb (char_in c atomends) = false ->
        self' = self).
Proof.
  induction fuel as [|fuel IH]; intros aslist self Hf; [lia|].
  rewrite getaddrspec_loop_eq. destruct (rest self) as [|c r] eqn:Hr.
  { exists aslist, self. rewrite Hr. repeat split; auto with parser; discriminate. }
  cbn [String.length] in Hf.
  destruct (eqc c ".") eqn:Ed.
  { destruct (keep_ws_spec fuel false (pop_blank aslist ++ ["."]) (set_rest self r))
      as (l1 & self1 & -> & Hs1 & Hn1).
    { cbn [rest set_rest]. lia. }
    cbn [rest set_rest] in *. cbn [email_utils.bind].
    pose proof (Suffix_length _ _ Hs1).
    destruct (IH l1 self1) as (v & self' & -> & Hs & Hn & _); [lia|].
    exists v, self'. split; [done|].
    split; [eapply Suffix_trans; eauto with parser|]. split; [|split].
    - intros H1 H2. apply Hn; [|eapply Suffix_NoAt; eauto with parser].
      apply Hn1; [|eauto with parser]. apply Forall_app.
      split; [by apply NoAt_pop_blank|]. by constructor.
    - intros _ _ _ _. apply Suffix_length in Hs. cbn [String.length]. lia.
    - intros c0 r0 [= <- <-]. rewrite Ed. discriminate. }
  destruct (eqc c dquote) eqn:Edq.
  { apply eqc_eq in Edq. subst c.
    destruct (getquote_spec fuel self r Hr) as (q & self1 & -> & Hs1 & Hlt1 & Hn1).
    { rewrite Hr. cbn [String.length]. lia. }
    rewrite Hr in *. cbn [String.length] in Hlt1. cbn [email_utils.bind].
    destruct (keep_ws_spec fuel true
      (aslist ++ [String dquote (quote q) +:+ String dquote ""]) self1)
      as (l2 & self2 & -> & Hs2 & Hn2); [lia|].
    cbn [email_utils.bind]. pose proof (Suffix_length _ _ Hs2).
    destruct (IH l2 self2) as (v & self' & -> & Hs & Hn & _); [lia|].
    exists v, self'. split; [done|].
    split; [eapply Suffix_trans; [|exact Hs1]; by eapply Suffix_trans|].
    split; [|split].
    - intros H1 H2. pose proof (Suffix_NoAt _ _ Hs1 H2) as H3.
      apply Hn; [|by eapply Suffix_NoAt].
      apply Hn2; [|done]. apply Forall_app. split; [done|]. constructor; [|done].
      apply NoAt_app. split; [|done]. apply NoAt_cons. split; [done|].
      apply NoAt_quote. auto.
    - intros _ _ _ _. apply Suffix_length in Hs. cbn [String.length]. lia.
    - intros c0 r0 [= <- <-]. vm_compute. discriminate. }
  destruct (char_in c atomends) eqn:Eae.
  { exists (pop_blank aslist), self. rewrite Hr. split; [done|].
    split; [auto with parser|]. split; [|split]; [| |done].
    - intros H1 _. by apply NoAt_pop_blank.
    - intros c0 r0 [= <- <-]. rewrite Ed, Edq, Eae. discriminate. }
  destruct (getatom_spec atomends self) as (a & self1 & -> & Hs1 & Hn1 & Hlt1).
  specialize (Hlt1 c r Hr Eae). rewrite Hr in *. cbn [String.length] in Hlt1.
  cbn [email_utils.bind].
  destruct (keep_ws_spec fuel true (aslist ++ [a]) self1)
    as (l2 & self2 & -> & Hs2 & Hn2); [lia|].
  cbn [email_utils.bind]. pose proof (Suffix_length _ _ Hs2).
  destruct (IH l2 self2) as (v & self' & -> & Hs & Hn & _); [lia|].
  exists v, self'. split; [done|].
  split; [eapply Suffix_trans; [|exact Hs1]; by eapply Suffix_trans|].
  split; [|split].
  - intros H1 H2. pose proof (Suffix_NoAt _ _ Hs1 H2) as H3.
    apply Hn; [|by eapply Suffix_NoAt].
    apply Hn2; [|done]. apply Forall_app. split; [done|]. constructor; auto.
  - intros _ _ _ _. apply Suffix_length in Hs. cbn [String.length]. lia.
  - intros c0 r0 [= <- <-]. rewrite Ed, Edq, Eae. discriminate.
Qed.

Lemma only_at c :
  is_ws c || eqc c "(" = false ->
  eqc c "." || eqc c dquote || negb (char_in c atomends) = false ->
  char_in c stop8 = false ->
  c = "@"%char.
Proof.
  destruct c as [[] [] [] [] [] [] [] []]; vm_compute; intros; congruence.
Qed.

Lemma getaddrspec_spec fuel self :
  2 * String.length (rest self) + 1 <= fuel ->
  exists v self', getaddrspec fuel self = Done v self'
    /\ Suffix (rest self') (rest self)
    /\ (NoAt (rest self) -> NoAt v)
    /\ (forall c r, rest self = String c r -> char_in c stop8 = false ->
        String.length (rest self') < String.length (rest self)).
Proof.
  intros Hf. unfold getaddrspec.
  destruct (gotonext_spec fuel self Hf) as (ws & self0 & -> & Hs0 & _ & Hlt0 & Hid0).
  cbn [email_utils.bind]. pose proof (Suffix_length _ _ Hs0) as Hl0.
  destruct (getaddrspec_loop_spec fuel [] self0) as (l & self1 & -> & Hs1 & Hn1 & Hlt1 & Hid1);
    [lia|].
  cbn [email_utils.bind]. pose proof (Suffix_length _ _ Hs1) as Hl1.
  assert (Hstrict1 : forall c r, rest self = String c r -> char_in c stop8 = false ->
    String.length (rest self1) < String.length (rest self)
    \/ (self1 = self /\ c = "@"%char)).
  { intros c r Hr H8. destruct (is_ws c || eqc c "(") eqn:E.
    - left. specialize (Hlt0 c r Hr E). lia.
    - specialize (Hid0 c r Hr E). subst self0.
      destruct (eqc c "." || eqc c dquote || negb (char_in c atomends)) eqn:E2.
      + left. eauto.
      + right. split; [eauto|]. by apply only_at. }
  destruct (rest self1) as [|c1 r1] eqn:Hr1.
  { exists (join_empty l), self1. rewrite Hr1. split; [done|].
    split; [by eapply Suffix_trans|]. split.
    - intros H. apply NoAt_join_empty, Hn1; [constructor | by eapply Suffix_NoAt].
    - intros c r Hr H8. destruct (Hstrict1 c r Hr H8) as [H|[-> _]]; [done|].
      congruence. }
  destruct (eqc c1 "@") eqn:Eat; cbn [negb].
  - destruct (gotonext_spec fuel (set_rest self1 r1)) as (ws2 & self2 & -> & Hs2 & _).
    { cbn [rest set_rest]. cbn [String.length] in Hl1. lia. }
    cbn [email_utils.bind rest set_rest] in *. pose proof (Suffix_length _ _ Hs2) as Hl2.
    cbn [String.length] in Hl1.
    unfold getdomain.
    destruct (getdomain_loop_spec fuel "" self2) as (d & self3 & -> & Hs3 & _); [lia|].
    cbn [email_utils.bind]. pose proof (Suffix_length _ _ Hs3) as Hl3.
    assert (Hsuf : Suffix (rest self3) (rest self)).
    { eapply Suffix_trans; [exact Hs3|]. eapply Suffix_trans; [exact Hs2|].
      eapply Suffix_trans; [apply Suffix_cons|]. by eapply Suffix_trans. }
    assert (Hno : NoAt (rest self) -> False).
    { intros H. apply (Suffix_NoAt _ _ Hs0) in H. apply (Suffix_NoAt _ _ Hs1) in H.
      apply head_NoAt in H. congruence. }
    assert (Hlt : String.length (rest self3) < String.length (rest self)) by lia.
    destruct (negb (truthy d)).
    + exists "", self3. repeat split; auto.
    + eexists _, self3. repeat split; auto. intros H. by destruct (Hno H).
  - exists (join_empty l), self1. rewrite Hr1. split; [done|].
    split; [by eapply Suffix_trans|]. split.
    + intros H. apply NoAt_join_empty, Hn1; [constructor | by eapply Suffix_NoAt].
    + intros c r Hr H8. destruct (Hstrict1 c r Hr H8) as [H|[-> ->]]; [done|].
      rewrite Hr in Hr1. injection Hr1 as <- <-. vm_compute in Eat. discriminate.
Qed.

(** getrouteaddr *)
Lemma Suffix_drop1 r : Suffix (drop 1 r) r.
Proof. destruct r; cbn [drop]; auto with parser. Qed.

Lemma getrouteaddr_loop_eq fuel expectroute adlist self :
  getrouteaddr_loop (S fuel) expectroute adlist self =
  match rest self with
  | EmptyString => Done adlist self
  | String c r =>
      if expectroute then
        email_utils.bind (getdomain fuel self) (fun _ self =>
        email_utils.bind (gotonext fuel self) (fun _ self =>
        getrouteaddr_loop fuel false adlist self))
      else if eqc c ">" then Done adlist (set_rest self r)
      else if eqc c "@" then
        email_utils.bind (gotonext fuel (set_rest self r)) (fun _ self =>
        getrouteaddr_loop fuel true adlist self)
      else if eqc c ":" then
        email_utils.bind (gotonext fuel (set_rest self r)) (fun _ self =>
        getrouteaddr_loop fuel false adlist self)
      else
        email_utils.bind (getaddrspec fuel self) (fun adlist self =>
        Done adlist (set_rest self (drop 1 (rest self))))
  end.
Proof. reflexivity. Qed.

Lemma getrouteaddr_loop_spec fuel : forall expectroute adlist self,
  2 * String.length (rest self) + (if expectroute : bool then 3 else 2) <= fuel ->
  exists v self', getrouteaddr_loop fuel expectroute adlist self = Done v self'
    /\ Suffix (rest self') (rest self)
    /\ (NoAt adlist -> NoAt (rest self) -> NoAt v).
Proof.
  induction fuel as [|fuel IH]; intros expectroute adlist self Hf;
    [destruct expectroute; lia|].
  rewrite getrouteaddr_loop_eq. destruct (rest self) as [|c r] eqn:Hr.
  { exists adlist, self. rewrite Hr. repeat split; auto with parser. }
  cbn [String.length] in Hf.
  destruct expectroute.
  { unfold getdomain.
    destruct (getdomain_loop_spec fuel "" self) as (d & self1 & -> & Hs1 & _).
    { rewrite Hr. cbn [String.length]. lia. }
    rewrite Hr in Hs1. pose proof (Suffix_length _ _ Hs1) as Hl1.
    cbn [String.length] in Hl1. cbn [email_utils.bind].
    destruct (gotonext_spec fuel self1) as (ws & self2 & -> & Hs2 & _); [lia|].
    pose proof (Suffix_length _ _ Hs2) as Hl2. cbn [email_utils.bind].
    destruct (IH false adlist self2) as (v & self' & -> & Hs & Hn); [lia|].
    exists v, self'. split; [done|].
    split; [eapply Suffix_trans; [|exact Hs1]; by eapply Suffix_trans|].
    intros H1 H2. apply Hn; [done|].
    eapply Suffix_NoAt; [exact Hs2|]. by eapply Suffix_NoAt. }
  assert (Hnext : forall flag,
    exists v self',
      email_utils.bind (gotonext fuel (set_rest self r))
        (fun _ self => getrouteaddr_loop fuel flag adlist self) = Done v self'
      /\ Suffix (rest self') (String c r)
      /\ (NoAt adlist -> NoAt (String c r) -> NoAt v)).
  { intros flag.
    destruct (gotonext_spec fuel (set_rest self r)) as (ws & self2 & -> & Hs2 & _).
    { cbn [rest set_rest]. lia. }
    cbn [rest set_rest] in Hs2.
    pose proof (Suffix_length _ _ Hs2) as Hl2. cbn [email_utils.bind].
    destruct (IH flag adlist self2) as (v & self' & -> & Hs & Hn);
      [destruct flag; lia|].
    exists v, self'. split; [done|].
    split; [apply Suffix_cons_l; by eapply Suffix_trans|].
    intros H1 H2. apply Hn; [done|]. eapply Suffix_NoAt; eauto with parser. }
  destruct (eqc c ">").
  { exists adlist, (set_rest self r). cbn [rest set_rest].
    repeat split; auto with parser. }
  destruct (eqc c "@"); [apply Hnext|].
  destruct (eqc c ":"); [apply Hnext|].
  destruct (getaddrspec_spec fuel self) as (a & self1 & -> & Hs1 & Hn1 & _).
  { rewrite Hr. cbn [String.length]. lia. }
  rewrite Hr in *. cbn [email_utils.bind].
  exists a, (set_rest self1 (drop 1 (rest self1))). cbn [rest set_rest].
  split; [done|]. split; [eapply Suffix_trans; [apply Suffix_drop1|done]|].
  auto.
Qed.

Lemma getrouteaddr_spec fuel self r :
  rest self = String "<" r -> 2 * String.length (rest self) <= fuel ->
  exists v self', getrouteaddr fuel self = Done v self'
    /\ Suffix (rest self') (rest self)
    /\ String.length (rest self') < String.length (rest self)
    /\ (NoAt (rest self) -> NoAt v).
Proof.
  intros Hr Hf. unfold getrouteaddr. rewrite Hr in *.
  cbn [String.length] in Hf. cbn [eqc Ascii.eqb negb]. 
  change (eqc "<" "<") with true. cbn [negb].
  destruct (gotonext_spec fuel (set_rest self r)) as (ws & self2 & -> & Hs2 & _).
  { cbn [rest set_rest]. lia. }
  cbn [rest set_rest] in Hs2.
  pose proof (Suffix_length _ _ Hs2) as Hl2. cbn [email_utils.bind].
  destruct (getrouteaddr_loop_spec fuel false "" self2) as (v & self' & -> & Hs & Hn);
    [lia|].
  pose proof (Suffix_length _ _ Hs) as Hl.
  exists v, self'. split; [done|].
  split; [apply Suffix_cons_l; by eapply Suffix_trans|].
  split; [cbn [String.length]; lia|].
  intros H. apply Hn; [done|]. eapply Suffix_NoAt; eauto with parser.
Qed.

Lemma getaddress_eq fuel self :
  getaddress (S fuel) self =
  email_utils.bind (gotonext fuel (mkSelf (rest self) [])) (fun _ self1 =>
  email_utils.bind (getphraselist fuel self1) (fun plist self2 =>
  email_utils.bind (gotonext fuel self2) (fun _ self3 =>
  email_utils.bind (shape fuel (rest self1) plist self3) (fun rl self4 =>
  finish fuel rl self4)))).
Proof. reflexivity. Qed.

Lemma getaddress_group_eq fuel returnlist self :
  getaddress_group (S fuel) returnlist self =
  match rest self with
  | EmptyString => Done returnlist self
  | String _ _ =>
      email_utils.bind (gotonext fuel self) (fun _ self =>
      let member :=
        email_utils.bind (getaddress fuel self) (fun ad self =>
        getaddress_group fuel (returnlist ++ ad) self) in
      match rest self with
      | String c r =>
          if eqc c ";" then Done returnlist (set_rest self r) else member
      | EmptyString => member
      end)
  end.
Proof. reflexivity. Qed.

Lemma finish_spec fuel rl self :
  2 * String.length (rest self) + 1 <= fuel ->
  exists self', finish fuel rl self = Done rl self'
    /\ Suffix (rest self') (rest self).
Proof.
  intros Hf. unfold finish.
  destruct (gotonext_spec fuel self Hf) as (ws & self1 & -> & Hs1 & _).
  cbn [email_utils.bind]. destruct (rest self1) as [|c r] eqn:Hr.
  { exists self1. by rewrite Hr. }
  destruct (eqc c ",").
  - exists (set_rest self1 r). cbn [rest set_rest]. split; [done|].
    eapply Suffix_trans; [apply Suffix_cons|done].
  - exists self1. by rewrite Hr.
Qed.

Lemma stop9_not_stop8 c :
  char_in c stop9 = true -> char_in c ".@" = true -> char_in c stop8 = false.
Proof. destruct c as [[] [] [] [] [] [] [] []]; vm_compute; congruence. Qed.

Lemma stop9_specials c : char_in c stop9 = true -> char_in c specials = true.
Proof. destruct c as [[] [] [] [] [] [] [] []]; vm_compute; congruence. Qed.

Lemma stop9_not_ws c :
  char_in c stop9 = true -> is_ws c || eqc c "(" = false.
Proof. destruct c as [[] [] [] [] [] [] [] []]; vm_compute; congruence. Qed.

Lemma not_stop9_not_stop8 c :
  char_in c stop9 = false -> char_in c stop8 = false.
Proof. destruct c as [[] [] [] [] [] [] [] []]; vm_compute; congruence. Qed.

Lemma length_pos c r : 0 < String.length (String c r).
Proof. cbn. lia. Qed.

Lemma getaddress_spec fuel :
  (forall self, 2 * String.length (rest self) + 2 <= fuel ->
     exists v self', getaddress fuel self = Done v self'
       /\ Suffix (rest self') (rest self)
       /\ (NoAt (rest self) -> Forall NoAtAddr v)
       /\ (rest self <> "" ->
           String.length (rest self') < String.length (rest self)))
  /\ (forall rl self, 2 * String.length (rest self) + 3 <= fuel ->
     exists v self', getaddress_group fuel rl self = Done v self'
       /\ Suffix (rest self') (rest self)
       /\ (Forall NoAtAddr rl -> NoAt (rest self) -> Forall NoAtAddr v)).
Proof.
  induction fuel as [|f [IHa IHg]]; [split; intros; lia|]. split.
  - intros self Hf. rewrite getaddress_eq.
    destruct (gotonext_spec f (mkSelf (rest self) []))
      as (ws1 & self1 & -> & Hs1 & _ & Hlt1 & Hid1); [cbn [rest]; lia|].
    cbn [rest] in *. cbn [email_utils.bind].
    pose proof (Suffix_length _ _ Hs1) as Hl1. unfold getphraselist.
    destruct (getphraselist_loop_spec f [] self1)
      as (plist & self2 & -> & Hs2 & Hn2 & Hlt2 & Hid2); [lia|].
    cbn [email_utils.bind]. pose proof (Suffix_length _ _ Hs2) as Hl2.
    destruct (gotonext_spec f self2)
      as (ws3 & self3 & -> & Hs3 & _ & Hlt3 & Hid3); [lia|].
    cbn [email_utils.bind]. pose proof (Suffix_length _ _ Hs3) as Hl3.
    assert (K : forall c0 r0, rest self = String c0 r0 ->
      String.length (rest self1) < String.length (rest self)
      \/ (rest self1 = rest self /\ char_in c0 stop9 = false
          /\ String.length (rest self2) < String.length (rest self))
      \/ (rest self1 = rest self /\ char_in c0 stop9 = true
          /\ self3 = self1 /\ plist = [])).
    { intros c0 r0 Hr. destruct (is_ws c0 || eqc c0 "(") eqn:E.
      - left. eauto.
      - right. specialize (Hid1 c0 r0 Hr E). subst self1. cbn [rest] in *.
        destruct (char_in c0 stop9) eqn:E9.
        + right. destruct (Hid2 c0 r0 Hr E9) as [-> ->].
          rewrite (Hid3 c0 r0 Hr (stop9_not_ws _ E9)). auto.
        + left. split; [done|]. split; [done|]. eauto. }
    assert (HNp : NoAt (rest self) -> Forall NoAt plist).
    { intros H. apply Hn2; [constructor|]. by eapply Suffix_NoAt. }
    assert (Hshape : exists rl self4,
      shape f (rest self1) plist self3 = Done rl self4
      /\ Suffix (rest self4) (rest self)
      /\ (NoAt (rest self) -> Forall NoAtAddr rl)
      /\ (rest self <> "" ->
          String.length (rest self4) < String.length (rest self))).
    { assert (Hs13 : Suffix (rest self3) (rest self)).
      { eapply Suffix_trans; [exact Hs3|]. by eapply Suffix_trans. }
      unfold shape. destruct (rest self3) as [|c r] eqn:Hr3.
      { eexists _, self3. rewrite Hr3. split; [done|]. split; [done|]. split.
        - intros H. specialize (HNp H). destruct plist; [constructor|].
          constructor; [|constructor]. by inversion HNp.
        - intros Hne. destruct (rest self); [done|]. cbn. lia. }
      cbn [String.length] in Hl3.
      destruct (char_in c ".@") eqn:Edot.
      { destruct (getaddrspec_spec f (set_rest self3 (rest self1)))
          as (a & self4 & -> & Hs4 & Hn4 & Hlt4); [cbn [rest set_rest]; lia|].
        cbn [rest set_rest] in *. cbn [email_utils.bind].
        pose proof (Suffix_length _ _ Hs4) as Hl4.
        eexists _, self4. split; [done|]. split; [by eapply Suffix_trans|]. split.
        - intros H. constructor; [|constructor]. apply Hn4. by eapply Suffix_NoAt.
        - intros Hne. destruct (rest self) as [|c0 r0] eqn:Hr; [done|].
          destruct (K c0 r0 eq_refl) as [H|[(H1 & H2 & H3)|(H1 & H2 & H3 & H4)]].
          + lia.
          + rewrite H1 in *. apply (Hlt4 c0 r0 eq_refl).
            by apply not_stop9_not_stop8.
          + rewrite H1 in *. apply (Hlt4 c0 r0 eq_refl). subst self3.
            rewrite H1 in Hr3. injection Hr3 as -> ->.
            by apply stop9_not_stop8. }
      destruct (eqc c ":").
      { destruct (IHg [] (set_rest self3 r)) as (v & self4 & -> & Hs4 & Hn4).
        { cbn [rest set_rest]. lia. }
        cbn [rest set_rest] in *. pose proof (Suffix_length _ _ Hs4) as Hl4.
        exists v, self4. split; [done|].
        split; [eapply Suffix_trans; [exact Hs4|]; eapply Suffix_trans;
                [apply Suffix_cons|exact Hs13]|].
        split.
        - intros H. apply Hn4; [constructor|].
          apply (Suffix_NoAt _ _ Hs13) in H. eauto with parser.
        - intros _. lia. }
      destruct (eqc c "<") eqn:Elt.
      { apply eqc_eq in Elt. subst c.
        destruct (getrouteaddr_spec f self3 r Hr3)
          as (a & self4 & -> & Hs4 & Hlt4 & Hn4).
        { rewrite Hr3. cbn [String.length]. lia. }
        rewrite Hr3 in *. cbn [String.length] in Hlt4. cbn [email_utils.bind].
        assert (Suffix (rest self4) (rest self)) by (by eapply Suffix_trans).
        assert (NoAt (rest self) -> NoAt a).
        { intros H'. apply Hn4. by eapply Suffix_NoAt. }
        destruct (nonempty (commentlist self4)); eexists _, self4;
          (split; [done|]); (split; [done|]);
          (split; [intros H'; constructor; [by apply H0|constructor] | intros _; lia]). }
      destruct plist as [|p pl].
      - destruct (char_in c specials) eqn:Esp.
        + exists [], (set_rest self3 r). cbn [rest set_rest]. split; [done|].
          split; [eapply Suffix_trans; [apply Suffix_cons|exact Hs13]|].
          split; [constructor|]. intros _. lia.
        + exists [], self3. rewrite Hr3. split; [done|]. split; [done|].
          split; [constructor|]. intros Hne.
          destruct (rest self) as [|c0 r0] eqn:Hr; [done|].
          destruct (K c0 r0 eq_refl) as [H|[(H1 & H2 & H3)|(H1 & H2 & H3 & H4)]].
          * cbn [String.length] in *. lia.
          * cbn [String.length] in *. lia.
          * subst self3. rewrite H1 in Hr3. injection Hr3 as -> ->.
            apply stop9_specials in H2. congruence.
      - eexists _, self3. rewrite Hr3. split; [done|]. split; [done|]. split.
        + intros H. specialize (HNp H). constructor; [|constructor].
          by inversion HNp.
        + intros Hne. destruct (rest self) as [|c0 r0] eqn:Hr; [done|].
          destruct (K c0 r0 eq_refl) as [H|[(H1 & H2 & H3)|(H1 & H2 & H3 & H4)]].
          * cbn [String.length] in *. lia.
          * cbn [String.length] in *. lia.
          * done. }
    destruct Hshape as (rl & self4 & -> & Hs4 & Hn4 & Hlt4).
    cbn [email_utils.bind]. pose proof (Suffix_length _ _ Hs4) as Hl4.
    destruct (finish_spec f rl self4) as (self5 & -> & Hs5); [lia|].
    pose proof (Suffix_length _ _ Hs5) as Hl5.
    exists rl, self5. split; [done|]. split; [by eapply Suffix_trans|].
    split; [done|]. intros Hne. specialize (Hlt4 Hne). lia.
  - intros rl self Hf. rewrite getaddress_group_eq.
    destruct (rest self) as [|c r] eqn:Hr.
    { exists rl, self. rewrite Hr. repeat split; auto with parser. }
    rewrite <- Hr in *.
    assert (Hn : 0 < String.length (rest self)) by (rewrite Hr; apply length_pos).
    destruct (gotonext_spec f self) as (ws1 & self1 & -> & Hs1 & _); [lia|].
    cbn [email_utils.bind]. pose proof (Suffix_length _ _ Hs1) as Hl1.
    assert (Hmember : exists v self',
      email_utils.bind (getaddress f self1) (fun ad self =>
        getaddress_group f (rl ++ ad) self) = Done v self'
      /\ Suffix (rest self') (rest self)
      /\ (Forall NoAtAddr rl -> NoAt (rest self) -> Forall NoAtAddr v)).
    { destruct (IHa self1) as (ad & self2 & -> & Hs2 & Hn2 & Hlt2); [lia|].
      cbn [email_utils.bind]. pose proof (Suffix_length _ _ Hs2) as Hl2.
      assert (String.length (rest self2) < String.length (rest self)).
      { destruct (rest self1) eqn:E1.
        - apply Suffix_length in Hs2. cbn in *. lia.
        - assert (String.length (rest self2) < String.length (String a s))
            by (by apply Hlt2).
          lia. }
      destruct (IHg (rl ++ ad) self2) as (v & self' & -> & Hs & Hn'); [lia|].
      exists v, self'. split; [done|].
      split; [eapply Suffix_trans; [exact Hs|]; by eapply Suffix_trans|].
      intros H1 H2. apply (Suffix_NoAt _ _ Hs1) in H2.
      apply Hn'; [|by eapply Suffix_NoAt]. apply Forall_app. auto. }
    cbv zeta. destruct (rest self1) as [|c1 r1] eqn:Hr1; [exact Hmember|].
    destruct (eqc c1 ";"); [|exact Hmember].
    exists rl, (set_rest self1 r1). cbn [rest set_rest]. split; [done|].
    split; [eapply Suffix_trans; [apply Suffix_cons|done]|]. auto.
Qed.

(** getaddrlist and parseaddr *)
Lemma getaddrlist_loop_eq fuel result self :
  getaddrlist_loop (S fuel) result self =
  match rest self with
  | EmptyString => Done result self
  | String _ _ =>
      email_utils.bind (getaddress fuel self) (fun ad self =>
      getaddrlist_loop fuel
        (if nonempty ad then result ++ ad else result ++ [("", "")]) self)
  end.
Proof. reflexivity. Qed.

Lemma getaddrlist_loop_spec fuel : forall result self,
  2 * String.length (rest self) + 3 <= fuel ->
  exists v self', getaddrlist_loop fuel result self = Done v self'
    /\ (Forall NoAtAddr result -> NoAt (rest self) -> Forall NoAtAddr v).
Proof.
  induction fuel as [|f IH]; intros result self Hf; [lia|].
  rewrite getaddrlist_loop_eq. destruct (rest self) as [|c r] eqn:Hr.
  { exists result, self. auto. }
  rewrite <- Hr in *.
  destruct (proj1 (getaddress_spec f) self) as (ad & self1 & -> & Hs1 & Hn1 & Hlt1);
    [lia|].
  cbn [email_utils.bind].
  assert (String.length (rest self1) < String.length (rest self)).
  { apply Hlt1. by rewrite Hr. }
  destruct (IH (if nonempty ad then result ++ ad else result ++ [("", "")]) self1)
    as (v & self' & -> & Hn); [lia|].
  exists v, self'. split; [done|]. intros H1 H2.
  apply Hn; [|by eapply Suffix_NoAt].
  destruct (nonempty ad); apply Forall_app; split; auto.
  by constructor.
Qed.

Lemma AddressList_on_spec fuel field :
  2 * String.length field + 3 <= fuel ->
  exists v self', AddressList_on fuel field = Done v self'
    /\ (NoAt field -> Forall NoAtAddr v).
Proof.
  intros Hf. unfold AddressList_on. destruct (truthy field).
  - destruct (getaddrlist_loop_spec fuel [] (mkSelf field []))
      as (v & self' & -> & Hn); [cbn [rest]; lia|].
    exists v, self'. split; [done|]. intros H. apply Hn; [constructor|done].
  - eexists _, _. split; [done|]. constructor.
Qed.

Lemma NoAt_pre_parse_validation v :
  NoAt v -> NoAt (_pre_parse_validation v).
Proof. intros H. unfold _pre_parse_validation. by destruct (negb _). Qed.

Lemma NoAt_post_parse_validation l :
  Forall NoAtAddr l -> Forall NoAtAddr (_post_parse_validation l).
Proof.
  intros H. unfold _post_parse_validation. apply Forall_map.
  eapply Forall_impl; [exact H|]. intros a Ha. cbn.
  by destruct (char_in "[" a.2).
Qed.

(** The fuel of [parseaddr] is enough, and the parser runs to its end. *)
Lemma parse_enough addr :
  exists self,
    parseaddr_on (fuel_for (_pre_parse_validation addr)) addr
    = Done (parseaddr addr) self.
Proof.
  unfold parseaddr. unfold parseaddr_on at 2. unfold parseaddr_on.
  destruct (AddressList_on_spec (fuel_for (_pre_parse_validation addr))
    (_pre_parse_validation addr)) as (v & self' & -> & _).
  { unfold fuel_for. lia. }
  cbn [email_utils.bind].
  destruct (_post_parse_validation v) as [|a [|b l]]; eauto.
Qed.

(** An address without [@] comes out without [@]. *)
Lemma parseaddr_NoAt addr : NoAt addr -> NoAt (snd (parseaddr addr)).
Proof.
  intros H. unfold parseaddr, parseaddr_on.
  destruct (AddressList_on_spec (fuel_for (_pre_parse_validation addr))
    (_pre_parse_validation addr)) as (v & self' & -> & Hn).
  { unfold fuel_for. lia. }
  cbn [email_utils.bind].
  specialize (Hn (NoAt_pre_parse_validation _ H)).
  apply NoAt_post_parse_validation in Hn.
  destruct (_post_parse_validation v) as [|a [|b l]]; [done| |done].
  by inversion Hn.
Qed.

End parser_facts.

(** ** Runs of the scanner and of the sender *)

Module world_facts.
Import Py World main scan_inv.

Lemma SaveAsFile_run att p s :
  SaveAsFile att p s =
  match SaveAsFile_error att p with
  | Some e => (Raise e, state_after_save_call att p s)
  | None =>
      (Ok tt, set_fs (write_file p (att_content att))
                (state_after_save_call att p s))
  end.
Proof. unfold SaveAsFile. cbn. by destruct (SaveAsFile_error att p). Qed.

Lemma download_attachment_run env att output_dir allowed_file_types s n :
  FileName att = Ok n ->
  download_attachment env att output_dir allowed_file_types s =
  if allowed allowed_file_types n then
    let p := ntpath.join output_dir [n] in
    let s1 := state_after_save_call att p s in
    match SaveAsFile_error att p with
    | Some e =>
        (Ok None,
         mkState (fs s1)
           (log s1 ++ [(ERROR, "Error saving attachment " +:+ n +:+ ": "
                                 +:+ exn_text e)])
           (outbox s1) (uuids s1) (emails s1) (trace s1))
    | None =>
        (Ok (Some (mkDetail p n (uuid4 env (uuids s)))),
         mkState (write_file p (att_content att) (fs s))
           (log s ++ [(INFO, "Attachment " +:+ n +:+ " saved")])
           (outbox s) (S (uuids s)) (emails s) (trace s1))
    end
  else (Ok None, s).
Proof.
  intros Hn. unfold download_attachment, allowed.
  unfold World.bind at 1. unfold lift. rewrite Hn.
  destruct (_ || _); [|done].
  unfold try_except, World.bind. rewrite SaveAsFile_run.
  by destruct (SaveAsFile_error att _).
Qed.

Lemma grows_refl f : grows f f.
Proof. by split. Qed.

Lemma grows_trans f1 f2 f3 : grows f1 f2 -> grows f2 f3 -> grows f1 f3.
Proof. intros [H1 H2] [H3 H4]. split; [congruence | auto]. Qed.

Lemma grows_isdir f f' p : grows f f' -> isdir f' p = isdir f p.
Proof. intros [H _]. unfold isdir. by rewrite H. Qed.

Lemma grows_write p c f : grows f (write_file p c f).
Proof.
  split; [done|]. intros q Hq. cbn.
  destruct (decide (p = q)) as [->|Hne].
  - rewrite lookup_insert_eq. eauto.
  - by rewrite lookup_insert_ne.
Qed.

Lemma inner_refl fp s : inner fp s s.
Proof.
  split; [apply grows_refl|]. split; [done|]. split; [done|].
  exists []. rewrite app_nil_r. auto.
Qed.

Lemma inner_trans fp s1 s2 s3 : inner fp s1 s2 -> inner fp s2 s3 -> inner fp s1 s3.
Proof.
  intros (G1 & O1 & E1 & evs1 & T1 & S1 & D1) (G2 & O2 & E2 & evs2 & T2 & S2 & D2).
  split; [by eapply grows_trans|]. split; [congruence|]. split; [congruence|].
  exists (evs1 ++ evs2). split; [by rewrite T2, T1, app_assoc|].
  split; [by rewrite forallb_app, S1, S2|].
  intros H. apply Forall_app. split; [auto|]. apply D2.
  by rewrite (grows_isdir _ _ _ G1).
Qed.

Lemma inner_log fp s l msg : inner fp s (logging l msg s).2.
Proof.
  cbn. split; [apply grows_refl|]. split; [done|]. split; [done|].
  exists []. rewrite app_nil_r. auto.
Qed.

Lemma download_attachment_inner env att fp aft s :
  inner fp s (download_attachment env att fp aft s).2.
Proof.
  destruct (FileName att) as [n|e] eqn:Hn.
  - rewrite (download_attachment_run _ _ _ _ _ _ Hn).
    destruct (allowed aft n); [|apply inner_refl]. cbv zeta.
    assert (Hev : forall s', trace s' = trace s ++ [SaveAsFile_call (ntpath.join fp [n]) (fs s)] ->
      exists evs, trace s' = trace s ++ evs /\ forallb is_save evs = true
        /\ (isdir (fs s) fp = true -> Forall (good_event fp) evs)).
    { intros s' ->. eexists. split; [done|]. split; [done|].
      intros H. constructor; [|constructor]. split; [done|]. by exists n. }
    destruct (SaveAsFile_error att _); cbn.
    + split; [apply grows_refl|]. split; [done|]. split; [done|]. by apply Hev.
    + split; [apply grows_write|]. split; [done|]. split; [done|]. by apply Hev.
  - unfold download_attachment, World.bind, lift. rewrite Hn. apply inner_refl.
Qed.

Lemma detail_ok_grows fp f f' d : grows f f' -> detail_ok fp f d -> detail_ok fp f' d.
Proof. intros [_ G] [H1 H2]. split; auto. Qed.

Lemma download_attachment_detail env att fp aft s d s' :
  download_attachment env att fp aft s = (Ok (Some d), s') ->
  detail_ok fp (fs s') d
  /\ FileName att = Ok (name d)
  /\ files (fs s') !! path d = Some (att_content att)
  /\ allowed aft (name d) = true
  /\ SaveAsFile_error att (path d) = None
  /\ trace s' = trace s ++ [SaveAsFile_call (path d) (fs s)].
Proof.
  destruct (FileName att) as [n|e] eqn:Hn.
  - rewrite (download_attachment_run _ _ _ _ _ _ Hn).
    destruct (allowed aft n) eqn:Ha; [|discriminate]. cbv zeta.
    destruct (SaveAsFile_error att _) eqn:He; [discriminate|].
    intros [= <- <-]. cbn. rewrite lookup_insert_eq. unfold detail_ok. cbn.
    rewrite lookup_insert_eq. eauto 10.
  - unfold download_attachment, World.bind, lift. rewrite Hn. discriminate.
Qed.

Lemma download_attachment_result env att fp aft s :
  (fetch_ok fp aft att = true
   /\ exists d, (download_attachment env att fp aft s).1 = Ok (Some d)
        /\ name d = declared_name att
        /\ path d = ntpath.join fp [declared_name att])
  \/ (fetch_ok fp aft att = false
      /\ forall d, (download_attachment env att fp aft s).1 <> Ok (Some d)).
Proof.
  unfold fetch_ok, declared_name. destruct (FileName att) as [n|e] eqn:Hn.
  - rewrite (download_attachment_run _ _ _ _ _ _ Hn).
    destruct (allowed aft n); [|right; by split]. cbv zeta.
    destruct (SaveAsFile_error att _); [right; by split|].
    left. split; [done|]. eexists. by split.
  - right. split; [done|]. intros d.
    unfold download_attachment, World.bind, lift. by rewrite Hn.
Qed.

Lemma successes_cons_Some d futures :
  successes (Ok (Some d) :: futures) = d :: successes futures.
Proof. reflexivity. Qed.

Lemma submit_all_spec env fp aft atts : forall s,
  exists futures s',
    submit_all env atts fp aft s = (Ok futures, s')
    /\ inner fp s s'
    /\ length futures = length atts
    /\ map name (successes futures) = map declared_name (fetched fp aft atts)
    /\ map path (successes futures)
       = map (fun a => ntpath.join fp [declared_name a]) (fetched fp aft atts)
    /\ Forall (detail_ok fp (fs s')) (successes futures).
Proof.
  induction atts as [|att atts IH]; intros s.
  - exists [], s. cbn. split; [done|]. split; [apply inner_refl|].
    repeat split; auto.
  - cbn [submit_all]. unfold World.bind at 1.
    pose proof (download_attachment_inner env att fp aft s) as Hi.
    pose proof (download_attachment_result env att fp aft s) as Hr.
    pose proof (download_attachment_detail env att fp aft s) as Hd.
    destruct (download_attachment env att fp aft s) as [r s1] eqn:E.
    cbn [fst snd] in *.
    destruct (IH s1) as (futures & s' & E' & Hi' & Hlen & Hname & Hpath & Hok).
    unfold World.bind. rewrite E'. unfold ret.
    exists (r :: futures), s'. split; [done|].
    split; [by eapply inner_trans|]. split; [cbn; lia|].
    unfold fetched in *. rewrite filter_cons.
    destruct Hr as [(Hf & d & -> & Hn & Hp) | (Hf & Hnone)].
    + rewrite decide_True by done. rewrite successes_cons_Some.
      cbn [map]. rewrite Hn, Hp, Hname, Hpath.
      split; [done|]. split; [done|]. constructor; [|done].
      destruct (Hd d s1 eq_refl) as (Hd1 & _).
      destruct Hi' as (G & _). by eapply detail_ok_grows.
    + rewrite decide_False by (rewrite Hf; done).
      assert (successes (r :: futures) = successes futures) as ->; [|done].
      unfold successes. cbn. destruct r as [[d|]|]; try done.
      by destruct (Hnone d).
Qed.

Lemma collect_spec fp futures : forall acc s,
  exists s', collect futures acc s = (Ok (acc ++ successes futures), s')
    /\ inner fp s s' /\ fs s' = fs s.
Proof.
  induction futures as [|r futures IH]; intros acc s.
  - exists s. cbn. rewrite app_nil_r. split; [done|]. split; [apply inner_refl|done].
  - cbn [collect]. unfold World.bind at 1, try_except, World.bind, lift.
    destruct r as [[d|]|e]; cbn.
    + destruct (IH (acc ++ [d]) s) as (s' & -> & Hi & Hf).
      exists s'. by rewrite <- app_assoc.
    + destruct (IH acc s) as (s' & -> & Hi & Hf). by exists s'.
    + destruct (IH acc (logging ERROR ("Error saving attachment: " +:+ exn_text e) s).2)
        as (s' & E & Hi & Hf).
      cbn in E. rewrite E. exists s'. split; [done|]. split; [|done].
      eapply inner_trans; [|exact Hi]. apply inner_log.
Qed.

Lemma process_email_eq env msg fp aft s :
  process_email env msg fp aft s =
  let s0 :=
    mkState (fs s) (log s) (outbox s) (uuids s) (emails s)
      (trace s ++ [process_email_call msg]) in
  match Attachments msg with
  | Raise e => handled e s0
  | Ok atts =>
      match submit_all env atts fp (or_empty aft) s0 with
      | (Raise e, s1) => handled e s1
      | (Ok futures, s1) =>
          match collect futures [] s1 with
          | (Raise e, s2) => handled e s2
          | (Ok files, s2) =>
              match read_headers msg files with
              | Raise e => handled e s2
              | Ok rec => (Ok tt, append_email rec s2)
              end
          end
      end
  end.
Proof.
  unfold process_email, World.bind, try_except, lift, emit, modify, handled.
  cbn [fst snd]. fold (or_empty aft).
  destruct (Attachments msg) as [atts|e]; [|done].
  destruct (submit_all env atts fp (or_empty aft) _) as [[futures|e] s1]; [|done].
  destruct (collect futures [] s1) as [[files|e] s2]; [|done].
  unfold read_headers.
  destruct (Subject msg); [|done]. destruct (ConversationID msg); [|done].
  destruct (Sender_PrimarySmtpAddress msg); [|done].
  destruct (Sender_Name msg); [|done]. by destruct (Body msg).
Qed.

Lemma process_email_run env msg fp aft s :
  exists s1,
    inner fp
      (mkState (fs s) (log s) (outbox s) (uuids s) (emails s)
         (trace s ++ [process_email_call msg])) s1
    /\ ((exists e, process_email env msg fp aft s = handled e s1
         /\ (Attachments msg = Raise e
             \/ exists files, read_headers msg files = Raise e))
        \/ (exists atts files rec,
             Attachments msg = Ok atts
             /\ read_headers msg files = Ok rec
             /\ process_email env msg fp aft s = (Ok tt, append_email rec s1)
             /\ map name files
                = map declared_name (fetched fp (or_empty aft) atts)
             /\ map path files
                = map (fun a => ntpath.join fp [declared_name a])
                    (fetched fp (or_empty aft) atts)
             /\ Forall (detail_ok fp (fs s1)) files)).
Proof.
  rewrite process_email_eq. cbv zeta. set (s0 := mkState _ _ _ _ _ _).
  destruct (Attachments msg) as [atts|e] eqn:Ha.
  2:{ exists s0. split; [apply inner_refl|]. left. exists e. split; [done|]. by left. }
  destruct (submit_all_spec env fp (or_empty aft) atts s0)
    as (futures & s1 & -> & Hi1 & _ & Hname & Hpath & Hok).
  destruct (collect_spec fp futures [] s1) as (s2 & -> & Hi2 & Hfs).
  cbn [app]. exists s2. split; [by eapply inner_trans|].
  destruct (read_headers msg (successes futures)) as [rec|e] eqn:Hh.
  - right. exists atts, (successes futures), rec. rewrite Hfs. auto 10.
  - left. exists e. split; [done|]. right. eauto.
Qed.

Lemma wanted_run include_read msg s :
  wanted include_read msg s
  = (if include_read then Ok true else UnRead msg, s).
Proof.
  unfold wanted, World.bind, lift, ret. destruct include_read; [done|]. cbn.
  destruct (UnRead msg); [|done]. by rewrite orb_false_r.
Qed.

Lemma handed_on_saves evs : forallb is_save evs = true -> handed_on evs = [].
Proof.
  induction evs as [|ev evs IH]; [done|]. cbn. intros H.
  apply andb_true_iff in H as [H1 H2]. destruct ev; try done. by apply IH.
Qed.

Lemma handed_on_app a b : handed_on (a ++ b) = handed_on a ++ handed_on b.
Proof. unfold handed_on. by rewrite omap_app. Qed.

Lemma records_ok_grows fp s s' :
  grows (fs s) (fs s') -> emails s' = emails s ->
  records_ok fp s -> records_ok fp s'.
Proof.
  intros G E H. unfold records_ok in *. rewrite E.
  eapply Forall_impl; [exact H|]. intros rec Hrec.
  eapply Forall_impl; [exact Hrec|]. intros d. by apply detail_ok_grows.
Qed.

Lemma process_email_outer env msg fp aft s :
  exists s' evs,
    process_email env msg fp aft s = (Ok tt, s')
    /\ outer fp s s' evs
    /\ handed_on evs = [msg].
Proof.
  destruct (process_email_run env msg fp aft s) as (s1 & Hi & Hcases).
  destruct Hi as (G & O & E & evs & T & S & D). cbn in *.
  assert (Hev : handed_on (process_email_call msg :: evs) = [msg]).
  { change (handed_on ([process_email_call msg] ++ evs) = [msg]).
    by rewrite handed_on_app, (handed_on_saves evs S). }
  assert (HD : isdir (fs s) fp = true ->
          Forall (good_event fp) (process_email_call msg :: evs)).
  { intros H. constructor; [done|auto]. }
  assert (HT : trace s1 = trace s ++ process_email_call msg :: evs).
  { by rewrite T, <- app_assoc. }
  destruct Hcases as [(e & -> & _) | (atts & files & rec & _ & Hh & -> & _ & _ & Hok)].
  - eexists _, _. split; [done|]. split; [|exact Hev]. cbn.
    split; [done|]. split; [done|]. split; [done|]. split; [done|].
    intros H. unfold records_ok in *. cbn. rewrite E.
    eapply Forall_impl; [exact H|]. intros r Hr.
    eapply Forall_impl; [exact Hr|]. intros d. by apply detail_ok_grows.
  - eexists _, _. split; [done|]. split; [|exact Hev]. cbn.
    split; [done|]. split; [done|]. split; [done|]. split; [done|].
    intros H. unfold records_ok in *. cbn. rewrite E.
    apply Forall_app. split.
    + eapply Forall_impl; [exact H|]. intros r Hr.
      eapply Forall_impl; [exact Hr|]. intros d. by apply detail_ok_grows.
    + constructor; [|constructor].
      unfold read_headers in Hh.
      destruct (Subject msg); [|done]. destruct (ConversationID msg); [|by destruct (Sender_PrimarySmtpAddress msg), (Sender_Name msg), (Body msg)].
      destruct (Sender_PrimarySmtpAddress msg); [|by destruct (Sender_Name msg), (Body msg)].
      destruct (Sender_Name msg); [|by destruct (Body msg)].
      destruct (Body msg); [|done]. injection Hh as <-. exact Hok.
Qed.

Lemma outer_refl fp s : outer fp s s [].
Proof.
  split; [apply grows_refl|]. split; [done|]. split; [by rewrite app_nil_r|].
  split; [constructor|done].
Qed.

Lemma outer_trans fp s1 s2 s3 evs1 evs2 :
  outer fp s1 s2 evs1 -> outer fp s2 s3 evs2 -> outer fp s1 s3 (evs1 ++ evs2).
Proof.
  intros (G1 & O1 & T1 & D1 & R1) (G2 & O2 & T2 & D2 & R2).
  split; [by eapply grows_trans|]. split; [congruence|].
  split; [by rewrite T2, T1, app_assoc|]. split; [|auto].
  intros H. apply Forall_app. split; [auto|]. apply D2.
  by rewrite (grows_isdir _ _ _ G1).
Qed.

Lemma for_messages_spec env include_read fp aft messages : forall s,
  exists r s' evs,
    for_messages env include_read fp aft messages s = (r, s')
    /\ outer fp s s' evs
    /\ handed_on evs
       = filter (fun m => passes include_read m = true)
           (reached include_read messages).
Proof.
  induction messages as [|msg messages IH]; intros s.
  - exists (Ok tt), s, []. split; [done|]. split; [apply outer_refl|done].
  - cbn [for_messages reached]. unfold World.bind at 1. rewrite wanted_run.
    assert (Hpass : forall s0,
      passes include_read msg = true ->
      (if include_read then reached include_read messages
       else match UnRead msg with
            | Ok _ => reached include_read messages
            | Raise _ => []
            end) = reached include_read messages ->
      exists r s' evs,
        (World.bind
           (try_except (process_email env msg fp aft)
              (fun e => logging ERROR
                 ("Error processing individual email: " +:+ exn_text e)))
           (fun _ => for_messages env include_read fp aft messages)) s0
        = (r, s')
        /\ outer fp s0 s' evs
        /\ handed_on evs
           = filter (fun m => passes include_read m = true)
               (msg :: (if include_read then reached include_read messages
                        else match UnRead msg with
                             | Ok _ => reached include_read messages
                             | Raise _ => []
                             end))).
    { intros s0 Hp ->. rewrite filter_cons_True by done.
      unfold World.bind at 1, try_except.
      destruct (process_email_outer env msg fp aft s0) as (s1 & evs1 & -> & Ho1 & Hh1).
      destruct (IH s1) as (r & s' & evs & -> & Ho & Hh).
      exists r, s', (evs1 ++ evs). split; [done|].
      split; [by eapply outer_trans|]. by rewrite handed_on_app, Hh1, Hh. }
    destruct include_read; [by apply Hpass|].
    destruct (UnRead msg) as [[|]|e] eqn:EU.
    + apply Hpass; [|done]. unfold passes, is_unread. by rewrite EU.
    + rewrite filter_cons_False.
      2:{ unfold passes, is_unread. by rewrite EU. }
      unfold World.bind at 1, ret.
      destruct (IH s) as (r & s' & evs & -> & Ho & Hh).
      by exists r, s', evs.
    + rewrite filter_cons_False.
      2:{ unfold passes, is_unread. by rewrite EU. }
      exists (Raise e), s, []. split; [done|]. split; [apply outer_refl|done].
Qed.

Lemma create_folder_run env output_dir s :
  create_folder env output_dir s = (resolve env output_dir, s).
Proof.
  unfold create_folder, resolve, World.bind, lift, ret.
  destruct (Dispatch_WScript_Shell env); [|done].
  by destruct (SpecialFolders_MyDocuments env).
Qed.

Lemma ensure_run env fp s :
  ensure env fp s =
  if negb (isdir (fs s) fp) then
    World.bind (makedirs env fp) (fun _ =>
      logging INFO ("Created directory: " +:+ fp)) s
  else (Ok tt, s).
Proof. unfold ensure, World.bind at 1. cbn [get]. by destruct (negb _). Qed.

Lemma get_emails_eq env email subject folder_name output_dir aft ir since s :
  get_emails env email subject folder_name output_dir aft ir since s =
  match resolve env output_dir with
  | Raise e => (Raise e, clear_emails s)
  | Ok folderPath =>
      match ensure env folderPath (clear_emails s) with
      | (Raise e, s1) => (Raise e, s1)
      | (Ok _, s1) =>
          if negb (is_valid_email email) then
            World.bind
              (logging ERROR ("Invalid email addresses provided: " +:+ email))
              (fun _ => return_emails) s1
          else scan env subject folder_name folderPath aft ir since s1
      end
  end.
Proof.
  unfold get_emails. unfold World.bind at 1. cbn [set_emails modify].
  fold (clear_emails s). unfold World.bind at 1. rewrite create_folder_run.
  destruct (resolve env output_dir) as [fp|e]; [|done].
  rewrite ensure_run.
  unfold World.bind at 1. cbn [get]. unfold World.bind at 1.
  destruct (negb (isdir (fs (clear_emails s)) fp)).
  - destruct (World.bind (makedirs env fp) _ (clear_emails s)) as [[u|e] s1]; [|done].
    by destruct (negb (is_valid_email email)).
  - unfold ret at 1. by destruct (negb (is_valid_email email)).
Qed.

Lemma ensure_spec env fp s :
  match ensure env fp s with
  | (Raise e, s1) =>
      isdir (fs s) fp = false /\ makedirs_error env fp (fs s) = Some e
      /\ trace s1 = trace s ++ [makedirs_call fp] /\ fs s1 = fs s
      /\ emails s1 = emails s
  | (Ok _, s1) =>
      isdir (fs s1) fp = true
      /\ (isdir (fs s) fp = true \/ makedirs_error env fp (fs s) = None)
      /\ emails s1 = emails s /\ outbox s1 = outbox s
      /\ files (fs s1) = files (fs s)
      /\ trace s1
         = trace s ++ (if isdir (fs s) fp then [] else [makedirs_call fp])
  end.
Proof.
  rewrite ensure_run. destruct (isdir (fs s) fp) eqn:Hd; cbn [negb].
  - rewrite Hd. rewrite app_nil_r. auto 10.
  - unfold World.bind at 1, makedirs, World.bind at 1. cbn [emit modify].
    unfold World.bind at 1. cbn [get fs].
    destruct (makedirs_error env fp (fs s)) as [e|] eqn:He; cbn.
    + auto.
    + unfold isdir. cbn. rewrite bool_decide_eq_true.
      split; [set_solver|]. auto 10.
Qed.

Lemma outer_log fp s l msg : outer fp s (logging l msg s).2 [].
Proof.
  cbn. split; [apply grows_refl|]. split; [done|].
  split; [by rewrite app_nil_r|]. split; [constructor|done].
Qed.

Lemma find_folder_spec folders folder_name s :
  exists r, find_folder folders folder_name s = (r, s)
    /\ forall f, r = Ok (Some f) -> In f folders /\ Name f = Ok folder_name.
Proof.
  induction folders as [|f folders IH].
  - exists (Ok None). split; [done|]. discriminate.
  - cbn [find_folder]. unfold World.bind at 1, lift.
    destruct (Name f) as [n|e] eqn:Hn.
    + destruct (String.eqb n folder_name) eqn:E.
      * exists (Ok (Some f)). split; [done|]. intros f' [= <-].
        apply String.eqb_eq in E. subst. split; [by left|done].
      * destruct IH as (r & -> & H). exists r. split; [done|].
        intros f' Hf. destruct (H f' Hf). split; [by right|done].
    + exists (Raise e). split; [done|]. discriminate.
Qed.

Lemma scan_body_spec env subject folder_name fp aft ir since s :
  exists r s' evs,
    scan_body env subject folder_name fp aft ir since s = (r, s')
    /\ outer fp s s' evs
    /\ (~ names_child env folder_name ->
        evs = [] /\ emails s' = emails s /\ fs s' = fs s).
Proof.
  unfold scan_body.
  assert (Hstop : forall (r : res bool),
    exists r0 s' evs, (r, s) = (r0, s') /\ outer fp s s' evs
      /\ (~ names_child env folder_name ->
          evs = [] /\ emails s' = emails s /\ fs s' = fs s)).
  { intros r. exists r, s, []. split; [done|]. split; [apply outer_refl|done]. }
  unfold World.bind at 1, lift at 1.
  destruct (Dispatch_Outlook env); [|apply Hstop].
  unfold World.bind at 1, lift at 1.
  destruct (GetNamespace_MAPI env); [|apply Hstop].
  unfold World.bind at 1, lift at 1.
  destruct (Inbox_Folders env) as [folders|e] eqn:Hfolders; [|apply Hstop].
  unfold World.bind at 1.
  destruct (find_folder_spec folders folder_name s) as (r & -> & Hfound).
  destruct r as [[found|]|e]; [| |apply Hstop].
  2:{ eexists _, _, []. split; [done|]. split; [apply outer_log|done]. }
  destruct (Hfound found eq_refl) as [Hin Hname].
  assert (Hchild : names_child env folder_name) by (by exists folders, found).
  assert (Hstop' : forall (r : res bool),
    exists r0 s' evs, (r, s) = (r0, s') /\ outer fp s s' evs
      /\ (~ names_child env folder_name ->
          evs = [] /\ emails s' = emails s /\ fs s' = fs s)).
  { intros r. exists r, s, []. split; [done|]. split; [apply outer_refl|done]. }
  unfold World.bind at 1, lift at 1.
  destruct (Folder_Items found); [|apply Hstop'].
  unfold World.bind at 1, lift at 1.
  destruct (Restrict _ _) as [messages|]; [|apply Hstop'].
  unfold World.bind at 1.
  assert (Hrest : forall messages,
    exists r0 s' evs,
      World.bind (lift (Sort messages "[ReceivedTime]" true)) (fun messages =>
      World.bind (lift (elements messages)) (fun msgs =>
      World.bind (for_messages env ir fp aft msgs) (fun _ => ret false))) s
      = (r0, s')
      /\ outer fp s s' evs
      /\ (~ names_child env folder_name ->
          evs = [] /\ emails s' = emails s /\ fs s' = fs s)).
  { intros m. unfold World.bind at 1, lift at 1.
    destruct (Sort m _ _) as [m'|]; [|apply Hstop'].
    unfold World.bind at 1, lift at 1.
    destruct (elements m') as [msgs|]; [|apply Hstop'].
    unfold World.bind at 1.
    destruct (for_messages_spec env ir fp aft msgs s) as (r & s' & evs & -> & Ho & _).
    destruct r; eexists _, s', evs; (split; [done|]); (split; [done|]);
      intros Hn; by destruct Hn. }
  destruct since as [since|].
  - unfold lift at 1. destruct (Restrict messages _); [apply Hrest | apply Hstop'].
  - unfold ret at 1. apply Hrest.
Qed.

Lemma scan_spec env subject folder_name fp aft ir since s :
  exists s' evs,
    scan env subject folder_name fp aft ir since s = (Ok (emails s'), s')
    /\ outer fp s s' evs
    /\ (~ names_child env folder_name ->
        evs = [] /\ emails s' = emails s /\ fs s' = fs s).
Proof.
  unfold scan. unfold World.bind at 1, try_except.
  destruct (scan_body_spec env subject folder_name fp aft ir since s)
    as (r & s1 & evs & -> & Ho & Hn).
  assert (Hlog : forall l msg,
    exists s' evs0,
      World.bind (logging l msg) (fun _ => return_emails) s1
      = (Ok (emails s'), s')
      /\ outer fp s s' evs0
      /\ (~ names_child env folder_name ->
          evs0 = [] /\ emails s' = emails s /\ fs s' = fs s)).
  { intros l msg. eexists _, evs. split; [reflexivity|]. split; [|exact Hn].
    rewrite <- (app_nil_r evs). eapply outer_trans; [exact Ho|].
    apply (outer_log fp s1 l msg). }
  destruct r as [[|]|e].
  - exists s1, evs. split; [done|]. split; [done|exact Hn].
  - unfold World.bind at 1. cbn [get]. apply Hlog.
  - unfold World.bind at 1. cbn [logging modify]. unfold World.bind at 1, ret.
    unfold World.bind at 1. cbn [get].
    eexists _, evs. split; [reflexivity|]. cbn. split; [|exact Hn].
    destruct Ho as (G & O & T & D & R). repeat split; auto; apply G.
Qed.

Lemma send_email_via_outlook_eq env to subject body attachments html_body
  cc bcc embedded_images s :
  send_email_via_outlook env to subject body attachments html_body cc bcc
    embedded_images s =
  match LOCALAPPDATA env with
  | None =>
      (Raise (mkExn TypeError
                "expected str, bytes or os.PathLike object, not NoneType"), s)
  | Some d =>
      let s1 := cache_cleared env d s in
      match EnsureDispatch env with
      | Raise e =>
          (Ok "Outlook is not installed or accessible.",
           (logging ERROR
              ((match exn_cls e with
                | com_error => "COM error when accessing Outlook: "
                | _ => "Unexpected error: "
                end) +:+ exn_text e) s1).2)
      | Ok _ =>
          if negb (is_valid_email to) then
            (Ok ("Invalid email addresses provided: " +:+ to), s1)
          else
            match compose env to subject body attachments html_body cc bcc
                    embedded_images s1 with
            | (Ok status, s2) => (Ok status, s2)
            | (Raise e, s2) =>
                (Ok ("Error sending email: " +:+ exn_text e),
                 (logging ERROR ("Error sending email: " +:+ exn_text e) s2).2)
            end
      end
  end.
Proof.
  unfold send_email_via_outlook, is_outlook_installed.
  unfold World.bind at 1. unfold World.bind at 1.
  destruct (LOCALAPPDATA env) as [d|]; [|done].
  cbn [modify]. fold (cache_cleared env d s).
  unfold try_except at 1. unfold World.bind at 1, lift at 1.
  destruct (EnsureDispatch env) as [u|e]; [|done].
  cbn [ret negb]. destruct (negb (is_valid_email to)); [done|].
  unfold try_except. fold (compose env to subject body attachments html_body
    cc bcc embedded_images).
  by destruct (compose _ _ _ _ _ _ _ _ _ _) as [[status|e] s2].
Qed.

Lemma bind_Ok {A B} (m : M A) (k : A -> M B) s v s' :
  World.bind m k s = (Ok v, s') ->
  exists a s1, m s = (Ok a, s1) /\ k a s1 = (Ok v, s').
Proof.
  unfold World.bind. destruct (m s) as [[a|e] s1]; [eauto|discriminate].
Qed.

Lemma compose_Ok env to subject body attachments html_body cc bcc
  embedded_images s status s' :
  compose env to subject body attachments html_body cc bcc embedded_images s
    = (Ok status, s') ->
  status = "Email sent successfully.".
Proof.
  unfold compose. intros H.
  repeat (apply bind_Ok in H as (? & ? & _ & H)).
  by injection H as <- _.
Qed.

(** With [LOCALAPPDATA] set, a status comes back, whatever fails later. *)
Lemma send_returns_status env to subject body attachments html_body cc bcc
  embedded_images s d :
  LOCALAPPDATA env = Some d ->
  exists status s',
    send_email_via_outlook env to subject body attachments html_body cc bcc
      embedded_images s = (Ok status, s')
    /\ ((exists e, EnsureDispatch env = Raise e) /\ status = not_installed
        \/ (is_valid_email to = false /\ status = invalid_address to)
        \/ (exists e, status = sending_failed e)
        \/ status = sent).
Proof.
  intros Hd. rewrite send_email_via_outlook_eq, Hd. cbv zeta.
  destruct (EnsureDispatch env) as [u|e].
  - destruct (is_valid_email to) eqn:Hv; cbn [negb].
    + destruct (compose _ _ _ _ _ _ _ _ _ _) as [[status|e] s2] eqn:E.
      * apply compose_Ok in E as ->. eexists _, _. split; [done|]. auto.
      * eexists _, _. split; [done|]. right. right. left. by exists e.
    + eexists _, _. split; [done|]. right. left. auto.
  - eexists _, _. split; [done|]. left. split; [by exists e|done].
Qed.

(** The four kinds of status are never the same string. *)
Lemma statuses_distinct to e :
  not_installed <> invalid_address to
  /\ not_installed <> sending_failed e
  /\ invalid_address to <> sending_failed e
  /\ sent <> not_installed
  /\ sent <> invalid_address to
  /\ sent <> sending_failed e.
Proof. repeat split; discriminate. Qed.

Lemma add_attachments_nil mail : add_attachments mail [] = mail.
Proof. destruct mail. unfold add_attachments. cbn. by rewrite app_nil_r. Qed.

Lemma add_log_nil s : add_log [] s = s.
Proof. destruct s. unfold add_log. cbn. by rewrite app_nil_r. Qed.

Lemma attach_files_spec env dicts : forall mail s,
  (forall c, mail_error env c = None) ->
  Forall (fun a : gmap string string => is_Some (a !! "path")) dicts ->
  attach_files env dicts mail s
  = (Ok (add_attachments mail (omap (attached_of env (fs s)) dicts)),
     add_log (omap (warning_of env (fs s)) dicts) s).
Proof.
  intros mail s Hok Hall. revert mail s.
  induction Hall as [|a dicts [p Hp] _ IH]; intros mail s.
  - cbn. by rewrite add_attachments_nil, add_log_nil.
  - cbn [attach_files omap list_omap]. unfold attached_of at 1, warning_of at 1.
    rewrite Hp. unfold World.bind at 1, ret at 1.
    unfold World.bind at 1. cbn [get].
    destruct (exists_ (fs s) (abspath env p)).
    + unfold World.bind at 1, perform. rewrite Hok. unfold ret at 1.
      rewrite IH. f_equal. f_equal.
      unfold add_attachments, attach. cbn. by rewrite <- app_assoc.
    + unfold World.bind at 1. cbn [logging modify]. rewrite IH. cbn [fs].
      f_equal. unfold add_log. cbn. by rewrite <- app_assoc.
Qed.

Lemma embed_images_spec env images : forall mail s,
  (forall c, mail_error env c = None) ->
  embed_images env images mail s
  = (Ok (add_attachments mail (map inline_image images)), s).
Proof.
  intros mail s Hok. revert mail.
  induction images as [|image_path images IH]; intros mail.
  - cbn. by rewrite add_attachments_nil.
  - cbn [embed_images map]. unfold World.bind at 1, perform at 1. rewrite Hok.
    unfold ret at 1. unfold World.bind at 1, perform at 1. rewrite Hok.
    unfold ret at 1. rewrite IH. f_equal. f_equal.
    unfold add_attachments, attach, inline_image. cbn. by rewrite <- app_assoc.
Qed.

Lemma compose_spec env to subject body attachments html_body cc bcc
  embedded_images s :
  Dispatch_Outlook env = Ok tt -> CreateItem env = Ok tt ->
  (forall c, mail_error env c = None) ->
  Forall (fun a : gmap string string => is_Some (a !! "path"))
    (or_nil attachments) ->
  compose env to subject body attachments html_body cc bcc embedded_images s
  = (Ok sent,
     mkState (fs s)
       (log s ++ omap (warning_of env (fs s)) (or_nil attachments)
          ++ [(INFO, "Email sent successfully.")])
       (outbox s
          ++ [composed env (fs s) to subject body attachments html_body cc
                bcc embedded_images])
       (uuids s) (emails s) (trace s)).
Proof.
  intros Hd Hc Hok Hall. unfold compose.
  unfold World.bind at 1, lift at 1. rewrite Hd.
  unfold World.bind at 1, lift at 1. rewrite Hc.
  unfold World.bind at 1, perform at 1. rewrite Hok. unfold ret at 1.
  unfold World.bind at 1, perform at 1. rewrite Hok. unfold ret at 1.
  assert (Hif : forall (l : option (list string)) f,
    if_list l (fun l => perform env (f l)) s = (Ok tt, s)).
  { intros [[|x l]|] f; try done. cbn. unfold perform. by rewrite Hok. }
  unfold World.bind at 1. rewrite (Hif cc Set_CC).
  unfold World.bind at 1. rewrite (Hif bcc Set_BCC).
  unfold World.bind at 1.
  assert ((if html_body then perform env (Set_HTMLBody body)
           else perform env (Set_Body body)) s = (Ok tt, s)) as ->.
  { destruct html_body; unfold perform; by rewrite Hok. }
  cbv zeta. fold (or_nil cc). fold (or_nil bcc).
  set (mail := mkMail _ _ _ _ _ _ []).
  unfold World.bind at 1.
  assert (match embedded_images with
          | Some (x :: l) => embed_images env (x :: l) mail
          | _ => ret mail
          end s
          = (Ok (add_attachments mail (map inline_image (or_nil embedded_images))), s))
    as ->.
  { destruct embedded_images as [[|x l]|]; cbn [or_nil map];
      rewrite ?add_attachments_nil; try done.
    by apply embed_images_spec. }
  unfold World.bind at 1.
  set (mail1 := add_attachments mail _).
  assert (match attachments with
          | Some (x :: l) => attach_files env (x :: l) mail1
          | _ => ret mail1
          end s
          = (Ok (add_attachments mail1 (omap (attached_of env (fs s)) (or_nil attachments))),
             add_log (omap (warning_of env (fs s)) (or_nil attachments)) s))
    as ->.
  { destruct attachments as [[|x l]|]; cbn [or_nil omap list_omap];
      rewrite ?add_attachments_nil, ?add_log_nil; try done.
    by apply attach_files_spec. }
  unfold World.bind at 1, perform at 1. rewrite Hok. unfold ret at 1.
  cbn. unfold sent, composed. f_equal. rewrite <- app_assoc. done.
Qed.

End world_facts.

(** ** The properties *)

Import Py World main parser_inv scan_inv parser_facts world_facts.

(** *** Auxiliary facts *)

(** When every read flag can be read, the loop gets to every message. *)
Lemma reached_all_readable messages :
  Forall (fun m => exists b, UnRead m = Ok b) messages ->
  reached false messages = messages.
Proof.
  induction 1 as [|m l [b Hb] _ IH]; [done|]. cbn. by rewrite Hb, IH.
Qed.

(** The allow-list lets a name through when it is empty or holds the
    extension of the name. *)
Lemma allowed_iff allowed_file_types FileName :
  allowed allowed_file_types FileName = true
  <-> allowed_file_types = []
      \/ In (snd (ntpath.splitext FileName)) allowed_file_types.
Proof.
  unfold allowed. rewrite orb_true_iff, existsb_exists. split.
  - intros [H|(x & Hx & E)].
    + left. by destruct allowed_file_types.
    + right. apply String.eqb_eq in E. by subst.
  - intros [->|H]; [by left|]. right. eexists. split; [exact H|].
    apply String.eqb_refl.
Qed.

(** Reading the fields of a message does not depend on the files found. *)
Lemma read_headers_files msg files files' rec :
  read_headers msg files = Ok rec ->
  read_headers msg files'
  = Ok (mkEmail (e_name rec) (e_subject rec) (e_conversation_id rec)
          (e_from rec) (e_sender rec) (e_body rec) files' (e_status rec)).
Proof.
  unfold read_headers.
  destruct (Subject msg); [|done].
  destruct (ConversationID msg);
    [|by destruct (Sender_PrimarySmtpAddress msg), (Sender_Name msg), (Body msg)].
  destruct (Sender_PrimarySmtpAddress msg);
    [|by destruct (Sender_Name msg), (Body msg)].
  destruct (Sender_Name msg); [|by destruct (Body msg)].
  destruct (Body msg); [|done]. by intros [= <-].
Qed.

Lemma take_drop n s : take n s +:+ drop n s = s.
Proof.
  revert s. induction n as [|n IH]; intros [|c s]; try done.
  cbn [take drop]. rewrite str_app_cons. by f_equal.
Qed.

Lemma str_app_nil_r s : s +:+ "" = s.
Proof. induction s as [|c s IH]; [done|]. rewrite str_app_cons. by f_equal. Qed.

(** [splitdrive] cuts the path in two. *)
Lemma splitdrive_app p : (ntpath.splitdrive p).1 +:+ (ntpath.splitdrive p).2 = p.
Proof.
  unfold ntpath.splitdrive. destruct (2 <=? String.length p); [|done].
  destruct (String.eqb _ _).
  - destruct (find_from _ _ _); [|apply str_app_nil_r].
    destruct (find_from _ _ _); [apply take_drop|apply str_app_nil_r].
  - destruct (String.eqb _ _); [apply take_drop|done].
Qed.

Lemma last_char_app a c b : last_char (a +:+ String c b) = last_char (String c b).
Proof.
  induction a as [|x a IH]; [done|]. rewrite str_app_cons. cbn [last_char].
  destruct (a +:+ String c b) eqn:E; [by destruct a|]. exact IH.
Qed.

Lemma last_char_cons c p : exists l, last_char (String c p) = Some l.
Proof.
  revert c. induction p as [|x p IH]; intros c; [by exists c|].
  destruct (IH x) as [l Hl]. exists l. cbn [last_char] in *. exact Hl.
Qed.

(** A component with a drive and a rooted path replaces what came before. *)
Lemma join_absolute documentPath output_dir d c p :
  ntpath.splitdrive output_dir = (d, String c p) ->
  truthy d = true -> char_in c ntpath.seps = true ->
  ntpath.join documentPath [output_dir] = output_dir
  /\ ntpath.join output_dir [""]
     = match last_char output_dir with
       | Some l =>
           if char_in l ntpath.seps then output_dir
           else output_dir +:+ String ntpath.sep ""
       | None => output_dir
       end.
Proof.
  intros Hsd Hd Hc.
  pose proof (splitdrive_app output_dir) as Happ. rewrite Hsd in Happ. cbn in Happ.
  split.
  - unfold ntpath.join. cbn [fold_left]. unfold ntpath.join_step.
    destruct (ntpath.splitdrive documentPath) as [rd rp]. rewrite Hsd.
    rewrite Hc, Hd. cbn [orb]. rewrite Hc. cbn [negb andb].
    by destruct (last_char d).
  - unfold ntpath.join. cbn [fold_left]. unfold ntpath.join_step. rewrite Hsd.
    change (ntpath.splitdrive "") with ("", ""). cbn [truthy andb].
    clear Hsd. subst output_dir. rewrite last_char_app.
    destruct (last_char_cons c p) as [l El]. rewrite El.
    destruct (char_in l ntpath.seps) eqn:Els; cbn [negb].
    + rewrite str_app_nil_r. rewrite Hc. cbn [negb andb].
      by destruct (last_char d).
    + rewrite str_app_nil_r. rewrite str_app_cons. rewrite Hc. cbn [negb andb].
      rewrite <- str_app_cons. rewrite str_app_assoc.
      by destruct (last_char d).
Qed.

Lemma find_from_drop c start s i :
  find_from c start s = Some i -> exists r, drop i s = String c r.
Proof.
  revert start i. induction s as [|d s IH]; intros start i; [done|].
  cbn [find_from]. destruct start as [|start].
  - destruct (eqc d c) eqn:E.
    + intros [= <-]. apply eqc_eq in E as ->. by eexists.
    + destruct (find_from c 0 s) as [j|] eqn:F; [|done].
      intros [= <-]. cbn [drop]. by apply (IH 0).
  - destruct (find_from c start s) as [j|] eqn:F; [|done].
    intros [= <-]. cbn [drop]. by apply (IH start).
Qed.

Lemma replace_char_cons a b c s :
  replace_char a (String b "") (String c s)
  = String (if eqc c a then b else c) (replace_char a (String b "") s).
Proof. cbn [replace_char]. by destruct (eqc c a). Qed.

Lemma drop_replace_char a b i p c r :
  drop i (replace_char a (String b "") p) = String c r ->
  exists c' r', drop i p = String c' r' /\ (c' = c \/ (c' = a /\ c = b)).
Proof.
  revert i. induction p as [|x p IH]; intros i.
  - by destruct i.
  - rewrite replace_char_cons. destruct i as [|i]; cbn [drop].
    + intros [= <- <-]. exists x, p. split; [done|].
      destruct (eqc x a) eqn:E; [|by left]. apply eqc_eq in E. by right.
    + apply IH.
Qed.

(** What [splitdrive] leaves after a drive starts with a separator, unless
    the drive ends with a colon. *)
Lemma splitdrive_shape p d r :
  ntpath.splitdrive p = (d, r) ->
  r = ""
  \/ (exists c r', r = String c r' /\ char_in c ntpath.seps = true)
  \/ d = ""
  \/ last_char d = Some ntpath.colon.
Proof.
  unfold ntpath.splitdrive.
  destruct (2 <=? String.length p) eqn:L; [|intros [= <- <-]; auto].
  destruct (String.eqb _ _).
  - destruct (find_from _ _ _) as [index|]; [|intros [= <- <-]; auto].
    destruct (find_from _ (index + 1) _) as [index2|] eqn:F;
      [|intros [= <- <-]; auto].
    intros [= <- <-]. right. left.
    destruct (find_from_drop _ _ _ _ F) as [r Hr].
    destruct (drop_replace_char _ _ _ _ _ _ Hr) as (c' & r' & -> & [->|[-> _]]);
      by eexists _, _.
  - destruct (String.eqb _ _) eqn:E; [|intros [= <- <-]; auto].
    intros [= <- <-]. right. right. right.
    destruct p as [|a [|b p]]; [done..|].
    rewrite !replace_char_cons in E. cbn in E. cbn [take last_char].
    destruct (eqc b ntpath.altsep); [done|].
    destruct (Ascii.eqb b ntpath.colon) eqn:Eb; [|done].
    apply Ascii.eqb_eq in Eb. by subst.
Qed.

(** A later component without drive and without leading separator is
    appended, after a separator where one is needed. *)
Lemma join_relative X p :
  ntpath.splitdrive p = ("", p) ->
  match p with
  | String c _ => char_in c ntpath.seps = false
  | EmptyString => True
  end ->
  exists s, (s = "" \/ s = String ntpath.sep "")
            /\ ntpath.join X [p] = X +:+ s +:+ p.
Proof.
  intros Hp Hc.
  pose proof (splitdrive_app X) as HX.
  pose proof (splitdrive_shape X) as HS.
  unfold ntpath.join. cbn [fold_left].
  destruct (ntpath.splitdrive X) as [rd rp]. specialize (HS _ _ eq_refl).
  cbn [fst snd] in HX. subst X.
  unfold ntpath.join_step. rewrite Hp.
  replace (match p with String c _ => char_in c ntpath.seps | "" => false end)
    with false by (by destruct p as [|c p']; [|rewrite Hc]).
  cbn [truthy andb].
  destruct rp as [|c0 rp'].
  - cbn [last_char]. rewrite str_app_nil, str_app_nil_r.
    destruct p as [|c p'].
    + exists "". split; [by left|]. by rewrite !str_app_nil_r.
    + destruct (last_char rd) as [d'|] eqn:Ld.
      * rewrite Hc. cbn [negb andb]. destruct (eqc d' ntpath.colon); cbn [negb].
        -- exists "". split; [by left|]. by rewrite str_app_nil.
        -- exists (String ntpath.sep ""). split; [by right|]. done.
      * exists "". split; [by left|]. by rewrite str_app_nil.
  - destruct (last_char_cons c0 rp') as [l Hl]. rewrite Hl.
    assert (Hno : forall t,
      match String c0 t, last_char rd with
      | String c _, Some d =>
          if negb (char_in c ntpath.seps) && negb (eqc d ntpath.colon)
          then rd +:+ String ntpath.sep "" +:+ String c0 t
          else rd +:+ String c0 t
      | _, _ => rd +:+ String c0 t
      end = rd +:+ String c0 t).
    { intros t. destruct HS as [?|[(c & r' & [= -> ->] & Hs)|[->|Hl']]]; [done| | |].
      - rewrite Hs. by destruct (last_char rd).
      - done.
      - rewrite Hl'. unfold eqc. rewrite Ascii.eqb_refl. cbn [negb].
        by rewrite andb_false_r. }
    destruct (char_in l ntpath.seps); cbn [negb].
    + exists "". split; [by left|]. rewrite str_app_cons. cbv iota.
      rewrite Hno, str_app_nil.
      by rewrite <- str_app_cons, str_app_assoc.
    + exists (String ntpath.sep ""). split; [by right|].
      rewrite (str_app_cons c0 rp'), (str_app_cons c0). cbv iota. rewrite Hno.
      rewrite <- (str_app_cons c0), <- (str_app_cons c0 rp').
      by rewrite <- !str_app_assoc.
Qed.

Lemma rfind_char_in c s : char_in c s = false -> rfind c s = None.
Proof.
  induction s as [|x s IH]; [done|]. cbn. intros H.
  apply orb_false_iff in H as [H1 H2]. rewrite (IH H2).
  unfold eqc in *. by rewrite Ascii.eqb_sym, H1.
Qed.

(** *** C1: the address check *)




(** *** C2: the read filter *)

(** C2.  The test in front of [process_email] answers true when
    [include_read] is set and the unread flag of the message otherwise.
    The messages handed to [process_email] during the loop are, in order,
    the messages the loop gets to for which [include_read] is true or the
    message is unread.  With [include_read] the loop gets to every message
    and every message passes, whatever its read state; without it the
    messages that pass are exactly the unread ones, and the loop gets to
    every message when every read flag can be read. *)
Theorem C2_read_filter env include_read folderPath allowed_file_types
  messages s :
  (forall msg s0,
     wanted include_read msg s0
     = (if include_read then Ok true else UnRead msg, s0))
  /\ (exists evs,
        trace (for_messages env include_read folderPath allowed_file_types
                 messages s).2 = trace s ++ evs
        /\ handed_on evs
           = filter (fun m => passes include_read m = true)
               (reached include_read messages))
  /\ reached true messages = messages
  /\ filter (fun m => passes true m = true) messages = messages
  /\ filter (fun m => passes false m = true) (reached false messages)
     = filter (fun m => is_unread m = true) (reached false messages)
  /\ (Forall (fun m => exists b, UnRead m = Ok b) messages ->
      reached false messages = messages).
Proof.
  split; [intros; apply wanted_run|]. split.
  { destruct (for_messages_spec env include_read folderPath allowed_file_types
      messages s) as (r & s' & evs & -> & Ho & Hh).
    exists evs. split; [apply Ho | exact Hh]. }
  split; [induction messages; cbn; congruence|].
  split.
  { induction messages as [|m l IH]; [done|].
    rewrite filter_cons_True by done. by rewrite IH. }
  split; [|apply reached_all_readable].
  apply list_filter_iff. intros m. unfold passes. by cbn.
Qed.

(** *** C3: the destination is there before any save *)


(** *** C4: the sender and its status strings *)

(** C4, a run that raises.  In a process environment without
    [LOCALAPPDATA], [send_email_via_outlook] raises [TypeError] from the
    cache clearing of [is_outlook_installed], which is outside every
    [try]; no status string is returned. *)
Theorem C4_send_raises_without_LOCALAPPDATA :
  send_email_via_outlook env_no_LOCALAPPDATA "user@domain.com" "Hi" "body"
    None false None None None s0
  = (Raise (mkExn TypeError
              "expected str, bytes or os.PathLike object, not NoneType"),
     s0).
Proof. vm_compute. reflexivity. Qed.



(** *** C5: the files of a record *)

(** C5, counterexample.  A message whose sender has no directory entry
    and whose only attachment is saved without error: no record is
    appended. *)
Lemma C5_counterexample :
  emails (process_email env0 msg_no_exchange_user "C:\out\" None s0).2
  = emails s0.
Proof. vm_compute. reflexivity. Qed.

(** C5, amended.  For a message whose attachments can be listed and whose
    subject, conversation id, sender address, sender name and body can be
    read, [process_email] returns and appends exactly one record, with
    status [pending].  Its files are as many as the attachments that pass
    the allow-list and are saved without error, and they carry the declared
    names of these attachments, in their order, and their paths under the
    destination.  An attachment whose fetch fails is left out and never
    keeps the record from being appended. *)
Theorem C5_files_are_the_fetched env msg output_dir allowed_file_types s
  atts subject conversation_id from sender body :
  Attachments msg = Ok atts ->
  Subject msg = Ok subject ->
  ConversationID msg = Ok conversation_id ->
  Sender_PrimarySmtpAddress msg = Ok from ->
  Sender_Name msg = Ok sender ->
  Body msg = Ok body ->
  exists files s',
    process_email env msg output_dir allowed_file_types s = (Ok tt, s')
    /\ emails s'
       = emails s
         ++ [mkEmail subject subject conversation_id from sender body files
               "pending"]
    /\ length files
       = length (fetched output_dir (or_empty allowed_file_types) atts)
    /\ map name files
       = map declared_name
           (fetched output_dir (or_empty allowed_file_types) atts)
    /\ map path files
       = map (fun a => ntpath.join output_dir [declared_name a])
           (fetched output_dir (or_empty allowed_file_types) atts).
Proof.
  intros Ha Hs Hc Hf Hn Hb.
  assert (Hh : forall files, read_headers msg files
    = Ok (mkEmail subject subject conversation_id from sender body files "pending")).
  { intros files. unfold read_headers. by rewrite Hs, Hc, Hf, Hn, Hb. }
  destruct (process_email_run env msg output_dir allowed_file_types s)
    as (s1 & Hi & [(e & _ & [Hr|(files & Hr)]) | (atts' & files & rec & Ha' & Hr & -> & Hname & Hpath & _)]).
  - congruence.
  - rewrite Hh in Hr. discriminate.
  - rewrite Hh in Hr. injection Hr as <-.
    rewrite Ha in Ha'. injection Ha' as <-.
    exists files. eexists. split; [done|].
    destruct Hi as (_ & _ & E & _). cbn in E. cbn. rewrite E.
    split; [done|]. split; [|done].
    by rewrite <- (length_map name), Hname, length_map.
Qed.

(** C5, at a message with three attachments, of which one fails to save
    and one is outside the allow-list. *)
Lemma C5_witness :
  exists files s',
    process_email env0 msg_three "C:\out\" (Some [".pdf"]) s0 = (Ok tt, s')
    /\ emails s'
       = [mkEmail "Report B" "Report B" "0002" "bob@example.com" "Bob"
            "Three files." files "pending"]
    /\ length files = 1.
Proof.
  destruct (C5_files_are_the_fetched env0 msg_three "C:\out\" (Some [".pdf"]) s0
    [att_pdf_unsavable; att_docx; att_pdf] "Report B" "0002"
    "bob@example.com" "Bob" "Three files."
    eq_refl eq_refl eq_refl eq_refl eq_refl eq_refl)
    as (files & s' & H1 & H2 & H3 & _).
  exists files, s'. split; [exact H1|]. split; [exact H2|]. exact H3.
Defined.

(** *** C6: the empty result *)




(** *** C7: the allow-list *)

(** C7, counterexample.  The extension of [x.pdf] is in the allow-list,
    the save raises, and no record is returned. *)
Lemma C7_counterexample :
  In (snd (ntpath.splitext "x.pdf")) [".pdf"]
  /\ (download_attachment env0 att_pdf_unsavable "C:\out\" [".pdf"] s0).1
     = Ok None.
Proof. split; [by left | vm_compute; reflexivity]. Qed.

(** C7, amended.  For an attachment whose file name can be read: an empty
    allow-list lets every name through, a non-empty one lets a name through
    exactly when the extension of the name, with its leading dot, is a
    member.  The save is attempted exactly when the name is let through.
    A record is returned exactly when the name is let through and the save
    raises nothing; its path is the destination joined with the name.
    Otherwise the result is absent.  With the list [.pdf], [x.docx] is not
    let through and [x.pdf] is. *)
Theorem C7_allow_list env attachment output_dir allowed_file_types s n :
  FileName attachment = Ok n ->
  let target := ntpath.join output_dir [n] in
  let run :=
    download_attachment env attachment output_dir allowed_file_types s in
  (allowed_file_types = [] -> allowed allowed_file_types n = true)
  /\ (allowed allowed_file_types n = true
      <-> allowed_file_types = []
          \/ In (snd (ntpath.splitext n)) allowed_file_types)
  /\ trace run.2
     = trace s ++ (if allowed allowed_file_types n
                   then [SaveAsFile_call target (fs s)] else [])
  /\ ((exists d, run.1 = Ok (Some d))
      <-> allowed allowed_file_types n = true
          /\ SaveAsFile_error attachment target = None)
  /\ (run.1 = Ok None \/ exists u, run.1 = Ok (Some (mkDetail target n u)))
  /\ snd (ntpath.splitext "x.docx") = ".docx"
  /\ snd (ntpath.splitext "x.pdf") = ".pdf"
  /\ allowed [".pdf"] "x.docx" = false
  /\ allowed [".pdf"] "x.pdf" = true.
Proof.
  intros Hn. cbv zeta. rewrite (download_attachment_run _ _ _ _ _ _ Hn).
  split; [by intros ->|]. split; [apply allowed_iff|].
  destruct (allowed allowed_file_types n) eqn:Ha; cbv zeta.
  - destruct (SaveAsFile_error attachment _) as [e|] eqn:He; cbn.
    + split; [done|]. split; [|split; [by left|by vm_compute]].
      split; [by intros [d Hd] | by intros [_ ?]].
    + split; [done|]. split; [|split; [right; by eexists|by vm_compute]].
      split; [done|]. intros _. by eexists.
  - cbn. rewrite app_nil_r. split; [done|].
    split; [|split; [by left|by vm_compute]].
    split; [by intros [d Hd] | by intros [? _]].
Qed.

(** C7, at [x.pdf] and [x.docx] with the list [.pdf], and at [x.docx]
    with the empty list. *)
Lemma C7_witness :
  FileName att_pdf = Ok "x.pdf"
  /\ (exists d, (download_attachment env0 att_pdf "C:\out\" [".pdf"] s0).1
                = Ok (Some d))
  /\ (download_attachment env0 att_docx "C:\out\" [".pdf"] s0).1 = Ok None
  /\ (exists d, (download_attachment env0 att_docx "C:\out\" [] s0).1
                = Ok (Some d)).
Proof.
  split; [reflexivity|].
  pose proof (C7_allow_list env0 att_pdf "C:\out\" [".pdf"] s0 "x.pdf" eq_refl)
    as (_ & _ & _ & H & _).
  split; [apply H; by vm_compute|].
  split; [by vm_compute | eexists; by vm_compute].
Defined.

(** *** C8: a record names a file that is there *)

(** C8.  When [download_attachment] returns a record, the path of the
    record exists on the file system at that moment and holds the content
    of the attachment; the save of the attachment at that path was made,
    and raised nothing. *)
Theorem C8_record_path_exists env attachment output_dir allowed_file_types
  s d s' :
  download_attachment env attachment output_dir allowed_file_types s
    = (Ok (Some d), s') ->
  exists_ (fs s') (path d) = true
  /\ files (fs s') !! path d = Some (att_content attachment)
  /\ SaveAsFile_error attachment (path d) = None
  /\ trace s' = trace s ++ [SaveAsFile_call (path d) (fs s)].
Proof.
  intros H.
  destruct (download_attachment_detail _ _ _ _ _ _ _ H)
    as ((_ & Hsome) & _ & Hf & _ & He & Ht).
  split; [|done]. unfold exists_. rewrite (bool_decide_eq_true_2 _ Hsome).
  apply orb_true_r.
Qed.

(** C8, at [x.pdf]. *)
Lemma C8_witness :
  download_attachment env0 att_pdf "C:\out\" [".pdf"] s0
    = (Ok (Some (mkDetail "C:\out\x.pdf" "x.pdf" "uuid-0")),
       (download_attachment env0 att_pdf "C:\out\" [".pdf"] s0).2)
  /\ exists_ (fs (download_attachment env0 att_pdf "C:\out\" [".pdf"] s0).2)
       "C:\out\x.pdf" = true.
Proof.
  split; [vm_compute; reflexivity|].
  apply (C8_record_path_exists env0 att_pdf "C:\out\" [".pdf"] s0
           (mkDetail "C:\out\x.pdf" "x.pdf" "uuid-0")).
  vm_compute. reflexivity.
Defined.

(** *** C9: an attachment that is not there *)

(** C9, counterexample.  The attachment list holds a path that does not
    exist, and the mail client refuses [Send]: the status is an error and
    nothing is in the outbox.  So it is, with a client that sends, for a
    recipient without [@]. *)
Lemma C9_counterexample :
  let run :=
    send_email_via_outlook env_send_fails "user@domain.com" "Hi" "body"
      (Some [missing_attachment]) false None None None s0 in
  exists_ (fs s0) "C:\missing.txt" = false
  /\ EnsureDispatch env_send_fails = Ok tt
  /\ is_valid_email "user@domain.com" = true
  /\ run.1 = Ok "Error sending email: The operation failed."
  /\ outbox run.2 = []
  /\ (send_email_via_outlook env0 "user" "Hi" "body"
        (Some [missing_attachment]) false None None None s0).1
     = Ok "Invalid email addresses provided: user".
Proof. cbv zeta. repeat split; vm_compute; reflexivity. Qed.

(** C9, amended.  When the mail client is reachable, the recipient passes
    the check, no call on the client raises and every entry of the
    attachment list has a path, [send_email_via_outlook] returns the
    success status and submits exactly one message.  The message carries
    the embedded images and those attachments whose path exists; for each
    path that does not exist a warning is logged and the attachment is
    left out. *)
Theorem C9_missing_attachment_skipped env to subject body dicts html_body
  cc bcc embedded_images s d :
  LOCALAPPDATA env = Some d ->
  EnsureDispatch env = Ok tt ->
  is_valid_email to = true ->
  Dispatch_Outlook env = Ok tt ->
  CreateItem env = Ok tt ->
  (forall c, mail_error env c = None) ->
  Forall (fun a : gmap string string => is_Some (a !! "path")) dicts ->
  let f := rmtree env (ntpath.join d ["Temp"; "gen_py"]) (fs s) in
  exists s',
    send_email_via_outlook env to subject body (Some dicts) html_body cc bcc
      embedded_images s = (Ok "Email sent successfully.", s')
    /\ outbox s'
       = outbox s
         ++ [mkMail to subject (or_nil cc) (or_nil bcc)
               (if html_body then "" else body)
               (if html_body then body else "")
               (map inline_image (or_nil embedded_images)
                ++ omap (attached_of env f) dicts)]
    /\ log s'
       = log s ++ omap (warning_of env f) dicts
         ++ [(INFO, "Email sent successfully.")].
Proof.
  intros Hl He Hv Hd Hc Hok Hall. cbv zeta.
  rewrite send_email_via_outlook_eq, Hl, He, Hv. cbn [negb]. cbv zeta.
  rewrite (compose_spec env to subject body (Some dicts) html_body cc bcc
             embedded_images _ Hd Hc Hok Hall).
  eexists. split; [reflexivity|]. cbn. auto.
Qed.

(** C9, at a list whose only entry is not on the disk. *)
Lemma C9_witness :
  exists s',
    send_email_via_outlook env0 "user@domain.com" "Hi" "body"
      (Some [missing_attachment]) false None None None s0
    = (Ok "Email sent successfully.", s')
    /\ outbox s' = [mkMail "user@domain.com" "Hi" [] [] "body" "" []]
    /\ log s'
       = [(WARNING, "Attachment not found: C:\missing.txt");
          (INFO, "Email sent successfully.")].
Proof.
  destruct (C9_missing_attachment_skipped env0 "user@domain.com" "Hi" "body"
    [missing_attachment] false None None None s0 "C:\Users\u\AppData\Local"
    eq_refl eq_refl) as (s' & H1 & H2 & H3).
  - vm_compute. reflexivity.
  - reflexivity.
  - reflexivity.
  - intros c. reflexivity.
  - constructor; [|constructor]. eexists. vm_compute. reflexivity.
  - exists s'. split; [exact H1|]. split; [exact H2|exact H3].
Defined.

(** *** C10: where the destination is, and when it is created *)




(** * Further properties *)

(** ** The address parser on plain addresses *)

Module plain_facts.
Import Py email_utils parser_inv parser_facts plain_inv.

Lemma addr_char_facts c :
  addr_char c = true ->
  is_ws c = false /\ eqc c "(" = false /\ eqc c ")" = false
  /\ char_in c FWS = false /\ char_in c LWS = false
  /\ eqc c dquote = false /\ char_in c phraseends = false
  /\ eqc c "[" = false /\ eqc c "@" = false
  /\ (eqc c "." = true /\ word_char c = false
      \/ eqc c "." = false /\ word_char c = true
         /\ char_in c atomends = false /\ isspace c = false).
Proof.
  destruct c as [[] [] [] [] [] [] [] []]; vm_compute; intros H;
    first [discriminate H | repeat split; auto 10].
Qed.

Lemma closer_facts c :
  char_in c ",;>" = true ->
  is_ws c = false /\ eqc c "(" = false /\ eqc c ")" = false
  /\ char_in c FWS = false /\ char_in c LWS = false
  /\ eqc c dquote = false /\ char_in c phraseends = true
  /\ eqc c "[" = false /\ eqc c "@" = false /\ eqc c "." = false
  /\ char_in c atomends = true /\ char_in c specials = true
  /\ char_in c ".@" = false /\ eqc c ":" = false /\ eqc c "<" = false.
Proof.
  destruct c as [[] [] [] [] [] [] [] []]; vm_compute; intros H;
    first [discriminate H | repeat split; auto 10].
Qed.

Lemma separator_cases c :
  char_in c ",;" = true ->
  char_in c ",;>" = true
  /\ (eqc c "," = true \/ c = ";"%char /\ eqc c "," = false).
Proof.
  destruct c as [[] [] [] [] [] [] [] []]; vm_compute; intros H;
    first [discriminate H | split; auto].
Qed.

Lemma addr_char_more c :
  addr_char c = true ->
  eqc c ">" = false /\ eqc c ":" = false /\ eqc c "<" = false
  /\ eqc c "," = false /\ eqc c " " = false.
Proof.
  destruct c as [[] [] [] [] [] [] [] []]; vm_compute; intros H;
    first [discriminate H | repeat split; auto 10].
Qed.

Lemma at_facts :
  is_ws "@" = false /\ eqc "@" "(" = false /\ char_in "@" FWS = false
  /\ eqc "@" dquote = false /\ char_in "@" phraseends = true
  /\ eqc "@" "." = false /\ char_in "@" atomends = true
  /\ char_in "@" ".@" = true.
Proof. vm_compute. repeat split. Qed.

Lemma plain_cons c s : plain (String c s) <-> addr_char c = true /\ plain s.
Proof. unfold plain. cbn [all_of]. apply andb_true_iff. Qed.

Lemma plain_settled l t : plain l -> settled t -> settled (l +:+ t).
Proof.
  destruct l as [|c l]; [done|]. intros [Hc _]%plain_cons _.
  rewrite str_app_cons. cbn. by destruct (addr_char_facts c Hc) as (?&?&_).
Qed.

Lemma closed_settled t : closed t -> settled t.
Proof.
  destruct t as [|c t]; [done|]. cbn. intros H.
  by destruct (closer_facts c H) as (?&?&_).
Qed.

Lemma at_settled t : settled (String "@" t).
Proof. done. Qed.

Lemma gotonext_settled fuel r cl :
  settled r -> gotonext (S fuel) (mkSelf r cl) = Done "" (mkSelf r cl).
Proof.
  unfold gotonext. rewrite gotonext_loop_eq. cbn [rest].
  destruct r as [|c r]; [done|]. intros [-> ->]. done.
Qed.

Lemma split_word_app s :
  (split_word s).1 +:+ (split_word s).2 = s.
Proof.
  induction s as [|c s IH]; [done|]. cbn [split_word].
  destruct (word_char c); [|done]. destruct (split_word s) as [w r].
  cbn in *. rewrite str_app_cons. by f_equal.
Qed.

Lemma split_word_length s :
  String.length (split_word s).2 <= String.length s.
Proof.
  induction s as [|c s IH]; [done|]. cbn [split_word].
  destruct (word_char c); [|done]. destruct (split_word s) as [w r].
  cbn in *. lia.
Qed.

Lemma split_word_plain s : plain s -> plain (split_word s).2.
Proof.
  induction s as [|c s IH]; [done|]. intros H. cbn [split_word].
  destruct (word_char c); [|done]. apply plain_cons in H as [_ H].
  specialize (IH H). by destruct (split_word s).
Qed.

Lemma str_app_nil_end s : s +:+ "" = s.
Proof. induction s as [|c s IH]; [done|]. rewrite str_app_cons. by f_equal. Qed.

(** [getatom] reads the word at the head. *)
Lemma getatom_loop_word s : forall acc t,
  plain s -> closed t \/ (exists t', t = String "@" t') ->
  getatom_loop atomends acc (s +:+ t)
  = (acc +:+ (split_word s).1, (split_word s).2 +:+ t).
Proof.
  induction s as [|c s IH]; intros acc t Hs Ht.
  - rewrite !str_app_nil. cbn [split_word fst snd]. rewrite str_app_nil_end.
    destruct t as [|c t]; [done|]. cbn [getatom_loop].
    assert (char_in c atomends = true) as ->; [|done].
    destruct Ht as [Ht|(t' & [= -> ->])]; [|done].
    by destruct (closer_facts c Ht) as (_&_&_&_&_&_&_&_&_&_&?&_).
  - apply plain_cons in Hs as [Hc Hs]. rewrite str_app_cons.
    cbn [getatom_loop split_word].
    destruct (addr_char_facts c Hc)
      as (_&_&_&_&_&_&_&_&_&[[Hd Hw]|(Hd & Hw & Ha & _)]).
    + rewrite Hw. apply eqc_eq in Hd. subst c. cbn [fst snd].
      by rewrite str_app_nil_end, str_app_cons.
    + rewrite Hw, Ha. rewrite (IH _ t Hs Ht).
      destruct (split_word s) as [w r]. cbn [fst snd].
      by rewrite <- str_app_assoc.
Qed.

(** With [phraseends], [getatom] reads through the dots as well. *)
Lemma getatom_loop_phrase s : forall acc t,
  plain s ->
  getatom_loop phraseends acc (s +:+ String "@" t)
  = (acc +:+ s, String "@" t).
Proof.
  induction s as [|c s IH]; intros acc t Hs.
  - by rewrite str_app_nil, str_app_nil_end.
  - apply plain_cons in Hs as [Hc Hs]. rewrite str_app_cons.
    cbn [getatom_loop].
    destruct (addr_char_facts c Hc) as (_&_&_&_&_&_&->&_).
    rewrite (IH _ t Hs). by rewrite <- str_app_assoc.
Qed.

Lemma split_word_head c s :
  word_char c = true ->
  split_word (String c s)
  = (String c (split_word s).1, (split_word s).2).
Proof. intros H. cbn [split_word]. rewrite H. by destruct (split_word s). Qed.

(** [getdomain] reads a plain domain to its end. *)
Lemma getdomain_loop_plain n : forall d,
  String.length d <= n -> plain d ->
  forall t fuel sd cl, closed t -> n < fuel ->
  getdomain_loop fuel sd (mkSelf (d +:+ t) cl)
  = Done (sd +:+ d) (mkSelf t cl).
Proof.
  induction n as [|n IH]; intros d Hlen Hd t fuel sd cl Ht Hfuel.
  - destruct d; [|cbn in Hlen; lia]. destruct fuel as [|fuel]; [lia|].
    rewrite getdomain_loop_eq, str_app_nil, str_app_nil_end. cbn [rest].
    destruct t as [|c t]; [done|].
    destruct (closer_facts c Ht) as (_&->&_&_&->&_&_&->&->&->&->&_). done.
  - destruct fuel as [|fuel]; [lia|].
    destruct d as [|c d].
    { rewrite getdomain_loop_eq, str_app_nil, str_app_nil_end. cbn [rest].
      destruct t as [|c t]; [done|].
      destruct (closer_facts c Ht) as (_&->&_&_&->&_&_&->&->&->&->&_). done. }
    cbn in Hlen. apply plain_cons in Hd as [Hc Hd].
    rewrite getdomain_loop_eq, str_app_cons. unfold set_rest.
    cbn [rest commentlist].
    destruct (addr_char_facts c Hc)
      as (_&->&_&_&->&_&_&->&Hat&[[Hdot Hw]|(Hdot & Hw & Ha & _)]).
    + rewrite Hdot. apply eqc_eq in Hdot. subst c.
      rewrite (IH d); [|lia|done|done|lia].
      by rewrite <- str_app_assoc.
    + rewrite Hdot, Hat, Ha. unfold getatom. cbn [rest].
      rewrite <- str_app_cons.
      rewrite (getatom_loop_word (String c d) "" t);
        [|by apply plain_cons|by left].
      rewrite (split_word_head c d Hw). cbn [fst snd email_utils.bind set_rest commentlist].
      rewrite str_app_nil. unfold set_rest. cbn [commentlist].
      rewrite (IH (split_word d).2);
        [|pose proof (split_word_length d); lia|by apply split_word_plain
         |done|lia].
      f_equal. rewrite <- str_app_assoc. f_equal. rewrite str_app_cons.
      by rewrite split_word_app.
Qed.

(** [getphraselist] reads a plain local part as one phrase. *)
Lemma getphraselist_plain l t fuel cl :
  plain l -> 2 <= fuel ->
  getphraselist fuel (mkSelf (l +:+ String "@" t) cl)
  = Done (if truthy l then [l] else []) (mkSelf (String "@" t) cl).
Proof.
  intros Hl Hf. destruct fuel as [|[|fuel]]; [lia..|].
  unfold getphraselist. rewrite getphraselist_loop_eq.
  destruct l as [|c l].
  - rewrite str_app_nil. done.
  - rewrite str_app_cons. cbn [rest truthy].
    pose proof Hl as [Hc _]%plain_cons.
    destruct (addr_char_facts c Hc) as (_&->&_&->&_&->&->&_).
    unfold getatom. cbn [rest]. rewrite <- str_app_cons.
    rewrite (getatom_loop_phrase (String c l) "" t Hl).
    cbn [email_utils.bind]. unfold set_rest. cbn [commentlist].
    rewrite str_app_nil, getphraselist_loop_eq. done.
Qed.

Lemma firm_nil : firm [].
Proof. done. Qed.

Lemma firm_snoc aslist c w :
  isspace c = false -> firm (aslist ++ [String c w]).
Proof.
  intros H. unfold firm, pop_blank. rewrite last_snoc. cbn [strip_is_empty].
  by rewrite H.
Qed.

Lemma join_empty_snoc aslist x :
  join_empty (aslist ++ [x]) = join_empty aslist +:+ x.
Proof.
  induction aslist as [|a aslist IH]; cbn.
  - by rewrite str_app_nil_end.
  - change (a +:+ join_empty (aslist ++ [x])
            = (a +:+ join_empty aslist) +:+ x).
    by rewrite IH, str_app_assoc.
Qed.

Lemma keep_ws_settled fuel b aslist r cl :
  settled r ->
  keep_ws (S fuel) b aslist (mkSelf r cl) = Done aslist (mkSelf r cl).
Proof.
  intros H. unfold keep_ws. rewrite (gotonext_settled fuel r cl H).
  cbn. by rewrite andb_false_r.
Qed.

(** [getaddrspec] reads a plain local part up to the [@]. *)
Lemma getaddrspec_loop_plain n : forall l,
  String.length l <= n -> plain l ->
  forall t fuel aslist cl, firm aslist -> n < fuel ->
  exists aslist',
    getaddrspec_loop fuel aslist (mkSelf (l +:+ String "@" t) cl)
    = Done aslist' (mkSelf (String "@" t) cl)
    /\ join_empty aslist' = join_empty aslist +:+ l.
Proof.
  induction n as [|n IH]; intros l Hlen Hl t fuel aslist cl Hfirm Hfuel.
  - destruct l; [|cbn in Hlen; lia]. destruct fuel as [|fuel]; [lia|].
    rewrite getaddrspec_loop_eq, str_app_nil. cbn [rest].
    change (eqc "@" ".") with false. change (eqc "@" dquote) with false.
    change (char_in "@" atomends) with true. cbv iota.
    exists aslist. rewrite Hfirm. by rewrite str_app_nil_end.
  - destruct fuel as [|fuel]; [lia|].
    destruct l as [|c l].
    { rewrite getaddrspec_loop_eq, str_app_nil. cbn [rest].
      change (eqc "@" ".") with false. change (eqc "@" dquote) with false.
      change (char_in "@" atomends) with true. cbv iota.
      exists aslist. rewrite Hfirm. by rewrite str_app_nil_end. }
    cbn in Hlen. apply plain_cons in Hl as [Hc Hl].
    destruct fuel as [|fuel]; [lia|].
    rewrite getaddrspec_loop_eq, str_app_cons. unfold set_rest.
    cbn [rest commentlist].
    destruct (addr_char_facts c Hc)
      as (_&_&_&_&_&Hq&_&_&_&[[Hdot Hw]|(Hdot & Hw & Ha & Hsp)]).
    + rewrite Hdot. apply eqc_eq in Hdot. subst c. rewrite Hfirm.
      rewrite keep_ws_settled by (apply plain_settled; [done|apply at_settled]).
      cbn [email_utils.bind].
      destruct (IH l ltac:(lia) Hl t (S fuel) (aslist ++ ["."]) cl)
        as (aslist' & -> & Hj); [by apply firm_snoc|lia|].
      exists aslist'. split; [done|].
      by rewrite Hj, join_empty_snoc, <- str_app_assoc.
    + rewrite Hdot, Hq, Ha. unfold getatom. cbn [rest].
      rewrite <- str_app_cons.
      rewrite (getatom_loop_word (String c l) "" (String "@" t));
        [|by apply plain_cons|right; by eexists].
      rewrite (split_word_head c l Hw).
      cbn [fst snd email_utils.bind]. unfold set_rest. cbn [commentlist].
      rewrite str_app_nil.
      rewrite keep_ws_settled
        by (apply plain_settled; [by apply split_word_plain|apply at_settled]).
      cbn [email_utils.bind].
      destruct (IH (split_word l).2
                  ltac:(pose proof (split_word_length l); lia)
                  (split_word_plain l Hl) t (S fuel)
                  (aslist ++ [String c (split_word l).1]) cl)
        as (aslist' & -> & Hj); [by apply firm_snoc|lia|].
      exists aslist'. split; [done|].
      rewrite Hj, join_empty_snoc, <- str_app_assoc. f_equal.
      rewrite str_app_cons. by rewrite split_word_app.
Qed.

(** [getaddrspec] on a plain address: the address, or nothing when the
    domain is empty. *)
Lemma getaddrspec_plain l d t fuel cl :
  plain l -> plain d -> closed t ->
  String.length l + String.length d + 2 <= fuel ->
  getaddrspec fuel (mkSelf (l +:+ String "@" (d +:+ t)) cl)
  = Done (if truthy d then l +:+ String "@" d else "") (mkSelf t cl).
Proof.
  intros Hl Hd Ht Hf. destruct fuel as [|fuel]; [lia|].
  unfold getaddrspec.
  rewrite gotonext_settled by (apply plain_settled; [done|apply at_settled]).
  cbn [email_utils.bind].
  destruct (getaddrspec_loop_plain (String.length l) l (le_n _) Hl (d +:+ t)
              (S fuel) [] cl firm_nil) as (aslist & -> & Hj); [lia|].
  cbn [email_utils.bind rest]. change (negb (eqc "@" "@")) with false.
  cbv iota. unfold set_rest. cbn [commentlist].
  rewrite gotonext_settled
    by (apply plain_settled; [done|by apply closed_settled]).
  cbn [email_utils.bind]. unfold getdomain.
  rewrite (getdomain_loop_plain (String.length d) d (le_n _) Hd t (S fuel) ""
             cl Ht) by lia.
  cbn [email_utils.bind]. rewrite str_app_nil.
  destruct d as [|c d]; [done|]. cbn [truthy negb].
  rewrite join_empty_snoc, Hj. cbn [join_empty fold_right].
  by rewrite str_app_nil, <- str_app_assoc.
Qed.

Lemma gotonext_loop_blanks sp : forall ws r fuel cl,
  blanks sp -> settled r -> String.length sp < fuel ->
  gotonext_loop fuel ws (mkSelf (sp +:+ r) cl)
  = Done (ws +:+ sp) (mkSelf r cl).
Proof.
  induction sp as [|c sp IH]; intros ws r fuel cl Hsp Hr Hf.
  - destruct fuel as [|fuel]; [lia|]. rewrite str_app_nil, str_app_nil_end.
    rewrite gotonext_loop_eq. cbn [rest]. destruct r as [|c r]; [done|].
    by destruct Hr as [-> ->].
  - destruct fuel as [|fuel]; [cbn in Hf; lia|].
    apply andb_true_iff in Hsp as [Hc Hsp]. apply eqc_eq in Hc. subst c.
    rewrite gotonext_loop_eq, str_app_cons. cbn [rest].
    change (is_ws " ") with true. change (char_in " " LFCR) with false.
    cbv iota. cbn [negb]. unfold set_rest. cbn [commentlist].
    rewrite IH; [|done|done|cbn in Hf; lia].
    by rewrite <- str_app_assoc.
Qed.

Lemma join_with_nil sep : join_with sep [] = "".
Proof. done. Qed.

(** [getaddress] on a plain address after blanks. *)
Lemma getaddress_plain sp l d t fuel cl :
  blanks sp -> plain l -> plain d -> closed t ->
  String.length sp + String.length l + String.length d + 3 <= fuel ->
  getaddress fuel (mkSelf (sp +:+ l +:+ String "@" (d +:+ t)) cl)
  = Done [("", if truthy d then l +:+ String "@" d else "")]
      (mkSelf (past_comma t) []).
Proof.
  intros Hsp Hl Hd Ht Hf. destruct fuel as [|fuel]; [lia|].
  rewrite getaddress_eq. cbn [rest]. unfold gotonext at 1.
  rewrite gotonext_loop_blanks;
    [|done|apply plain_settled; [done|apply at_settled]|lia].
  cbn [email_utils.bind rest].
  rewrite getphraselist_plain by (done || lia).
  cbn [email_utils.bind].
  destruct fuel as [|fuel]; [lia|].
  rewrite gotonext_settled by apply at_settled.
  cbn [email_utils.bind]. unfold shape. cbn [rest].
  change (char_in "@" ".@") with true. cbv iota.
  unfold set_rest. cbn [commentlist].
  rewrite getaddrspec_plain by (done || lia).
  cbn [email_utils.bind commentlist]. rewrite join_with_nil.
  unfold finish.
  rewrite gotonext_settled by (by apply closed_settled).
  cbn [email_utils.bind rest]. unfold past_comma, set_rest.
  cbn [commentlist]. destruct t as [|c t]; [done|]. by destruct (eqc c ",").
Qed.

Lemma check_parenthesis_loop_none addr : forall pos esc opens,
  char_in "(" addr = false -> char_in ")" addr = false ->
  check_parenthesis_loop opens (iter_escaped_chars_from pos esc addr)
  = (opens =? 0).
Proof.
  induction addr as [|ch addr IH]; intros pos esc opens Ho Hc.
  - cbn. by destruct esc.
  - cbn in Ho, Hc. apply orb_false_iff in Ho as [Ho1 Ho], Hc as [Hc1 Hc].
    cbn [iter_escaped_chars_from]. destruct esc.
    + cbn [check_parenthesis_loop]. by apply IH.
    + destruct (eqc ch backslash); [by apply IH|].
      cbn [check_parenthesis_loop].
      assert (String.eqb (String ch "") "(" = false) as ->.
      { apply String.eqb_neq. intros [= ->]. discriminate. }
      assert (String.eqb (String ch "") ")" = false) as ->.
      { apply String.eqb_neq. intros [= ->]. discriminate. }
      by apply IH.
Qed.

Lemma pre_parse_validation_unquoted addr :
  unquoted addr -> _pre_parse_validation addr = addr.
Proof.
  intros (Hq & Ho & Hc). unfold _pre_parse_validation, _check_parenthesis.
  unfold _strip_quoted_realnames. rewrite Hq. cbn [negb].
  unfold _iter_escaped_chars. by rewrite check_parenthesis_loop_none.
Qed.

Lemma plain_char_in c s : plain s -> addr_char c = false -> char_in c s = false.
Proof.
  intros Hs Hc. induction s as [|x s IH]; [done|].
  apply plain_cons in Hs as [Hx Hs]. cbn. rewrite (IH Hs), orb_false_r.
  destruct (eqc c x) eqn:E; [|done]. apply eqc_eq in E. congruence.
Qed.

Lemma unquoted_app a b : unquoted a -> unquoted b -> unquoted (a +:+ b).
Proof.
  intros (?&?&?) (?&?&?). unfold unquoted. rewrite !char_in_app.
  repeat split; by apply orb_false_iff.
Qed.

Lemma unquoted_cons c s :
  eqc dquote c = false -> eqc "(" c = false -> eqc ")" c = false ->
  unquoted s -> unquoted (String c s).
Proof.
  intros H1 H2 H3 (?&?&?). unfold unquoted. cbn.
  repeat split; by apply orb_false_iff.
Qed.

Lemma plain_unquoted s : plain s -> unquoted s.
Proof. intros H. repeat split; by apply plain_char_in. Qed.

Lemma blanks_unquoted s : blanks s -> unquoted s.
Proof.
  induction s as [|c s IH]; [done|].
  intros [Hc Hs]%andb_true_iff. apply eqc_eq in Hc. subst c.
  by apply unquoted_cons; [..|apply IH].
Qed.

Lemma str_length_app' a b :
  String.length (a +:+ b) = String.length a + String.length b.
Proof. induction a as [|c a IH]; [done|]. rewrite str_app_cons. cbn. lia. Qed.

(** *** Plain addresses *)

(** For a local part and a domain made of word characters and dots,
    [parseaddr] finds the address itself when the domain is not empty, and
    nothing when it is. *)
Lemma parseaddr_plain l d :
  plain l -> plain d ->
  parseaddr (l +:+ String "@" d)
  = if truthy d then ("", l +:+ String "@" d) else ("", "").
Proof.
  intros Hl Hd. unfold parseaddr, parseaddr_on.
  assert (Hu : unquoted (l +:+ String "@" d)).
  { apply unquoted_app; [by apply plain_unquoted|].
    apply unquoted_cons; [done..|by apply plain_unquoted]. }
  rewrite (pre_parse_validation_unquoted _ Hu).
  unfold AddressList_on.
  assert (truthy (l +:+ String "@" d) = true) as ->.
  { destruct l; [done|by rewrite str_app_cons]. }
  unfold fuel_for. rewrite str_length_app'. cbn [String.length].
  set (fuel := 2 * _ + 4).
  assert (Hfuel : String.length l + String.length d + 5 <= fuel)
    by (unfold fuel; lia).
  destruct fuel as [|fuel]; [lia|]. rewrite getaddrlist_loop_eq. cbn [rest].
  assert (exists c r, l +:+ String "@" d = String c r) as (c & r & E).
  { destruct l; [by eexists _, _|rewrite str_app_cons; by eexists _, _]. }
  rewrite E. rewrite <- E.
  pose proof (getaddress_plain "" l d "" fuel [] eq_refl Hl Hd I) as Hg.
  rewrite str_app_nil, str_app_nil_end in Hg. rewrite Hg by (cbn; lia).
  cbn [email_utils.bind nonempty app past_comma].
  destruct fuel as [|fuel]; [lia|]. rewrite getaddrlist_loop_eq. cbn [rest].
  cbn [email_utils.bind _post_parse_validation map snd].
  destruct d as [|x d]; cbn [truthy]; [done|].
  assert (char_in "[" (l +:+ String "@" (String x d)) = false) as ->; [|done].
  rewrite char_in_app. apply orb_false_iff. split; [by apply plain_char_in|].
  change (char_in "[" (String "@" (String x d)))
    with (eqc "[" "@" || char_in "[" (String x d)).
  change (eqc "[" "@") with false. by apply plain_char_in.
Qed.

(** On ordinary addresses the check is the one of the specification: true
    exactly when something follows the [@]. *)
Theorem is_valid_email_plain l d :
  plain l -> plain d ->
  parseaddr (l +:+ String "@" d)
  = (if truthy d then ("", l +:+ String "@" d) else ("", ""))
  /\ main.is_valid_email (l +:+ String "@" d) = truthy d.
Proof.
  intros Hl Hd. split; [by apply parseaddr_plain|].
  unfold main.is_valid_email. rewrite (parseaddr_plain l d Hl Hd).
  destruct d as [|x d]; [done|]. cbn [truthy snd].
  rewrite char_in_app. apply orb_true_iff. right. done.
Qed.

Lemma is_valid_email_plain_witness :
  plain "first.last" /\ plain "example.org"
  /\ main.is_valid_email "first.last@example.org" = true.
Proof.
  split; [reflexivity|]. split; [reflexivity|].
  exact (proj2 (is_valid_email_plain "first.last" "example.org"
                  eq_refl eq_refl)).
Defined.

(** *** Two addresses *)
Lemma getaddrlist_loop_step fuel result self :
  truthy (rest self) = true ->
  getaddrlist_loop (S fuel) result self
  = email_utils.bind (getaddress fuel self) (fun ad self =>
      getaddrlist_loop fuel
        (if nonempty ad then result ++ ad else result ++ [("", "")]) self).
Proof. rewrite getaddrlist_loop_eq. by destruct (rest self). Qed.

Lemma truthy_app_at a t : truthy (a +:+ String "@" t) = true.
Proof. destruct a; [done|by rewrite str_app_cons]. Qed.

Lemma truthy_app_r a b : truthy b = true -> truthy (a +:+ b) = true.
Proof. destruct a; [by rewrite str_app_nil|by rewrite str_app_cons]. Qed.

(** [getaddress] at a semicolon: the semicolon is dropped and no address
    is found. *)
Lemma getaddress_semicolon sp l t fuel cl :
  blanks sp -> plain l -> String.length sp + 3 <= fuel ->
  getaddress fuel (mkSelf (String ";" (sp +:+ l +:+ String "@" t)) cl)
  = Done [] (mkSelf (l +:+ String "@" t) []).
Proof.
  intros Hsp Hl Hf. destruct fuel as [|[|fuel]]; [lia..|].
  rewrite getaddress_eq. cbn [rest].
  rewrite gotonext_settled by done. cbn [email_utils.bind rest].
  unfold getphraselist. rewrite getphraselist_loop_eq. cbn [rest].
  change (char_in ";" FWS) with false. change (eqc ";" dquote) with false.
  change (eqc ";" "(") with false. change (char_in ";" phraseends) with true.
  cbv iota. cbn [email_utils.bind].
  rewrite gotonext_settled by done. cbn [email_utils.bind].
  unfold shape. cbn [rest]. change (char_in ";" ".@") with false.
  change (eqc ";" ":") with false. change (eqc ";" "<") with false.
  change (char_in ";" specials) with true. cbv iota.
  cbn [email_utils.bind]. unfold finish, set_rest. cbn [commentlist].
  unfold gotonext. rewrite gotonext_loop_blanks;
    [|done|apply plain_settled; [done|apply at_settled]|lia].
  cbn [email_utils.bind rest].
  destruct l as [|c l].
  - by rewrite str_app_nil.
  - rewrite str_app_cons. apply plain_cons in Hl as [Hc _].
    assert (eqc c "," = false) as ->; [|done].
    destruct (eqc c ",") eqn:E; [|done]. apply eqc_eq in E. subst c.
    discriminate Hc.
Qed.

(** Two plain addresses, with a comma or a semicolon and blanks between
    them, are not an address. *)
Lemma parseaddr_two l1 d1 c sp l2 d2 :
  plain l1 -> plain d1 -> char_in c ",;" = true -> blanks sp ->
  plain l2 -> plain d2 ->
  parseaddr
    (l1 +:+ String "@" (d1 +:+ String c (sp +:+ l2 +:+ String "@" d2)))
  = ("", "").
Proof.
  intros Hl1 Hd1 Hc0 Hsp Hl2 Hd2. unfold parseaddr, parseaddr_on.
  destruct (separator_cases c Hc0) as [Hc Hcases].
  set (a2 := l2 +:+ String "@" d2).
  set (t := String c (sp +:+ a2)).
  assert (Hu : unquoted (l1 +:+ String "@" (d1 +:+ t))).
  { apply unquoted_app; [by apply plain_unquoted|].
    apply unquoted_cons; [done..|].
    apply unquoted_app; [by apply plain_unquoted|].
    destruct (closer_facts c Hc) as (_&H1&H2&_&_&H3&_).
    apply unquoted_cons; [by rewrite eqc_sym..|].
    apply unquoted_app; [by apply blanks_unquoted|].
    apply unquoted_app; [by apply plain_unquoted|].
    apply unquoted_cons; [done..|by apply plain_unquoted]. }
  rewrite (pre_parse_validation_unquoted _ Hu).
  unfold AddressList_on. rewrite truthy_app_at.
  unfold fuel_for. rewrite str_length_app'. cbn [String.length].
  rewrite str_length_app'. unfold t. cbn [String.length].
  rewrite str_length_app'. unfold a2. rewrite str_length_app'.
  cbn [String.length]. fold a2. fold t.
  set (fuel := 2 * _ + 4).
  assert (Hfuel :
    String.length l1 + String.length d1 + String.length sp
    + String.length l2 + String.length d2 + 10 <= fuel)
    by (unfold fuel; lia).
  clearbody fuel.
  destruct fuel as [|fuel]; [lia|].
  rewrite getaddrlist_loop_step by apply truthy_app_at.
  pose proof (getaddress_plain "" l1 d1 t fuel [] eq_refl Hl1 Hd1 Hc) as Hg.
  rewrite str_app_nil in Hg. rewrite Hg by (cbn; lia). clear Hg.
  cbn [email_utils.bind nonempty app].
  destruct fuel as [|fuel]; [lia|].
  assert (Hlast : forall fuel' result,
    String.length sp + String.length l2 + String.length d2 + 5 <= fuel' ->
    forall sp', sp' = sp \/ sp' = "" ->
    exists x self,
      getaddrlist_loop fuel' result (mkSelf (sp' +:+ a2) [])
      = Done (result ++ [x]) self).
  { intros fuel' result Hf' sp' Hsp'.
    destruct fuel' as [|[|fuel']]; [lia..|].
    rewrite getaddrlist_loop_step
      by (apply truthy_app_r, truthy_app_at).
    pose proof (getaddress_plain sp' l2 d2 "" (S fuel') []) as Hg.
    rewrite str_app_nil_end in Hg. unfold a2.
    rewrite Hg; [|by destruct Hsp' as [->| ->]|done|done|done
                 |destruct Hsp' as [->| ->]; cbn; lia].
    cbn [email_utils.bind nonempty past_comma].
    rewrite getaddrlist_loop_eq. cbn [rest]. by eexists _, _. }
  destruct Hcases as [Hcomma|[Hsemi Hcomma]].
  - unfold t at 1. cbn [past_comma]. rewrite Hcomma.
    destruct (Hlast (S fuel) [("", if truthy d1 then l1 +:+ String "@" d1 else "")]
                ltac:(lia) sp (or_introl eq_refl)) as (x & self & ->).
    done.
  - unfold t at 1. cbn [past_comma]. rewrite Hcomma.
    subst c. unfold t.
    rewrite getaddrlist_loop_step by done.
    unfold a2. rewrite getaddress_semicolon by (done || lia). fold a2.
    cbn [email_utils.bind nonempty].
    destruct (Hlast fuel
                ([("", if truthy d1 then l1 +:+ String "@" d1 else "")]
                   ++ [("", "")])
                ltac:(lia) "" (or_intror eq_refl)) as (x & self & E).
    rewrite str_app_nil in E. rewrite E. done.
Qed.

(** Two addresses in one string are rejected: a recipient list is not a
    valid address for the script. *)
Theorem is_valid_email_two_addresses l1 d1 c sp l2 d2 :
  plain l1 -> plain d1 -> char_in c ",;" = true -> blanks sp ->
  plain l2 -> plain d2 ->
  main.is_valid_email
    (l1 +:+ String "@" (d1 +:+ String c (sp +:+ l2 +:+ String "@" d2)))
  = false.
Proof.
  intros. unfold main.is_valid_email. by rewrite parseaddr_two.
Qed.

Lemma is_valid_email_two_addresses_witness :
  main.is_valid_email "ann@example.org; bob@example.org" = false.
Proof.
  exact (is_valid_email_two_addresses "ann" "example.org" ";" " " "bob"
           "example.org" eq_refl eq_refl eq_refl eq_refl eq_refl eq_refl).
Defined.

Lemma getatom_loop_phrase_blank s : forall acc t,
  plain s ->
  getatom_loop phraseends acc (s +:+ String " " t)
  = (acc +:+ s, String " " t).
Proof.
  induction s as [|c s IH]; intros acc t Hs.
  - by rewrite str_app_nil, str_app_nil_end.
  - apply plain_cons in Hs as [Hc Hs]. rewrite str_app_cons.
    cbn [getatom_loop].
    destruct (addr_char_facts c Hc) as (_&_&_&_&_&_&->&_).
    rewrite (IH _ t Hs). by rewrite <- str_app_assoc.
Qed.

(** [getphraselist] reads the words of the display name. *)
Lemma getphraselist_loop_words names : forall plist t fuel cl,
  words names -> 2 * length names < fuel ->
  getphraselist_loop fuel plist
    (mkSelf (spaced names +:+ String "<" t) cl)
  = Done (plist ++ names) (mkSelf (String "<" t) cl).
Proof.
  induction names as [|w names IH]; intros plist t fuel cl Hw Hf.
  - destruct fuel as [|fuel]; [lia|]. cbn [spaced].
    rewrite str_app_nil, getphraselist_loop_eq, app_nil_r. done.
  - destruct fuel as [|[|fuel]]; [cbn in Hf; lia..|].
    inversion Hw as [|? ? [Hp Ht] Hw']; subst. cbn [spaced].
    destruct w as [|c w]; [done|].
    rewrite getphraselist_loop_eq. rewrite <- str_app_assoc.
    rewrite (str_app_cons " " (spaced names)). rewrite (str_app_cons c w).
    cbn [rest]. pose proof Hp as [Hc _]%plain_cons.
    destruct (addr_char_facts c Hc) as (_&->&_&->&_&->&->&_).
    unfold getatom. cbn [rest]. rewrite <- (str_app_cons c w).
    rewrite (getatom_loop_phrase_blank (String c w) "" _ Hp).
    cbn [email_utils.bind]. unfold set_rest. cbn [commentlist].
    rewrite str_app_nil, getphraselist_loop_eq. cbn [rest].
    change (char_in " " FWS) with true. cbv iota. unfold set_rest.
    cbn [commentlist].
    rewrite IH by (done || cbn in Hf; lia).
    by rewrite <- app_assoc.
Qed.

(** [getrouteaddr] on a plain address between angle brackets. *)
Lemma getrouteaddr_plain l d t fuel cl :
  plain l -> truthy l = true -> plain d ->
  String.length l + String.length d + 4 <= fuel ->
  getrouteaddr fuel
    (mkSelf (String "<" (l +:+ String "@" (d +:+ String ">" t))) cl)
  = Done (if truthy d then l +:+ String "@" d else "") (mkSelf t cl).
Proof.
  intros Hl Htl Hd Hf. destruct fuel as [|[|fuel]]; [lia..|].
  unfold getrouteaddr. cbn [rest]. change (negb (eqc "<" "<")) with false.
  cbv iota. unfold set_rest. cbn [commentlist].
  rewrite gotonext_settled by (apply plain_settled; [done|apply at_settled]).
  cbn [email_utils.bind]. rewrite getrouteaddr_loop_eq.
  destruct l as [|c l]; [done|]. pose proof Hl as [Hc _]%plain_cons.
  rewrite str_app_cons. cbn [rest].
  destruct (addr_char_facts c Hc) as (_&_&_&_&_&_&_&_&->&_).
  destruct (addr_char_more c Hc) as (->&->&_).
  rewrite <- str_app_cons.
  rewrite (getaddrspec_plain (String c l) d (String ">" t) (S fuel) cl)
    by (done || cbn in *; lia).
  done.
Qed.

(** [getaddress] on a display name and a plain address between angle
    brackets. *)
Lemma getaddress_named names l d fuel cl :
  words names -> plain l -> truthy l = true -> plain d ->
  2 * length names + String.length l + String.length d + 6 <= fuel ->
  getaddress fuel
    (mkSelf (spaced names
               +:+ String "<" (l +:+ String "@" (d +:+ String ">" ""))) cl)
  = Done [(join_with SPACE names,
           if truthy d then l +:+ String "@" d else "")]
      (mkSelf "" []).
Proof.
  intros Hw Hl Htl Hd Hf. destruct fuel as [|[|fuel]]; [lia..|].
  rewrite getaddress_eq. cbn [rest].
  assert (Hset : settled (spaced names
            +:+ String "<" (l +:+ String "@" (d +:+ String ">" "")))).
  { destruct names as [|w names]; [done|].
    inversion Hw as [|? ? [Hp Ht] _]; subst. cbn [spaced].
    destruct w as [|c w]; [done|]. apply plain_cons in Hp as [Hc _].
    rewrite <- str_app_assoc, str_app_cons. cbn.
    by destruct (addr_char_facts c Hc) as (?&?&_). }
  rewrite gotonext_settled by done. cbn [email_utils.bind rest].
  unfold getphraselist.
  rewrite getphraselist_loop_words by (done || lia).
  cbn [email_utils.bind app].
  rewrite gotonext_settled by done. cbn [email_utils.bind].
  unfold shape. cbn [rest]. change (char_in "<" ".@") with false.
  change (eqc "<" ":") with false. change (eqc "<" "<") with true.
  cbv iota.
  rewrite getrouteaddr_plain by (done || lia).
  cbn [email_utils.bind commentlist nonempty]. unfold finish.
  rewrite gotonext_settled by done. done.
Qed.

Lemma words_unquoted names : words names -> unquoted (spaced names).
Proof.
  induction 1 as [|w names [Hp _] _ IH]; [done|]. cbn [spaced].
  apply unquoted_app; [by apply plain_unquoted|].
  by apply unquoted_cons.
Qed.

Lemma spaced_length names :
  words names -> 2 * length names <= String.length (spaced names).
Proof.
  induction 1 as [|w names [_ Ht] _ IH]; [done|]. cbn [spaced length].
  rewrite str_length_app'. cbn [String.length].
  destruct w; [done|]. cbn [String.length]. lia.
Qed.

(** A display name before the address between angle brackets: the name is
    set aside, and the check is the one for the address inside. *)
Theorem is_valid_email_display_name names l d :
  words names -> plain l -> truthy l = true -> plain d ->
  parseaddr
    (spaced names +:+ String "<" (l +:+ String "@" (d +:+ String ">" "")))
  = (join_with SPACE names, if truthy d then l +:+ String "@" d else "")
  /\ main.is_valid_email
       (spaced names +:+ String "<" (l +:+ String "@" (d +:+ String ">" "")))
     = truthy d.
Proof.
  intros Hw Hl Htl Hd.
  assert (Hp : parseaddr
    (spaced names +:+ String "<" (l +:+ String "@" (d +:+ String ">" "")))
    = (join_with SPACE names, if truthy d then l +:+ String "@" d else "")).
  { unfold parseaddr, parseaddr_on.
    assert (Hu : unquoted
      (spaced names +:+ String "<" (l +:+ String "@" (d +:+ String ">" "")))).
    { apply unquoted_app; [by apply words_unquoted|].
      apply unquoted_cons; [done..|].
      apply unquoted_app; [by apply plain_unquoted|].
      apply unquoted_cons; [done..|].
      apply unquoted_app; [by apply plain_unquoted|done]. }
    rewrite (pre_parse_validation_unquoted _ Hu).
    unfold AddressList_on. rewrite truthy_app_r by done.
    unfold fuel_for. rewrite str_length_app'. cbn [String.length].
    rewrite str_length_app'. cbn [String.length].
    rewrite str_length_app'. cbn [String.length].
    pose proof (spaced_length names Hw) as Hlen.
    set (fuel := 2 * _ + 4).
    assert (Hfuel :
      2 * length names + String.length l + String.length d + 8 <= fuel)
      by (unfold fuel; lia).
    clearbody fuel. destruct fuel as [|fuel]; [lia|].
    rewrite getaddrlist_loop_step by (by apply truthy_app_r).
    rewrite getaddress_named by (done || lia).
    cbn [email_utils.bind nonempty app].
    destruct fuel as [|fuel]; [lia|]. rewrite getaddrlist_loop_eq.
    cbn [rest email_utils.bind _post_parse_validation map snd].
    destruct d as [|x d]; cbn [truthy]; [done|].
    assert (char_in "[" (l +:+ String "@" (String x d)) = false) as ->;
      [|done].
    rewrite char_in_app. apply orb_false_iff.
    split; [by apply plain_char_in|].
    change (char_in "[" (String "@" (String x d)))
      with (eqc "[" "@" || char_in "[" (String x d)).
    change (eqc "[" "@") with false. by apply plain_char_in. }
  split; [exact Hp|]. unfold main.is_valid_email. rewrite Hp.
  destruct d as [|x d]; [done|]. cbn [truthy snd].
  rewrite char_in_app. apply orb_true_iff. right. done.
Qed.

Lemma is_valid_email_display_name_witness :
  parseaddr "Ann Lee <ann.lee@example.org>"
  = ("Ann Lee", "ann.lee@example.org")
  /\ main.is_valid_email "Ann Lee <ann.lee@example.org>" = true.
Proof.
  apply (is_valid_email_display_name ["Ann"; "Lee"] "ann.lee" "example.org").
  - repeat constructor.
  - reflexivity.
  - reflexivity.
  - reflexivity.
Defined.

End plain_facts.

(** ** The sender, the scanner and the attachments *)

Import more_inv.

Lemma perform_run env c s :
  perform env c s
  = match mail_error env c with Some e => (Raise e, s) | None => (Ok tt, s) end.
Proof. unfold perform. by destruct (mail_error env c). Qed.

Lemma if_list_perform env {A} (l : option (list A)) (c : list A -> mail_call) s :
  exists r, if_list l (fun l => perform env (c l)) s = (r, s).
Proof.
  destruct l as [[|x l]|]; try by eexists.
  cbn [if_list]. rewrite perform_run. destruct (mail_error env _); by eexists.
Qed.

Lemma same_head_refl m : same_head m m.
Proof. by repeat split. Qed.

Lemma same_head_attach m a : same_head m (attach m a).
Proof. by repeat split. Qed.

Lemma same_head_trans a b c : same_head a b -> same_head b c -> same_head a c.
Proof.
  intros (?&?&?&?&?&?) (?&?&?&?&?&?). repeat split; congruence.
Qed.

Lemma embed_images_frame env images : forall mail s,
  exists r, embed_images env images mail s = (r, s)
    /\ forall m, r = Ok m -> same_head mail m.
Proof.
  induction images as [|p images IH]; intros mail s.
  - exists (Ok mail). split; [done|]. intros m [= <-]. apply same_head_refl.
  - cbn [embed_images]. unfold World.bind at 1. rewrite perform_run.
    destruct (mail_error env _); [by eexists|].
    unfold World.bind at 1. rewrite perform_run.
    destruct (mail_error env _); [by eexists|].
    destruct (IH (attach mail (mkAttached p (Some (ntpath.basename p)))) s)
      as (r & -> & H).
    exists r. split; [done|]. intros m Hm.
    eapply same_head_trans; [apply same_head_attach|by apply H].
Qed.

Lemma attach_files_frame env dicts : forall mail s,
  exists r s', attach_files env dicts mail s = (r, s')
    /\ same_but_log_outbox s s' /\ outbox s' = outbox s
    /\ forall m, r = Ok m -> same_head mail m.
Proof.
  induction dicts as [|a dicts IH]; intros mail s.
  - exists (Ok mail), s. split; [done|]. split; [done|]. split; [done|].
    intros m [= <-]. apply same_head_refl.
  - cbn [attach_files]. unfold World.bind at 1.
    destruct (a !! "path") as [p|]; [|by eexists _, _].
    unfold ret at 1. unfold World.bind at 1. cbn [get].
    destruct (exists_ (fs s) (abspath env p)).
    + unfold World.bind at 1. rewrite perform_run.
      destruct (mail_error env _); [by eexists _, _|].
      destruct (IH (attach mail (mkAttached (abspath env p) None)) s)
        as (r & s' & -> & Hs & Ho & H).
      exists r, s'. split; [done|]. split; [done|]. split; [done|].
      intros m Hm. eapply same_head_trans; [apply same_head_attach|by apply H].
    + unfold World.bind at 1. cbn [logging modify].
      destruct (IH mail
        (mkState (fs s) (log s ++ [(WARNING, "Attachment not found: " +:+ abspath env p)])
           (outbox s) (uuids s) (emails s) (trace s)))
        as (r & s' & -> & Hs & Ho & H).
      exists r, s'. split; [done|]. split; [exact Hs|]. split; [exact Ho|exact H].
Qed.

(** Composing either fails with the outbox as it was or submits one
    message, made for the recipient and the subject given. *)
Lemma compose_frame env to subject body attachments html_body cc bcc
  embedded_images s :
  exists r s',
    compose env to subject body attachments html_body cc bcc embedded_images s
    = (r, s')
    /\ same_but_log_outbox s s'
    /\ ((exists e, r = Raise e /\ outbox s' = outbox s)
        \/ (r = Ok sent
            /\ exists mail,
                 outbox s' = outbox s ++ [mail]
                 /\ same_head
                      (mkMail to subject (or_nil cc) (or_nil bcc)
                         (if html_body then "" else body)
                         (if html_body then body else "") []) mail)).
Proof.
  unfold compose.
  assert (Hstop : forall e, exists (r : res string) s',
    (Raise e, s) = (r, s') /\ same_but_log_outbox s s'
    /\ ((exists e, r = Raise e /\ outbox s' = outbox s)
        \/ (r = Ok sent
            /\ exists mail,
                 outbox s' = outbox s ++ [mail]
                 /\ same_head
                      (mkMail to subject (or_nil cc) (or_nil bcc)
                         (if html_body then "" else body)
                         (if html_body then body else "") []) mail))).
  { intros e. exists (Raise e), s. split; [done|]. split; [done|]. left. by exists e. }
  unfold World.bind at 1, lift at 1.
  destruct (Dispatch_Outlook env); [|apply Hstop].
  unfold World.bind at 1, lift at 1.
  destruct (CreateItem env); [|apply Hstop].
  unfold World.bind at 1. rewrite perform_run.
  destruct (mail_error env (Set_To to)); [apply Hstop|].
  unfold World.bind at 1. rewrite perform_run.
  destruct (mail_error env (Set_Subject subject)); [apply Hstop|].
  unfold World.bind at 1.
  destruct (if_list_perform env cc Set_CC s) as (r1 & ->).
  destruct r1; [|apply Hstop].
  unfold World.bind at 1.
  destruct (if_list_perform env bcc Set_BCC s) as (r2 & ->).
  destruct r2; [|apply Hstop].
  unfold World.bind at 1.
  assert (Hb : exists r,
    (if html_body then perform env (Set_HTMLBody body)
     else perform env (Set_Body body)) s = (r, s)).
  { destruct html_body; rewrite perform_run; destruct (mail_error env _);
      by eexists. }
  destruct Hb as (r3 & ->). destruct r3; [|apply Hstop].
  cbv zeta. fold (or_nil cc) (or_nil bcc).
  set (mail0 := mkMail to subject (or_nil cc) (or_nil bcc) _ _ []).
  unfold World.bind at 1.
  assert (He : exists r,
    match embedded_images with
    | Some (x :: l) => embed_images env (x :: l) mail0
    | _ => ret mail0
    end s = (r, s) /\ forall m, r = Ok m -> same_head mail0 m).
  { destruct embedded_images as [[|x l]|];
      try (exists (Ok mail0); split; [done|]; intros m [= <-];
           apply same_head_refl).
    apply embed_images_frame. }
  destruct He as (r4 & -> & H4). destruct r4 as [mail1|]; [|apply Hstop].
  specialize (H4 mail1 eq_refl).
  unfold World.bind at 1.
  assert (Ha : exists r s1,
    match attachments with
    | Some (x :: l) => attach_files env (x :: l) mail1
    | _ => ret mail1
    end s = (r, s1) /\ same_but_log_outbox s s1 /\ outbox s1 = outbox s
    /\ forall m, r = Ok m -> same_head mail1 m).
  { destruct attachments as [[|x l]|];
      try (exists (Ok mail1), s; split; [done|]; split; [done|]; split; [done|];
           intros m [= <-]; apply same_head_refl).
    apply attach_files_frame. }
  destruct Ha as (r5 & s1 & -> & Hs1 & Ho1 & H5).
  destruct r5 as [mail2|e].
  2:{ exists (Raise e), s1. split; [done|]. split; [done|]. left. by exists e. }
  specialize (H5 mail2 eq_refl).
  unfold World.bind at 1. rewrite perform_run.
  destruct (mail_error env Send) as [e|].
  { exists (Raise e), s1. split; [done|]. split; [done|]. left. by exists e. }
  eexists _, _. split; [reflexivity|]. cbn.
  split; [exact Hs1|]. right. split; [done|]. exists mail2.
  split; [by rewrite Ho1|]. by eapply same_head_trans.
Qed.



Lemma attach_files_KeyError env dicts : forall mail s,
  (forall c, mail_error env c = None) ->
  Exists (fun a : gmap string string => a !! "path" = None) dicts ->
  exists s',
    attach_files env dicts mail s = (Raise (mkExn KeyError "'path'"), s')
    /\ outbox s' = outbox s.
Proof.
  intros mail s Hok Hex. revert mail s.
  induction dicts as [|a dicts IH]; intros mail s; [by inversion Hex|].
  cbn [attach_files]. unfold World.bind at 1.
  destruct (a !! "path") as [p|] eqn:Hp; [|by exists s].
  assert (Hex' : Exists (fun a : gmap string string => a !! "path" = None) dicts).
  { inversion Hex as [? ? H|]; [congruence|done]. }
  unfold ret at 1. unfold World.bind at 1. cbn [get].
  destruct (exists_ (fs s) (abspath env p)).
  - unfold World.bind at 1. rewrite perform_run, Hok. by apply IH.
  - unfold World.bind at 1. cbn [logging modify].
    destruct (IH Hex' mail
      (mkState (fs s) (log s ++ [(WARNING, "Attachment not found: " +:+ abspath env p)])
         (outbox s) (uuids s) (emails s) (trace s))) as (s' & -> & Ho).
    by exists s'.
Qed.

(** An attachment entry without the key [path] makes the sending fail with
    the text of the [KeyError]; nothing is submitted. *)
Theorem send_attachment_without_path env to subject body dicts html_body cc
  bcc embedded_images s d :
  LOCALAPPDATA env = Some d ->
  EnsureDispatch env = Ok tt ->
  is_valid_email to = true ->
  Dispatch_Outlook env = Ok tt ->
  CreateItem env = Ok tt ->
  (forall c, mail_error env c = None) ->
  Exists (fun a : gmap string string => a !! "path" = None) dicts ->
  exists s',
    send_email_via_outlook env to subject body (Some dicts) html_body cc bcc
      embedded_images s = (Ok "Error sending email: 'path'", s')
    /\ outbox s' = outbox s
    /\ last (log s') = Some (ERROR, "Error sending email: 'path'").
Proof.
  intros Hl He Hv Hd Hc Hok Hex.
  rewrite send_email_via_outlook_eq, Hl, He, Hv. cbn [negb]. cbv zeta.
  set (s1 := cache_cleared env d s).
  assert (Hcomp : exists s2,
    compose env to subject body (Some dicts) html_body cc bcc embedded_images
      s1 = (Raise (mkExn KeyError "'path'"), s2) /\ outbox s2 = outbox s).
  { unfold compose.
    unfold World.bind at 1, lift at 1. rewrite Hd.
    unfold World.bind at 1, lift at 1. rewrite Hc.
    unfold World.bind at 1. rewrite perform_run, Hok.
    unfold World.bind at 1. rewrite perform_run, Hok.
    assert (Hif : forall (l : option (list string)) f,
      if_list l (fun l => perform env (f l)) s1 = (Ok tt, s1)).
    { intros [[|x l]|] f; try done. cbn. unfold perform. by rewrite Hok. }
    unfold World.bind at 1. rewrite (Hif cc Set_CC).
    unfold World.bind at 1. rewrite (Hif bcc Set_BCC).
    unfold World.bind at 1.
    assert ((if html_body then perform env (Set_HTMLBody body)
             else perform env (Set_Body body)) s1 = (Ok tt, s1)) as ->.
    { destruct html_body; unfold perform; by rewrite Hok. }
    cbv zeta. set (mail := mkMail _ _ _ _ _ _ []).
    unfold World.bind at 1.
    assert (exists mail1,
      match embedded_images with
      | Some (x :: l) => embed_images env (x :: l) mail
      | _ => ret mail
      end s1 = (Ok mail1, s1)) as (mail1 & ->).
    { destruct embedded_images as [[|x l]|]; try by eexists.
      eexists. by apply embed_images_spec. }
    unfold World.bind at 1.
    destruct dicts as [|x l]; [by inversion Hex|].
    destruct (attach_files_KeyError env (x :: l) mail1 s1 Hok Hex)
      as (s2 & -> & Ho).
    by exists s2. }
  destruct Hcomp as (s2 & -> & Ho).
  eexists. split; [reflexivity|]. cbn. split; [exact Ho|]. by rewrite last_snoc.
Qed.

Lemma send_attachment_without_path_witness :
  exists s',
    send_email_via_outlook env0 "user@domain.com" "Hi" "body"
      (Some [missing_attachment; {["name" := "x.pdf"]}]) false None None None
      s0 = (Ok "Error sending email: 'path'", s')
    /\ outbox s' = [].
Proof.
  destruct (send_attachment_without_path env0 "user@domain.com" "Hi" "body"
    [missing_attachment; {["name" := "x.pdf"]}] false None None None s0
    "C:\Users\u\AppData\Local" eq_refl eq_refl)
    as (s' & H & Ho & _).
  - vm_compute. reflexivity.
  - reflexivity.
  - reflexivity.
  - intros c. reflexivity.
  - apply Exists_cons_tl. apply Exists_cons_hd. vm_compute. reflexivity.
  - by exists s'.
Defined.

Lemma find_folder_run folders folder_name s :
  find_folder folders folder_name s = (first_named folders folder_name, s).
Proof.
  induction folders as [|f folders IH]; [done|].
  cbn [find_folder first_named]. unfold World.bind at 1, lift.
  destruct (Name f) as [n|e]; [|done].
  by destruct (String.eqb n folder_name).
Qed.

Lemma scan_body_listing env subject folder_name fp aft ir since s :
  scan_body env subject folder_name fp aft ir since s =
  match listing env subject folder_name since with
  | Raise e => (Raise e, s)
  | Ok None =>
      (Ok true,
       (logging ERROR ("Folder '" +:+ folder_name +:+ "' not found.") s).2)
  | Ok (Some msgs) =>
      World.bind (for_messages env ir fp aft msgs) (fun _ => ret false) s
  end.
Proof.
  unfold scan_body, listing.
  unfold World.bind at 1, lift at 1. destruct (Dispatch_Outlook env); [|done].
  unfold World.bind at 1, lift at 1. destruct (GetNamespace_MAPI env); [|done].
  unfold World.bind at 1, lift at 1.
  destruct (Inbox_Folders env) as [folders|]; [|done].
  unfold World.bind at 1. rewrite find_folder_run.
  destruct (first_named folders folder_name) as [[found|]|]; [|done..].
  unfold World.bind at 1, lift at 1. destruct (Folder_Items found); [|done].
  unfold World.bind at 1, lift at 1.
  destruct (Restrict _ _) as [messages|]; [|done].
  unfold World.bind at 1.
  assert (Hrest : forall messages,
    World.bind (lift (Sort messages "[ReceivedTime]" true)) (fun messages =>
    World.bind (lift (elements messages)) (fun msgs =>
    World.bind (for_messages env ir fp aft msgs) (fun _ => ret false))) s
    = match Sort messages "[ReceivedTime]" true with
      | Raise e => (Raise e, s)
      | Ok messages =>
          match elements messages with
          | Raise e => (Raise e, s)
          | Ok msgs =>
              World.bind (for_messages env ir fp aft msgs)
                (fun _ => ret false) s
          end
      end).
  { intros m. unfold World.bind at 1, lift at 1.
    destruct (Sort m _ _) as [m'|]; [|done].
    unfold World.bind at 1, lift at 1. by destruct (elements m'). }
  destruct since as [since|].
  - unfold lift at 1. destruct (Restrict messages _) as [m|]; [|done].
    rewrite Hrest. by destruct (Sort m _ _) as [m'|]; [destruct (elements m')|].
  - unfold ret at 1. rewrite Hrest.
    by destruct (Sort messages _ _) as [m'|]; [destruct (elements m')|].
Qed.

Lemma read_headers_nil msg files :
  read_headers msg [] = match read_headers msg files with
                        | Ok rec => Ok (headers rec)
                        | Raise e => Raise e
                        end.
Proof.
  unfold read_headers.
  destruct (Subject msg), (ConversationID msg),
    (Sender_PrimarySmtpAddress msg), (Sender_Name msg), (Body msg); done.
Qed.

Lemma headers_idem rec : headers (headers rec) = headers rec.
Proof. done. Qed.

(** A message gives its record, or none, and leaves the records before as
    they were. *)
Lemma process_email_record env msg fp aft s :
  exists s',
    process_email env msg fp aft s = (Ok tt, s')
    /\ outbox s' = outbox s
    /\ match record_of msg with
       | Some h =>
           exists rec, emails s' = emails s ++ [rec] /\ headers rec = h
       | None =>
           emails s' = emails s
           /\ exists e,
                last (log s')
                = Some (ERROR, "Error processing email: " +:+ exn_text e)
       end.
Proof.
  destruct (process_email_run env msg fp aft s)
    as (s1 & (_ & Ho & He & _) & [(e & -> & Hwhy)|(atts & files & rec & Ha & Hr & -> & _)]).
  - cbn in Ho, He. eexists. split; [reflexivity|]. cbn. split; [exact Ho|].
    assert (record_of msg = None) as ->.
    { unfold record_of. destruct Hwhy as [->|(files & Hf)]; [done|].
      rewrite (read_headers_nil msg files), Hf. by destruct (Attachments msg). }
    split; [exact He|]. exists e. by rewrite last_snoc.
  - cbn in Ho, He. eexists. split; [reflexivity|]. cbn. split; [exact Ho|].
    unfold record_of. rewrite Ha, (read_headers_nil msg files), Hr.
    exists rec. by rewrite He.
Qed.

Lemma for_messages_records env ir fp aft messages : forall s,
  exists r s',
    for_messages env ir fp aft messages s = (r, s')
    /\ outbox s' = outbox s
    /\ exists recs,
         emails s' = emails s ++ recs
         /\ map headers recs
            = omap record_of
                (filter (fun m => passes ir m = true) (reached ir messages)).
Proof.
  induction messages as [|msg messages IH]; intros s.
  - exists (Ok tt), s. split; [done|]. split; [done|]. exists [].
    by rewrite app_nil_r.
  - cbn [for_messages reached]. unfold World.bind at 1. rewrite wanted_run.
    assert (Hpass : forall s0,
      passes ir msg = true ->
      (if ir then reached ir messages
       else match UnRead msg with
            | Ok _ => reached ir messages
            | Raise _ => []
            end) = reached ir messages ->
      exists r s',
        (World.bind
           (try_except (process_email env msg fp aft)
              (fun e => logging ERROR
                 ("Error processing individual email: " +:+ exn_text e)))
           (fun _ => for_messages env ir fp aft messages)) s0
        = (r, s')
        /\ outbox s' = outbox s0
        /\ exists recs,
             emails s' = emails s0 ++ recs
             /\ map headers recs
                = omap record_of
                    (filter (fun m => passes ir m = true)
                       (msg :: (if ir then reached ir messages
                                else match UnRead msg with
                                     | Ok _ => reached ir messages
                                     | Raise _ => []
                                     end)))).
    { intros s0 Hp ->. rewrite filter_cons_True by done.
      unfold World.bind at 1, try_except.
      destruct (process_email_record env msg fp aft s0) as (s1 & -> & Ho1 & H1).
      destruct (IH s1) as (r & s' & -> & Ho & recs & He & Hm).
      exists r, s'. split; [done|]. split; [congruence|].
      cbn [omap list_omap]. destruct (record_of msg) as [h|].
      - destruct H1 as (rec & He1 & Hh). exists (rec :: recs).
        split; [rewrite He, He1; by rewrite <- app_assoc|].
        cbn [map]. by rewrite Hh, Hm.
      - destruct H1 as (He1 & _). exists recs. split; [congruence|done]. }
    destruct ir; [by apply Hpass|].
    destruct (UnRead msg) as [[|]|e] eqn:EU.
    + apply Hpass; [|done]. unfold passes, is_unread. by rewrite EU.
    + rewrite filter_cons_False.
      2:{ unfold passes, is_unread. by rewrite EU. }
      unfold World.bind at 1, ret. apply IH.
    + rewrite filter_cons_False.
      2:{ unfold passes, is_unread. by rewrite EU. }
      exists (Raise e), s. split; [done|]. split; [done|]. exists [].
      by rewrite app_nil_r.
Qed.

Lemma record_of_shape msg h :
  record_of msg = Some h ->
  Subject msg = Ok (e_subject h) /\ e_name h = e_subject h
  /\ e_status h = "pending" /\ e_files h = [].
Proof.
  unfold record_of, read_headers. destruct (Attachments msg); [|done].
  destruct (Subject msg), (ConversationID msg),
    (Sender_PrimarySmtpAddress msg), (Sender_Name msg), (Body msg);
    try done. by intros [= <-].
Qed.

(** [process_email] never raises, whatever the message and the client do:
    it appends the record of the message, or logs an error and appends
    nothing; records appended before stay, and nothing is sent.  So the
    handler around its call in [get_emails] is never entered. *)
Theorem process_email_never_raises env msg output_dir allowed_file_types s :
  exists s',
    process_email env msg output_dir allowed_file_types s = (Ok tt, s')
    /\ outbox s' = outbox s
    /\ match record_of msg with
       | Some h =>
           exists rec,
             emails s' = emails s ++ [rec] /\ headers rec = h
             /\ e_status rec = "pending" /\ e_name rec = e_subject rec
       | None =>
           emails s' = emails s
           /\ exists e,
                last (log s')
                = Some (ERROR, "Error processing email: " +:+ exn_text e)
       end
    /\ forall h,
         try_except (process_email env msg output_dir allowed_file_types) h s
         = (Ok tt, s').
Proof.
  destruct (process_email_record env msg output_dir allowed_file_types s)
    as (s' & H & Ho & Hr).
  exists s'. split; [exact H|]. split; [exact Ho|]. split.
  - destruct (record_of msg) as [h|] eqn:E; [|exact Hr].
    destruct Hr as (rec & He & Hh). exists rec. split; [exact He|].
    split; [exact Hh|]. destruct (record_of_shape msg h E) as (_ & Hn & Hs & _).
    subst h. by cbn in Hn, Hs.
  - intros h. unfold try_except. by rewrite H.
Qed.

Lemma ensure_eq env fp s :
  ensure env fp s =
  if isdir (fs s) fp then (Ok tt, s)
  else
    match makedirs_error env fp (fs s) with
    | Some e =>
        (Raise e,
         mkState (fs s) (log s) (outbox s) (uuids s) (emails s)
           (trace s ++ [makedirs_call fp]))
    | None =>
        (Ok tt,
         mkState (add_dir fp (fs s))
           (log s ++ [(INFO, "Created directory: " +:+ fp)]) (outbox s)
           (uuids s) (emails s) (trace s ++ [makedirs_call fp]))
    end.
Proof.
  rewrite ensure_run. destruct (isdir (fs s) fp); cbn [negb]; [done|].
  unfold World.bind at 1, makedirs. unfold World.bind at 1. cbn [emit modify].
  unfold World.bind at 1. cbn [get fs].
  by destruct (makedirs_error env fp (fs s)).
Qed.

Lemma ensure_frame env fp s :
  outbox (ensure env fp s).2 = outbox s
  /\ emails (ensure env fp s).2 = emails s
  /\ files (fs (ensure env fp s).2) = files (fs s)
  /\ (dirs (fs (ensure env fp s).2) = dirs (fs s)
      \/ dirs (fs (ensure env fp s).2) = {[fp]} ∪ dirs (fs s)).
Proof.
  rewrite ensure_eq. destruct (isdir (fs s) fp); [auto|].
  destruct (makedirs_error env fp (fs s)); cbn; auto.
Qed.

Lemma scan_run env subject folder_name fp aft ir since s :
  exists s',
    scan env subject folder_name fp aft ir since s = (Ok (emails s'), s')
    /\ outbox s' = outbox s
    /\ match listing env subject folder_name since with
       | Raise e =>
           emails s' = emails s
           /\ log s'
              = log s
                ++ [(ERROR, "Error when processing email messages: "
                              +:+ exn_text e);
                    (INFO, "Processed " +:+ pretty (length (emails s))
                             +:+ " emails.")]
       | Ok None =>
           emails s' = emails s
           /\ log s'
              = log s
                ++ [(ERROR, "Folder '" +:+ folder_name +:+ "' not found.")]
       | Ok (Some msgs) =>
           (exists recs,
              emails s' = emails s ++ recs
              /\ map headers recs
                 = omap record_of
                     (filter (fun m => passes ir m = true) (reached ir msgs)))
           /\ last (log s')
              = Some (INFO, "Processed " +:+ pretty (length (emails s'))
                              +:+ " emails.")
       end.
Proof.
  unfold scan. unfold World.bind at 1, try_except. rewrite scan_body_listing.
  destruct (listing env subject folder_name since) as [[msgs|]|e].
  - unfold World.bind at 1.
    destruct (for_messages_records env ir fp aft msgs s)
      as (r & s1 & -> & Ho & recs & He & Hm).
    destruct r as [u|e].
    + unfold ret at 1. unfold World.bind at 1. cbn [get].
      eexists. split; [reflexivity|]. cbn. split; [exact Ho|].
      split; [by exists recs|]. by rewrite last_snoc.
    + unfold World.bind at 1. cbn [logging modify]. unfold World.bind at 1, ret.
      unfold World.bind at 1. cbn [get].
      eexists. split; [reflexivity|]. cbn. split; [exact Ho|].
      split; [by exists recs|]. by rewrite last_snoc.
  - eexists. split; [reflexivity|]. by cbn.
  - unfold World.bind at 1. cbn [logging modify]. unfold World.bind at 1, ret.
    unfold World.bind at 1. cbn [get].
    eexists. split; [reflexivity|]. cbn. split; [done|]. split; [done|].
    by rewrite <- app_assoc.
Qed.

(** Once the destination is in place and the address is valid,
    [get_emails] returns whatever the mail client does: a call on the
    client that raises ends the scan with an error and the count in the
    log, and the list built so far is returned. *)
Theorem get_emails_returns env email subject folder_name output_dir
  allowed_file_types include_read since s folderPath :
  resolve env output_dir = Ok folderPath ->
  isdir (fs s) folderPath = true
  \/ makedirs_error env folderPath (fs s) = None ->
  is_valid_email email = true ->
  exists l s',
    get_emails env email subject folder_name output_dir allowed_file_types
      include_read since s = (Ok l, s')
    /\ outbox s' = outbox s
    /\ match listing env subject folder_name since with
       | Raise e =>
           l = []
           /\ exists l0,
                log s'
                = l0 ++ [(ERROR, "Error when processing email messages: "
                                   +:+ exn_text e);
                         (INFO, "Processed 0 emails.")]
       | Ok None =>
           l = []
           /\ last (log s')
              = Some (ERROR, "Folder '" +:+ folder_name +:+ "' not found.")
       | Ok (Some _) =>
           last (log s')
           = Some (INFO, "Processed " +:+ pretty (length l) +:+ " emails.")
       end.
Proof.
  intros Hres Hdir Hv. rewrite get_emails_eq, Hres, Hv. cbn [negb].
  pose proof (ensure_spec env folderPath (clear_emails s)) as He.
  pose proof (ensure_frame env folderPath (clear_emails s)) as Hf.
  destruct (ensure env folderPath (clear_emails s)) as [[u|e] s1].
  2:{ destruct He as (H1 & H2 & _). cbn in *. destruct Hdir; congruence. }
  destruct Hf as (Ho1 & Hem & _). cbn in Ho1, Hem.
  destruct (scan_run env subject folder_name folderPath allowed_file_types
    include_read since s1) as (s' & -> & Ho & Hl).
  exists (emails s'), s'. split; [done|]. split; [congruence|].
  destruct (listing env subject folder_name since) as [[msgs|]|e].
  - apply Hl.
  - destruct Hl as (E & L). split; [congruence|]. by rewrite L, last_snoc.
  - destruct Hl as (E & L). split; [congruence|]. exists (log s1).
    rewrite L, Hem. done.
Qed.

(** The records come in the order in which the client lists the messages:
    one for each message that passes the read filter and can be read. *)
Theorem get_emails_records env email subject folder_name output_dir
  allowed_file_types include_read since s folderPath msgs :
  resolve env output_dir = Ok folderPath ->
  isdir (fs s) folderPath = true
  \/ makedirs_error env folderPath (fs s) = None ->
  is_valid_email email = true ->
  listing env subject folder_name since = Ok (Some msgs) ->
  exists l s',
    get_emails env email subject folder_name output_dir allowed_file_types
      include_read since s = (Ok l, s')
    /\ map headers l
       = omap record_of
           (filter (fun m => passes include_read m = true)
              (reached include_read msgs)).
Proof.
  intros Hres Hdir Hv Hlist. rewrite get_emails_eq, Hres, Hv. cbn [negb].
  pose proof (ensure_spec env folderPath (clear_emails s)) as He.
  pose proof (ensure_frame env folderPath (clear_emails s)) as Hf.
  destruct (ensure env folderPath (clear_emails s)) as [[u|e] s1].
  2:{ destruct He as (H1 & H2 & _). cbn in *. destruct Hdir; congruence. }
  destruct Hf as (_ & Hem & _). cbn in Hem.
  destruct (scan_run env subject folder_name folderPath allowed_file_types
    include_read since s1) as (s' & -> & _ & Hl).
  rewrite Hlist in Hl. destruct Hl as ((recs & E & Hm) & _).
  exists (emails s'), s'. split; [done|]. by rewrite E, Hem.
Qed.


Lemma get_emails_returns_witness :
  exists l s',
    get_emails env_reports "me@example.com" "Report" "Drafts" "attachments"
      None false None s0 = (Ok l, s')
    /\ l = [].
Proof.
  destruct (get_emails_returns env_reports "me@example.com" "Report" "Drafts"
    "attachments" None false None s0 "C:\Users\u\Documents\attachments\"
    eq_refl) as (l & s' & H & _ & Hl).
  - right. reflexivity.
  - vm_compute. reflexivity.
  - exists l, s'. split; [exact H|].
    change (listing env_reports "Report" "Drafts" None)
      with (Raise (A:=option (list Message)) not_supported) in Hl.
    apply Hl.
Defined.

Lemma get_emails_records_witness :
  exists l s',
    get_emails env_reports "me@example.com" "Report" "Reports" "attachments"
      None false None s0 = (Ok l, s')
    /\ map e_subject (map headers l) = ["Report B"].
Proof.
  destruct (get_emails_records env_reports "me@example.com" "Report" "Reports"
    "attachments" None false None s0 "C:\Users\u\Documents\attachments\"
    [msg_three; msg_no_exchange_user; msg_read] eq_refl)
    as (l & s' & H & Hm).
  - right. reflexivity.
  - vm_compute. reflexivity.
  - reflexivity.
  - exists l, s'. split; [exact H|]. rewrite Hm. vm_compute. reflexivity.
Defined.

(** *** Where an attachment is saved *)

(** A file name with a drive and a rooted path is saved where it says, not
    under [output_dir]. *)
Theorem download_attachment_rooted_name env attachment output_dir
  allowed_file_types s n d c p :
  FileName attachment = Ok n ->
  ntpath.splitdrive n = (d, String c p) ->
  truthy d = true ->
  char_in c ntpath.seps = true ->
  allowed allowed_file_types n = true ->
  SaveAsFile_error attachment n = None ->
  exists s',
    download_attachment env attachment output_dir allowed_file_types s
    = (Ok (Some (mkDetail n n (uuid4 env (uuids s)))), s')
    /\ files (fs s') !! n = Some (att_content attachment)
    /\ trace s' = trace s ++ [SaveAsFile_call n (fs s)].
Proof.
  intros Hn Hsd Hd Hc Ha Hs.
  rewrite (download_attachment_run _ _ _ _ _ _ Hn), Ha. cbv zeta.
  destruct (join_absolute output_dir n d c p Hsd Hd Hc) as [-> _].
  rewrite Hs. eexists. split; [reflexivity|]. cbn.
  split; [apply lookup_insert_eq|done].
Qed.

(** A file name without drive and without leading separator is saved under
    [output_dir]: the path is [output_dir], a separator where one is
    needed, and the name. *)
Theorem download_attachment_plain_name env attachment output_dir
  allowed_file_types s n d s' :
  FileName attachment = Ok n ->
  ntpath.splitdrive n = ("", n) ->
  match n with
  | String c _ => char_in c ntpath.seps = false
  | EmptyString => True
  end ->
  download_attachment env attachment output_dir allowed_file_types s
    = (Ok (Some d), s') ->
  name d = n
  /\ exists sp,
       (sp = "" \/ sp = String ntpath.sep "")
       /\ path d = output_dir +:+ sp +:+ n
       /\ files (fs s') !! (output_dir +:+ sp +:+ n)
          = Some (att_content attachment).
Proof.
  intros Hn Hsd Hc Hrun.
  destruct (download_attachment_detail _ _ _ _ _ _ _ Hrun)
    as ((Hp & _) & Hname & Hf & _).
  assert (name d = n) as En by congruence. split; [exact En|].
  destruct (join_relative output_dir n Hsd Hc) as (sp & Hsp & Hj).
  exists sp. split; [exact Hsp|]. rewrite <- Hj, <- En, <- Hp. done.
Qed.

Lemma splitext_no_dot n :
  char_in "." n = false -> ntpath.splitext n = (n, "").
Proof.
  intros H. unfold ntpath.splitext.
  change ntpath.extsep with "."%char. rewrite (rfind_char_in _ _ H).
  cbv zeta. by destruct (Nat.max _ _).
Qed.

(** A file name without a dot has the empty extension: under an allow-list
    that is not empty and does not hold the empty string it is never
    saved, and nothing happens. *)
Theorem download_attachment_no_extension env attachment output_dir
  allowed_file_types s n :
  FileName attachment = Ok n ->
  char_in "." n = false ->
  allowed_file_types <> [] ->
  ~ In "" allowed_file_types ->
  download_attachment env attachment output_dir allowed_file_types s
  = (Ok None, s).
Proof.
  intros Hn Hdot Hne Hin.
  rewrite (download_attachment_run _ _ _ _ _ _ Hn).
  assert (allowed allowed_file_types n = false) as ->; [|done].
  apply not_true_is_false. rewrite allowed_iff, (splitext_no_dot n Hdot).
  by intros [?|?].
Qed.

Lemma download_attachment_rooted_name_witness :
  exists s',
    download_attachment env0 att_rooted "C:\out\" [".pdf"] s0
    = (Ok (Some (mkDetail "C:\Windows\x.pdf" "C:\Windows\x.pdf" "uuid-0")), s')
    /\ files (fs s') !! "C:\Windows\x.pdf" = Some "%PDF".
Proof.
  destruct (download_attachment_rooted_name env0 att_rooted "C:\out\" [".pdf"]
    s0 "C:\Windows\x.pdf" "C:" "\" "Windows\x.pdf" eq_refl eq_refl eq_refl
    eq_refl) as (s' & H & Hf & _).
  - vm_compute. reflexivity.
  - reflexivity.
  - exists s'. split; [exact H | exact Hf].
Defined.

Lemma download_attachment_plain_name_witness :
  exists sp,
    (sp = "" \/ sp = String ntpath.sep "")
    /\ files
         (fs (download_attachment env0 att_pdf "C:\out\" [".pdf"] s0).2)
         !! ("C:\out\" +:+ sp +:+ "x.pdf") = Some "%PDF".
Proof.
  destruct (download_attachment_plain_name env0 att_pdf "C:\out\" [".pdf"] s0
    "x.pdf" (mkDetail "C:\out\x.pdf" "x.pdf" "uuid-0")
    (download_attachment env0 att_pdf "C:\out\" [".pdf"] s0).2
    eq_refl eq_refl eq_refl) as (_ & sp & Hsp & _ & Hf).
  - vm_compute. reflexivity.
  - exists sp. split; [exact Hsp | exact Hf].
Defined.

Lemma download_attachment_no_extension_witness :
  download_attachment env0 att_readme "C:\out\" [".pdf"] s0 = (Ok None, s0).
Proof.
  apply (download_attachment_no_extension env0 att_readme "C:\out\" [".pdf"]
           s0 "README" eq_refl eq_refl).
  - discriminate.
  - intros [H|[]]. discriminate H.
Defined.

Lemma drawn_nil env lo hi : drawn env lo hi [].
Proof. exists []. split; [done|]. split; constructor. Qed.

Lemma drawn_app env lo mid hi a b :
  lo <= mid -> mid <= hi ->
  drawn env lo mid a -> drawn env mid hi b -> drawn env lo hi (a ++ b).
Proof.
  intros H1 H2 (ka & -> & Na & Fa) (kb & -> & Nb & Fb).
  exists (ka ++ kb). split; [by rewrite map_app|]. split.
  - apply NoDup_app. split; [done|]. split; [|done].
    intros k Ha Hb. rewrite Forall_forall in Fa, Fb.
    specialize (Fa k Ha). specialize (Fb k Hb). lia.
  - apply Forall_app. split.
    + eapply Forall_impl; [exact Fa|]. cbn. intros; lia.
    + eapply Forall_impl; [exact Fb|]. cbn. intros; lia.
Qed.

Lemma drawn_one env k : drawn env k (S k) [uuid4 env k].
Proof.
  exists [k]. split; [done|]. split.
  - apply NoDup_singleton.
  - constructor; [lia|constructor].
Qed.

Lemma drawn_NoDup env lo hi ids :
  (forall i j, uuid4 env i = uuid4 env j -> i = j) ->
  drawn env lo hi ids -> NoDup ids.
Proof.
  intros Hinj (ks & -> & Nk & _). induction Nk as [|k ks Hk _ IH]; cbn.
  - constructor.
  - constructor; [|exact IH]. intros Hin. apply Hk.
    apply list_elem_of_In, in_map_iff in Hin as (j & E & Hj).
    apply Hinj in E. subst. by apply list_elem_of_In.
Qed.

Lemma download_attachment_uuids env att fp aft s :
  match download_attachment env att fp aft s with
  | (Ok (Some d), s') => id d = uuid4 env (uuids s) /\ uuids s' = S (uuids s)
  | (_, s') => uuids s' = uuids s
  end.
Proof.
  destruct (FileName att) as [n|e] eqn:Hn.
  - rewrite (download_attachment_run _ _ _ _ _ _ Hn).
    destruct (allowed aft n); [|done]. cbv zeta.
    by destruct (SaveAsFile_error att _).
  - unfold download_attachment, World.bind at 1, lift. by rewrite Hn.
Qed.

Lemma submit_all_uuids env fp aft atts : forall s,
  exists futures s',
    submit_all env atts fp aft s = (Ok futures, s')
    /\ uuids s <= uuids s'
    /\ drawn env (uuids s) (uuids s') (map id (successes futures)).
Proof.
  induction atts as [|att atts IH]; intros s.
  - exists [], s. split; [done|]. split; [done|]. apply drawn_nil.
  - cbn [submit_all]. unfold World.bind at 1.
    pose proof (download_attachment_uuids env att fp aft s) as Hd.
    destruct (download_attachment env att fp aft s) as [r s1].
    destruct (IH s1) as (futures & s' & Hrun & Hle & Hdr).
    unfold World.bind at 1. rewrite Hrun. unfold ret.
    exists (r :: futures), s'. split; [done|].
    destruct r as [[d|]|e].
    + destruct Hd as (Hid & Hu). rewrite Hu in *. split; [lia|].
      rewrite successes_cons_Some. cbn [map]. rewrite Hid.
      apply (drawn_app env (uuids s) (S (uuids s)) (uuids s')
               [uuid4 env (uuids s)]); [lia|done|apply drawn_one|done].
    + rewrite Hd in *. split; [done|]. exact Hdr.
    + rewrite Hd in *. split; [done|]. exact Hdr.
Qed.

Lemma collect_uuids futures : forall acc s,
  exists s',
    collect futures acc s = (Ok (acc ++ successes futures), s')
    /\ uuids s' = uuids s.
Proof.
  induction futures as [|f futures IH]; intros acc s.
  - exists s. cbn. by rewrite app_nil_r.
  - cbn [collect]. unfold World.bind at 1, try_except.
    destruct f as [[d|]|e].
    + unfold World.bind at 1, lift, ret.
      destruct (IH (acc ++ [d]) s) as (s' & -> & Hu).
      exists s'. rewrite successes_cons_Some. by rewrite <- app_assoc.
    + unfold World.bind at 1, lift, ret.
      destruct (IH acc s) as (s' & -> & Hu). by exists s'.
    + unfold World.bind at 1, lift. unfold World.bind at 1.
      cbn [logging modify]. unfold ret.
      destruct (IH acc
        (mkState (fs s) (log s ++ [(ERROR, "Error saving attachment: " +:+ exn_text e)])
           (outbox s) (uuids s) (emails s) (trace s))) as (s' & -> & Hu).
      by exists s'.
Qed.

Lemma ids_of_app a b : ids_of (a ++ b) = ids_of a ++ ids_of b.
Proof. unfold ids_of. by rewrite map_app, concat_app. Qed.

Lemma process_email_uuids env msg fp aft s :
  exists s' recs,
    process_email env msg fp aft s = (Ok tt, s')
    /\ uuids s <= uuids s'
    /\ emails s' = emails s ++ recs
    /\ drawn env (uuids s) (uuids s') (ids_of recs).
Proof.
  rewrite process_email_eq. cbv zeta. set (s0 := mkState _ _ _ _ _ _).
  assert (Hh : forall e s1, uuids s <= uuids s1 -> emails s1 = emails s ->
    exists s' recs,
      handled e s1 = (Ok tt, s') /\ uuids s <= uuids s'
      /\ emails s' = emails s ++ recs
      /\ drawn env (uuids s) (uuids s') (ids_of recs)).
  { intros e s1 Hle Hem. eexists _, []. split; [reflexivity|]. cbn.
    split; [done|]. split; [by rewrite app_nil_r|]. apply drawn_nil. }
  destruct (Attachments msg) as [atts|e]; [|by apply Hh].
  destruct (submit_all_uuids env fp (or_empty aft) atts s0)
    as (futures & s1 & Hrun & Hle & Hdr).
  destruct (submit_all_spec env fp (or_empty aft) atts s0)
    as (futures' & s1' & Hrun' & (_ & _ & Hem1 & _) & _).
  rewrite Hrun in Hrun'. injection Hrun' as <- <-. rewrite Hrun.
  destruct (collect_uuids futures [] s1) as (s2 & Hc & Hu2).
  destruct (collect_spec fp futures [] s1) as (s2' & Hc' & (_ & _ & Hem2 & _) & _).
  rewrite Hc in Hc'. injection Hc' as <-. rewrite Hc. cbn [app].
  cbn in Hle, Hdr, Hem1.
  destruct (read_headers msg (successes futures)) as [rec|e] eqn:Hr.
  - eexists _, [rec]. split; [reflexivity|]. cbn.
    split; [lia|]. split; [congruence|].
    unfold ids_of. cbn. rewrite app_nil_r, Hu2.
    assert (e_files rec = successes futures) as ->; [|done].
    unfold read_headers in Hr.
    destruct (Subject msg), (ConversationID msg),
      (Sender_PrimarySmtpAddress msg), (Sender_Name msg), (Body msg);
      try done. by injection Hr as <-.
  - apply Hh; [lia|congruence].
Qed.

Lemma for_messages_uuids env ir fp aft messages : forall s,
  exists r s' recs,
    for_messages env ir fp aft messages s = (r, s')
    /\ uuids s <= uuids s'
    /\ emails s' = emails s ++ recs
    /\ drawn env (uuids s) (uuids s') (ids_of recs).
Proof.
  induction messages as [|msg messages IH]; intros s.
  - exists (Ok tt), s, []. split; [done|]. split; [done|].
    split; [by rewrite app_nil_r|]. apply drawn_nil.
  - cbn [for_messages]. unfold World.bind at 1. rewrite wanted_run.
    assert (Hstop : forall r : res unit, exists r0 s' recs,
      (r, s) = (r0, s') /\ uuids s <= uuids s'
      /\ emails s' = emails s ++ recs
      /\ drawn env (uuids s) (uuids s') (ids_of recs)).
    { intros r. exists r, s, []. split; [done|]. split; [done|].
      split; [by rewrite app_nil_r|]. apply drawn_nil. }
    assert (Hgo : exists r s' recs,
      (World.bind
         (try_except (process_email env msg fp aft)
            (fun e => logging ERROR
               ("Error processing individual email: " +:+ exn_text e)))
         (fun _ => for_messages env ir fp aft messages)) s = (r, s')
      /\ uuids s <= uuids s'
      /\ emails s' = emails s ++ recs
      /\ drawn env (uuids s) (uuids s') (ids_of recs)).
    { unfold World.bind at 1, try_except.
      destruct (process_email_uuids env msg fp aft s)
        as (s1 & recs1 & -> & Hle1 & He1 & Hd1).
      destruct (IH s1) as (r & s' & recs & -> & Hle & He & Hd).
      exists r, s', (recs1 ++ recs). split; [done|]. split; [lia|].
      split; [rewrite He, He1; by rewrite <- app_assoc|].
      rewrite ids_of_app. by eapply drawn_app. }
    destruct ir; [exact Hgo|].
    destruct (UnRead msg) as [[|]|e]; [exact Hgo| |apply Hstop].
    unfold World.bind at 1, ret. apply IH.
Qed.

(** When [uuid4] never gives the same value twice, no two files of the
    result have the same identifier. *)
Theorem get_emails_ids_distinct env email subject folder_name output_dir
  allowed_file_types include_read since s l s' :
  (forall i j, uuid4 env i = uuid4 env j -> i = j) ->
  get_emails env email subject folder_name output_dir allowed_file_types
    include_read since s = (Ok l, s') ->
  NoDup (ids_of l) /\ length (ids_of l) <= uuids s' - uuids s.
Proof.
  intros Hinj. rewrite get_emails_eq.
  destruct (resolve env output_dir) as [fp|e]; [|discriminate].
  rewrite ensure_eq.
  assert (Hnil : NoDup (ids_of []) /\ length (ids_of []) <= uuids s' - uuids s).
  { split; [constructor|cbn; lia]. }
  set (s1 := if isdir (fs (clear_emails s)) fp then clear_emails s
             else mkState (add_dir fp (fs s))
                    (log s ++ [(INFO, "Created directory: " +:+ fp)]) (outbox s)
                    (uuids s) [] (trace s ++ [makedirs_call fp])).
  assert (Hu1 : uuids s1 = uuids s /\ emails s1 = []).
  { unfold s1. by destruct (isdir _ _). }
  assert (Hscan :
    (if negb (is_valid_email email) then
       World.bind
         (logging ERROR ("Invalid email addresses provided: " +:+ email))
         (fun _ => return_emails) s1
     else scan env subject folder_name fp allowed_file_types include_read
            since s1) = (Ok l, s') ->
    NoDup (ids_of l) /\ length (ids_of l) <= uuids s' - uuids s).
  { destruct Hu1 as (Hu1 & He1).
    destruct (negb (is_valid_email email)).
    { cbn. rewrite He1. by intros [= <- <-]. }
    unfold scan. unfold World.bind at 1, try_except.
    rewrite scan_body_listing.
    assert (Hend : forall s2 recs,
      uuids s1 <= uuids s2 -> emails s2 = recs ->
      drawn env (uuids s1) (uuids s2) (ids_of recs) ->
      World.bind get (fun s =>
        World.bind
          (logging INFO
             ("Processed " +:+ pretty (length (emails s)) +:+ " emails."))
          (fun _ => return_emails)) s2 = (Ok l, s') ->
      NoDup (ids_of l) /\ length (ids_of l) <= uuids s' - uuids s).
    { intros s2 recs Hle He Hd. cbn. intros [= <- <-]. cbn. rewrite He.
      split; [by eapply drawn_NoDup|].
      destruct Hd as (ks & -> & Nk & Fk). rewrite length_map.
      assert (length ks <= uuids s2 - uuids s1); [|lia].
      clear -Nk Fk. set (lo := uuids s1) in *. set (hi := uuids s2) in *.
      assert (NoDup (map (fun k => k - lo) ks)).
      { clear -Nk Fk. induction Nk as [|k ks Hk _ IH]; cbn; [constructor|].
        inversion Fk as [|? ? Hb Fk']; subst. constructor; [|by apply IH].
        intros Hin. apply list_elem_of_In, in_map_iff in Hin as (j & E & Hj).
        apply Hk. rewrite List.Forall_forall in Fk'. specialize (Fk' j Hj).
        assert (j = k) by lia. subst. by apply list_elem_of_In. }
      assert (Hsub : forall x,
        x ∈ map (fun k => k - lo) ks -> x ∈ seq 0 (hi - lo)).
      { intros x Hx. apply list_elem_of_In, in_map_iff in Hx as (j & <- & Hj).
        rewrite List.Forall_forall in Fk. specialize (Fk j Hj).
        apply list_elem_of_In, in_seq. lia. }
      pose proof (submseteq_length _ _ (NoDup_submseteq _ _ H Hsub)) as Hlen.
      by rewrite length_map, length_seq in Hlen. }
    destruct (listing env subject folder_name since) as [[msgs|]|e].
    - unfold World.bind at 1.
      destruct (for_messages_uuids env include_read fp allowed_file_types msgs s1)
        as (r & s2 & recs & -> & Hle & He & Hd).
      rewrite He1 in He. cbn [app] in He.
      destruct r as [u|e].
      + unfold ret at 1. by apply (Hend s2 recs).
      + unfold World.bind at 1. cbn [logging modify]. unfold ret at 1.
        by apply (Hend _ recs).
    - cbn. rewrite He1. by intros [= <- <-].
    - unfold World.bind at 1. cbn [logging modify]. unfold ret at 1.
      apply (Hend _ []); [done|done|apply drawn_nil]. }
  destruct (isdir (fs (clear_emails s)) fp) eqn:Hd; [exact Hscan|].
  destruct (makedirs_error env fp (fs (clear_emails s))); [discriminate|].
  exact Hscan.
Qed.

Lemma uuid4_env_reports_inj i j :
  uuid4 env_reports i = uuid4 env_reports j -> i = j.
Proof.
  change (uuid4 env_reports i) with ("uuid-" +:+ pretty i).
  change (uuid4 env_reports j) with ("uuid-" +:+ pretty j).
  intros H. apply (inj pretty). by apply (inj (String.app "uuid-")).
Qed.

Lemma get_emails_ids_distinct_witness :
  NoDup
    (ids_of
       match (get_emails env_reports "me@example.com" "Report" "Reports"
                "attachments" None true None s0).1 with
       | Ok l => l
       | Raise _ => []
       end).
Proof.
  assert (E : exists l,
    (get_emails env_reports "me@example.com" "Report" "Reports"
       "attachments" None true None s0).1 = Ok l).
  { eexists. vm_compute. reflexivity. }
  destruct E as [l E]. rewrite E.
  refine (proj1 (get_emails_ids_distinct env_reports "me@example.com" "Report"
    "Reports" "attachments" None true None s0 l
    (get_emails env_reports "me@example.com" "Report" "Reports"
       "attachments" None true None s0).2 uuid4_env_reports_inj _)).
  rewrite <- E. by destruct (get_emails _ _ _ _ _ _ _ _ _).
Defined.

Lemma get_emails_isdir env email subject folder_name output_dir aft ir since
  s l s' :
  get_emails env email subject folder_name output_dir aft ir since s
    = (Ok l, s') ->
  exists fp, resolve env output_dir = Ok fp /\ isdir (fs s') fp = true.
Proof.
  rewrite get_emails_eq.
  destruct (resolve env output_dir) as [fp|e]; [|discriminate].
  pose proof (ensure_spec env fp (clear_emails s)) as He.
  destruct (ensure env fp (clear_emails s)) as [[u|e] s1]; [|discriminate].
  destruct He as (Hd & _). intros Hrun. exists fp. split; [done|].
  destruct (negb (is_valid_email email)).
  - cbn in Hrun. by injection Hrun as <- <-.
  - destruct (scan_spec env subject folder_name fp aft ir since s1)
      as (s2 & evs & E & ((Gd & _) & _) & _).
    rewrite E in Hrun. injection Hrun as <- <-.
    unfold isdir in *. by rewrite Gd.
Qed.

(** After a run of [get_emails] that returned, a further run for the same
    [output_dir] calls [os.makedirs] no more: the destination is created
    once. *)
Theorem get_emails_creates_once env output_dir email subject folder_name
  allowed_file_types include_read since s l s' email2 subject2 folder_name2
  allowed_file_types2 include_read2 since2 :
  get_emails env email subject folder_name output_dir allowed_file_types
    include_read since s = (Ok l, s') ->
  exists evs,
    trace (get_emails env email2 subject2 folder_name2 output_dir
             allowed_file_types2 include_read2 since2 s').2
    = trace s' ++ evs
    /\ Forall no_makedirs evs.
Proof.
  intros Hrun.
  destruct (get_emails_isdir _ _ _ _ _ _ _ _ _ _ _ Hrun) as (fp & Hres & Hd).
  rewrite get_emails_eq, Hres, ensure_eq. cbn [clear_emails fs]. rewrite Hd.
  destruct (negb (is_valid_email email2)).
  - exists []. cbn. by rewrite app_nil_r.
  - destruct (scan_spec env subject2 folder_name2 fp allowed_file_types2
      include_read2 since2 (clear_emails s'))
      as (s2 & evs & -> & (_ & _ & T & G & _) & _).
    exists evs. split; [exact T|]. cbn in G. specialize (G Hd).
    eapply Forall_impl; [exact G|]. by intros [].
Qed.

Lemma get_emails_creates_once_witness :
  exists evs,
    trace (get_emails env_reports "me@example.com" "Report" "Reports"
             "attachments" None false None
             (get_emails env_reports "not-an-address" "Report" "Reports"
                "attachments" None false None s0).2).2
    = trace (get_emails env_reports "not-an-address" "Report" "Reports"
               "attachments" None false None s0).2 ++ evs
    /\ Forall no_makedirs evs.
Proof.
  apply (get_emails_creates_once env_reports "attachments" "not-an-address"
           "Report" "Reports" None false None s0 []).
  vm_compute. reflexivity.
Defined.

Lemma drop_last_sep_end c s :
  char_in c ntpath.seps = true ->
  char_in c (drop (ntpath.last_sep_end s) s) = false.
Proof.
  intros Hc. induction s as [|x s IH]; [done|].
  cbn [ntpath.last_sep_end]. destruct (ntpath.last_sep_end s) as [|i].
  - cbn [drop] in IH. destruct (char_in x ntpath.seps) eqn:Hx.
    + exact IH.
    + cbn [drop char_in]. rewrite IH, orb_false_r.
      destruct (eqc c x) eqn:E; [|done]. apply eqc_eq in E. congruence.
  - exact IH.
Qed.

Lemma basename_no_sep c p :
  char_in c ntpath.seps = true -> char_in c (ntpath.basename p) = false.
Proof.
  intros Hc. unfold ntpath.basename, ntpath.split.
  destruct (ntpath.splitdrive p) as [d r]. cbn [snd].
  by apply drop_last_sep_end.
Qed.

Lemma basename_suffix p : exists h, p = h +:+ ntpath.basename p.
Proof.
  unfold ntpath.basename, ntpath.split.
  pose proof (splitdrive_app p) as Hp.
  destruct (ntpath.splitdrive p) as [d r]. cbn [fst snd] in *.
  exists (d +:+ take (ntpath.last_sep_end r) r).
  by rewrite <- str_app_assoc, take_drop.
Qed.

Lemma inline_image_file_name image_path :
  file_name_of image_path (inline_image image_path).
Proof.
  split; [done|]. destruct (basename_suffix image_path) as [h Hh].
  exists (ntpath.basename image_path), h. split; [done|]. split; [exact Hh|].
  split; by apply basename_no_sep.
Qed.


